(** * pmap-transformer: training step and decoding engine

    A shallow embedding of
      - src/partitioning/xmap_train_functions.py  (train_step, update_opt_state)
      - benchmark_pjit_dp.py                      (train_step)
      - src/models/layers.py                      (CausalAttention, cache part)
      - torch_compatability/generation.py         (filters, TextGenerator)
    together with the properties stated for them. *)

From Stdlib Require Import String Ascii.
From Stdlib Require Import List ZArith QArith Qabs Qround Qpower Lia Lqa Bool Arith.
From Stdlib Require Import Permutation Sorted.
Set Warnings "-register-all".
Import ListNotations.
Open Scope Z_scope.

Set Implicit Arguments.

(* ===================================================================== *)
(** * Lists walked with a function that can fail                          *)
(* ===================================================================== *)

Module ListUtil.

Section MapOpt.
Variables A B : Type.
Variable f : A -> option B.

Fixpoint map_opt (l : list A) : option (list B) :=
  match l with
  | [] => Some []
  | a :: l' =>
      match f a, map_opt l' with
      | Some b, Some bs => Some (b :: bs)
      | _, _ => None
      end
  end.
End MapOpt.

Section ZipWith.
Variables A B C : Type.
Variable f : A -> B -> option C.

(** Two lists walked together; lists of different lengths fail. *)
Fixpoint zip_with_exact (l : list A) (r : list B) : option (list C) :=
  match l, r with
  | [], [] => Some []
  | a :: l', b :: r' =>
      match f a b, zip_with_exact l' r' with
      | Some c, Some cs => Some (c :: cs)
      | _, _ => None
      end
  | _, _ => None
  end.
End ZipWith.

End ListUtil.
Import ListUtil.

(* ===================================================================== *)
(** * Pytrees: the nested containers walked by [jax.tree_util.tree_map]   *)
(* ===================================================================== *)

Module PyTree.

(** A pytree is a leaf or an ordered container of pytrees (tuples and lists
    in their own order, dicts in sorted key order). *)
Inductive pytree (A : Type) : Type :=
| Leaf : A -> pytree A
| Node : list (pytree A) -> pytree A.

Arguments Node {A} _.

Section Induction.
Variable A : Type.
Variable P : pytree A -> Prop.
Hypothesis HLeaf : forall x, P (Leaf x).
Hypothesis HNode : forall ts, Forall P ts -> P (Node ts).

Fixpoint pytree_ind' (t : pytree A) : P t :=
  match t with
  | Leaf x => HLeaf x
  | Node ts =>
      HNode ((fix all (l : list (pytree A)) : Forall P l :=
                match l with
                | [] => Forall_nil P
                | t' :: l' => Forall_cons t' (pytree_ind' t') (all l')
                end) ts)
  end.
End Induction.

(** [jax.tree_util.tree_map f tree]. *)
Fixpoint tree_map {A B : Type} (f : A -> B) (t : pytree A) : pytree B :=
  match t with
  | Leaf x => Leaf (f x)
  | Node ts => Node (map (tree_map f) ts)
  end.

(** [jax.tree_util.tree_map f tree] with a leaf function that can raise. *)
Fixpoint tree_map_opt {A B : Type} (f : A -> option B) (t : pytree A)
  : option (pytree B) :=
  match t with
  | Leaf x => option_map (@Leaf B) (f x)
  | Node ts => option_map Node (map_opt (tree_map_opt f) ts)
  end.

(** [jax.tree_util.tree_map f tree rest]: both trees are walked together; a
    difference of structure raises, which is [None] here. *)
Fixpoint tree_map2 {A B C : Type} (f : A -> B -> C)
         (a : pytree A) (b : pytree B) : option (pytree C) :=
  match a, b with
  | Leaf x, Leaf y => Some (Leaf (f x y))
  | Node xs, Node ys =>
      option_map Node (zip_with_exact (tree_map2 f) xs ys)
  | _, _ => None
  end.

(** The leaf reached by a path of child positions. *)
Fixpoint leaf_at {A : Type} (p : list nat) (t : pytree A) : option A :=
  match p, t with
  | [], Leaf x => Some x
  | i :: p', Node ts =>
      match nth_error ts i with
      | Some t' => leaf_at p' t'
      | None => None
      end
  | _, _ => None
  end.

(** The structure of a tree: the tree with its leaves erased. *)
Definition treedef {A : Type} (t : pytree A) : pytree unit :=
  tree_map (fun _ => tt) t.

(** [jax.tree_util.tree_leaves]. *)
Fixpoint tree_leaves {A : Type} (t : pytree A) : list A :=
  match t with
  | Leaf x => [x]
  | Node ts => flat_map tree_leaves ts
  end.

(** All leaves satisfy a predicate. *)
Definition all_leaves {A : Type} (P : A -> Prop) (t : pytree A) : Prop :=
  Forall P (tree_leaves t).

End PyTree.
Import PyTree.

(* ===================================================================== *)
(** * Tensors and [jax.lax.dynamic_index_in_dim]                          *)
(* ===================================================================== *)

Module Tensor.

(** A dense array: its shape and its elements in row-major order. *)
Record tensor (A : Type) : Type := mkTensor {
  shape : list nat;
  data : list A
}.

Definition numel (s : list nat) : nat := fold_right Nat.mul 1%nat s.

Definition well_formed {A : Type} (x : tensor A) : Prop :=
  length (data x) = numel (shape x).

(** [l[start : start + len]] for non-negative bounds. *)
Definition slice {A : Type} (start len : nat) (l : list A) : list A :=
  firstn len (skipn start l).

(** The indices of a dynamic slice: jax converts a start index to a 32-bit
    signed integer, and an index it is handed from outside that does not
    fit is not clamped (a Python integer raises [OverflowError]). The
    counter of a loop is such an integer from the start. *)
Definition is_int32 (index : Z) : Prop := - 2 ^ 31 <= index < 2 ^ 31.

(** The start index of a dynamic slice of size one in a dimension of size
    [d], for an index that is a 32-bit integer: a negative index has [d]
    added to it, and the result is clamped into [0, d - 1], as
    [jax.lax.dynamic_slice] does. *)
Definition clamp_index (d : nat) (index : Z) : nat :=
  let i := if index <? 0 then index + Z.of_nat d else index in
  Z.to_nat (Z.max 0 (Z.min i (Z.of_nat d - 1))).

(** [jax.lax.dynamic_index_in_dim operand index axis keepdims=False].
    An axis the operand does not have, or a dimension of size zero (a slice
    of size one does not fit), raises. *)
Definition dynamic_index_in_dim {A : Type}
           (operand : tensor A) (index : Z) (axis : nat) : option (tensor A) :=
  match nth_error (shape operand) axis with
  | None => None
  | Some d =>
      if (d =? 0)%nat then None
      else
        let i := clamp_index d index in
        let outer := numel (firstn axis (shape operand)) in
        let inner := numel (skipn (S axis) (shape operand)) in
        Some {| shape := firstn axis (shape operand)
                           ++ skipn (S axis) (shape operand);
                data := flat_map
                          (fun o => slice ((o * d + i) * inner) inner
                                          (data operand))
                          (seq 0 outer) |}
  end.

(** Selection written with positions: element [k] of the result, at outer
    position [k / inner] and inner position [k mod inner], is the element of
    the operand at the same positions and position [i] on the axis. *)
Definition select_in_dim {A : Type}
           (operand : tensor A) (i : nat) (axis : nat) (default : A)
  : tensor A :=
  let d := nth axis (shape operand) 0%nat in
  let outer := numel (firstn axis (shape operand)) in
  let inner := numel (skipn (S axis) (shape operand)) in
  {| shape := firstn axis (shape operand) ++ skipn (S axis) (shape operand);
     data := map (fun k => nth (((k / inner) * d + i) * inner + k mod inner)
                               (data operand) default)
                 (seq 0 (outer * inner)) |}.

End Tensor.
Import Tensor.

(* ===================================================================== *)
(** * [jax.lax.fori_loop]                                                 *)
(* ===================================================================== *)

Module Lax.

Fixpoint fori_loop_from {S : Type} (trips : nat) (i : Z)
         (body_fun : Z -> S -> option S) (val : S) : option S :=
  match trips with
  | O => Some val
  | Datatypes.S n =>
      match body_fun i val with
      | Some val' => fori_loop_from n (i + 1) body_fun val'
      | None => None
      end
  end.

(** [fori_loop lower upper body_fun init_val]: the body runs for
    [lower, lower + 1, ..., upper - 1], and not at all when
    [upper <= lower]. These are the trips of the loop: jax also traces the
    body once before any trip, so that with no trip to make a body that
    cannot be traced still raises; what is stated of a loop here is stated
    for at least one trip, or of a body that runs. *)
Definition fori_loop {S : Type} (lower upper : Z)
           (body_fun : Z -> S -> option S) (init_val : S) : option S :=
  fori_loop_from (Z.to_nat (upper - lower)) lower body_fun init_val.

End Lax.
Import Lax.

(* ===================================================================== *)
(** * The mean a gradient accumulator is specified to return              *)
(* ===================================================================== *)

Module AccumulatorSpec.

Section Mean.
Variable T : Type.
Variable add : T -> T -> T.
Variable zeros_like : T -> T.
Variable div_int : T -> Z -> T.
Variable zero : T.

(** The arithmetic mean of [xs]: the sum, taken from [z] in the order of
    the list, divided by the number of terms. *)
Definition arithmetic_mean (z : T) (xs : list T) : T :=
  div_int (fold_left add xs z) (Z.of_nat (length xs)).

(** [result] is the mean of the per-microbatch pairs [lgs] of a loss and
    a gradient tree: its loss is the mean of the losses, and its tree has
    the structure of [params] with, at every leaf, the mean of the
    gradients at that leaf. *)
Definition accumulated_mean (params : pytree T)
           (lgs : list (T * pytree T)) (result : T * pytree T) : Prop :=
  fst result = arithmetic_mean zero (map fst lgs)
  /\ treedef (snd result) = treedef params
  /\ forall p v,
       leaf_at p params = Some v ->
       exists vals,
         Forall2 (fun lg x => leaf_at p (snd lg) = Some x) lgs vals
         /\ leaf_at p (snd result)
            = Some (arithmetic_mean (zeros_like v) vals).

(** One step of accumulation: the pair of step [i] added to the
    accumulators, leaf by leaf. *)
Definition add_step (lg : Z -> option (T * pytree T)) (i : Z)
           (acc : T * pytree T) : option (T * pytree T) :=
  match lg i with
  | Some (loss, grads) =>
      match tree_map2 add (snd acc) grads with
      | Some cumul_grads => Some (add (fst acc) loss, cumul_grads)
      | None => None
      end
  | None => None
  end.
End Mean.

(** The microbatch of a batch at a position of the accumulation axis,
    axis 1 of every leaf. *)
Definition microbatch (batch : pytree (tensor Z)) (i : nat)
  : pytree (tensor Z) :=
  tree_map (fun x => select_in_dim x i 1 0) batch.

End AccumulatorSpec.
Import AccumulatorSpec.

(* ===================================================================== *)
(** * src/partitioning/xmap_train_functions.py                            *)
(* ===================================================================== *)

Module XmapTrain.

Record metrics (T : Type) : Type := mkMetrics {
  train_lm_loss : T;
  train_lm_ppl : T
}.

Section Train.
(** Array values, with the operations of [jnp] that the step uses. *)
Variable T : Type.
Variable jnp_add : T -> T -> T.
Variable jnp_zeros_like : T -> T.
Variable div_int : T -> Z -> T.          (* x / accum_steps *)
Variable jnp_exp : T -> T.
Variable zero : T.                       (* the Python float 0.0 *)
Variable pmean : T -> T.                 (* jax.lax.pmean over "batch" *)

(** [jax.value_and_grad(loss_fn)], with the model and the dropout key in
    its closure. *)
Variable grad_fn : pytree T -> pytree (tensor Z) -> T * pytree T.

Definition get_minibatch (batch : pytree (tensor Z)) (grad_idx : Z)
  : option (pytree (tensor Z)) :=
  tree_map_opt (fun x => dynamic_index_in_dim x grad_idx 1) batch.

Definition loss_and_grad (params : pytree T) (batch : pytree (tensor Z))
           (grad_idx : Z) : option (T * pytree T) :=
  match get_minibatch batch grad_idx with
  | Some minibatch => Some (grad_fn params minibatch)
  | None => None
  end.

Definition cumul_minibatch_step (params : pytree T)
           (batch : pytree (tensor Z)) (grad_idx : Z)
           (cumul_loss_grad : T * pytree T) : option (T * pytree T) :=
  let '(cumul_loss, cumul_grads) := cumul_loss_grad in
  match loss_and_grad params batch grad_idx with
  | Some (loss, grads) =>
      match tree_map2 jnp_add cumul_grads grads with
      | Some cumul_grads' => Some (jnp_add cumul_loss loss, cumul_grads')
      | None => None
      end
  | None => None
  end.

(** The accumulation of [train_step]: the loop and the division. *)
Definition accumulate (params : pytree T) (batch : pytree (tensor Z))
           (accum_steps : Z) : option (T * pytree T) :=
  let init_minibatch := (zero, tree_map jnp_zeros_like params) in
  match fori_loop 0 accum_steps (cumul_minibatch_step params batch)
                  init_minibatch with
  | Some (loss, grads) =>
      Some (div_int loss accum_steps,
            tree_map (fun x => div_int x accum_steps) grads)
  | None => None
  end.

Definition train_step (params : pytree T) (batch : pytree (tensor Z))
           (accum_steps : Z) : option (pytree T * metrics T) :=
  match accumulate params batch accum_steps with
  | Some (loss, grads) =>
      let loss := pmean loss in
      let grads := tree_map pmean grads in
      Some (grads, {| train_lm_loss := loss; train_lm_ppl := jnp_exp loss |})
  | None => None
  end.

(** ** update_opt_state *)

Variable PartitionSpecs : Type.
(** Whether a tree can be laid out as a spec says. *)
Variable conforms : pytree T -> PartitionSpecs -> bool.

(** [with_sharding_constraint x spec]: the value of [x], or an error when
    [x] cannot be laid out as [spec] says. *)
Definition with_sharding_constraint (x : pytree T) (spec : PartitionSpecs)
  : option (pytree T) :=
  if conforms x spec then Some x else None.

(** An optax gradient transformation. *)
Record GradientTransformation (OptState : Type) : Type := {
  init : pytree T -> OptState;
  update : pytree T -> OptState -> pytree T -> pytree T * OptState
}.

(** [optax.apply_updates]. *)
Definition apply_updates (params updates : pytree T) : option (pytree T) :=
  tree_map2 jnp_add params updates.

Definition update_opt_state (OptState : Type)
           (grads : pytree T) (optimizer_state : OptState)
           (params : pytree T) (optimizer : GradientTransformation OptState)
           (grad_spec : PartitionSpecs) : option (pytree T * OptState) :=
  match with_sharding_constraint params grad_spec with
  | None => None
  | Some grads =>
      match with_sharding_constraint grads grad_spec with
      | None => None
      | Some grads =>
          let '(updates, new_opt_state) :=
            update optimizer grads optimizer_state params in
          match apply_updates params updates with
          | Some new_params => Some (new_params, new_opt_state)
          | None => None
          end
      end
  end.

(** The updater as the specification words it: the spec is enforced on
    the parameters and on the supplied gradients, the update rule runs on
    those gradients, and the deltas are added to the parameters. *)
Definition update_opt_state_spec (OptState : Type)
           (grads : pytree T) (optimizer_state : OptState)
           (params : pytree T) (optimizer : GradientTransformation OptState)
           (grad_spec : PartitionSpecs) : option (pytree T * OptState) :=
  match with_sharding_constraint params grad_spec with
  | None => None
  | Some params' =>
      match with_sharding_constraint grads grad_spec with
      | None => None
      | Some grads' =>
          let '(updates, new_opt_state) :=
            update optimizer grads' optimizer_state params' in
          match apply_updates params' updates with
          | Some new_params => Some (new_params, new_opt_state)
          | None => None
          end
      end
  end.

End Train.

End XmapTrain.

(* ===================================================================== *)
(** * benchmark_pjit_dp.py                                                *)
(* ===================================================================== *)

Module BenchmarkPjitDp.

Record metrics (T : Type) : Type := mkMetrics {
  train_lm_loss : T;
  train_lm_ppl : T
}.

Section Train.
Variable T : Type.
Variable jnp_add : T -> T -> T.
Variable jnp_zeros_like : T -> T.
Variable div_int : T -> Z -> T.
Variable jnp_exp : T -> T.
Variable zero : T.

(** The flax [TrainState]: its parameters and its [apply_gradients]. *)
Variable TrainState : Type.
Variable state_params : TrainState -> pytree T.
Variable apply_gradients : TrainState -> pytree T -> TrainState.

Variable grad_fn : pytree T -> pytree (tensor Z) -> T * pytree T.

(** Whether a minibatch can be laid out as [PartitionSpec(None, "dp")]. *)
Variable conforms_dp : pytree (tensor Z) -> bool.

Definition with_sharding_constraint (x : pytree (tensor Z))
  : option (pytree (tensor Z)) :=
  if conforms_dp x then Some x else None.

Definition get_minibatch (batch : pytree (tensor Z)) (grad_idx : Z)
  : option (pytree (tensor Z)) :=
  tree_map_opt (fun x => dynamic_index_in_dim x grad_idx 1) batch.

Definition loss_and_grad (state : TrainState) (batch : pytree (tensor Z))
           (grad_idx : Z) : option (T * pytree T) :=
  match get_minibatch batch grad_idx with
  | Some minibatch =>
      match with_sharding_constraint minibatch with
      | Some minibatch => Some (grad_fn (state_params state) minibatch)
      | None => None
      end
  | None => None
  end.

Definition cumul_minibatch_step (state : TrainState)
           (batch : pytree (tensor Z)) (grad_idx : Z)
           (cumul_loss_grad : T * pytree T) : option (T * pytree T) :=
  let '(cumul_loss, cumul_grads) := cumul_loss_grad in
  match loss_and_grad state batch grad_idx with
  | Some (loss, grads) =>
      match tree_map2 jnp_add cumul_grads grads with
      | Some cumul_grads' => Some (jnp_add cumul_loss loss, cumul_grads')
      | None => None
      end
  | None => None
  end.

(** The accumulation of [train_step]: the loop and the division. *)
Definition accumulate (state : TrainState) (batch : pytree (tensor Z))
           (grad_accum_steps : Z) : option (T * pytree T) :=
  let init_minibatch :=
    (zero, tree_map jnp_zeros_like (state_params state)) in
  match fori_loop 0 grad_accum_steps (cumul_minibatch_step state batch)
                  init_minibatch with
  | Some (loss, grads) =>
      Some (div_int loss grad_accum_steps,
            tree_map (fun x => div_int x grad_accum_steps) grads)
  | None => None
  end.

Definition train_step (state : TrainState) (batch : pytree (tensor Z))
           (grad_accum_steps : Z) : option (TrainState * metrics T) :=
  match accumulate state batch grad_accum_steps with
  | Some (loss, grads) =>
      let new_state := apply_gradients state grads in
      Some (new_state,
            {| train_lm_loss := loss; train_lm_ppl := jnp_exp loss |})
  | None => None
  end.

End Train.

End BenchmarkPjitDp.

(* ===================================================================== *)
(** * Python sequences                                                    *)
(* ===================================================================== *)

Module Py.

(** What a Python call can raise. *)
Inductive exn : Type :=
| IndexError | TypeError | ValueError | RuntimeError.

(** The result of a call: a value, or a raised exception. *)
Inductive res (A : Type) : Type :=
| Ok : A -> res A
| Raise : exn -> res A.

Arguments Raise {A} _.

Definition res_bind {A B : Type} (r : res A) (k : A -> res B) : res B :=
  match r with
  | Ok a => k a
  | Raise e => Raise e
  end.

(** [l[start:]], with Python's treatment of a negative or too large start. *)
Definition slice_from {A : Type} (start : Z) (l : list A) : list A :=
  let n := Z.of_nat (length l) in
  let s := if start <? 0 then Z.max 0 (start + n) else Z.min start n in
  skipn (Z.to_nat s) l.

(** [l[:stop]] for a stop that may be negative or too large. *)
Definition slice_to {A : Type} (stop : Z) (l : list A) : list A :=
  let n := Z.of_nat (length l) in
  let s := if stop <? 0 then Z.max 0 (stop + n) else Z.min stop n in
  firstn (Z.to_nat s) l.

(** The position [l[i]] reads: a negative [i] counts from the end. *)
Definition index {A : Type} (l : list A) (i : Z) : res nat :=
  let n := Z.of_nat (length l) in
  let j := if i <? 0 then i + n else i in
  if (0 <=? j) && (j <? n) then Ok (Z.to_nat j) else Raise IndexError.

Fixpoint update_nth {A : Type} (n : nat) (v : A) (l : list A) : list A :=
  match l, n with
  | [], _ => []
  | _ :: l', O => v :: l'
  | x :: l', S n' => x :: update_nth n' v l'
  end.

(** [x in l] for integers. *)
Definition mem (x : Z) (l : list Z) : bool := existsb (Z.eqb x) l.

End Py.
Import Py.

(* ===================================================================== *)
(** * src/models/layers.py: the key/value cache of CausalAttention        *)
(* ===================================================================== *)

Module Layers.

Section CausalAttention.
(** One position of one head: a vector of [h_dim] numbers. *)
Variable row : Type.

(** A tensor of shape (B, nh, T, h_dim): batch, head, position. *)
Definition heads := list (list (list row)).

(** [jnp.concatenate((a, b), axis=-2)]: the batch and head axes of the
    two operands must agree. *)
Definition concatenate_positions (a b : heads) : option heads :=
  zip_with_exact (zip_with_exact (fun s t => Some (s ++ t))) a b.

(** [x[:, :, -block_size:, :]]. *)
Definition last_positions (block_size : Z) (x : heads) : heads :=
  map (map (slice_from (- block_size))) x.

(** Lines 144-156 of [CausalAttention.__call__]: from the projected keys
    and values of the current input, the keys and values attended to and
    the cache handed back ([present], the stack of the two, a pair
    here). *)
Definition attention_cache (block_size : Z) (use_cache : bool)
           (layer_past : option (heads * heads)) (key value : heads)
  : option (heads * heads * option (heads * heads)) :=
  if use_cache then
    match layer_past with
    | Some (past_keys, past_values) =>
        match concatenate_positions past_keys key,
              concatenate_positions past_values value with
        | Some k, Some v =>
            let key := last_positions block_size k in
            let value := last_positions block_size v in
            Some (key, value, Some (key, value))
        | _, _ => None
        end
    | None => Some (key, value, Some (key, value))
    end
  else Some (key, value, None).

(** The cache over successive calls with [use_cache=True], each call
    receiving the cache the previous one handed back, as the decoding
    loop does. [inputs] are the projected keys and values of the calls. *)
Fixpoint decode_steps (block_size : Z) (layer_past : option (heads * heads))
         (inputs : list (heads * heads)) : option (option (heads * heads)) :=
  match inputs with
  | [] => Some layer_past
  | (key, value) :: rest =>
      match attention_cache block_size true layer_past key value with
      | Some (_, present) => decode_steps block_size present rest
      | None => None
      end
  end.

(** Every (batch, head) sequence of the tensor has at most [n]
    positions. *)
Definition positions_le (n : Z) (x : heads) : Prop :=
  Forall (Forall (fun s => Z.of_nat (length s) <= n)) x.

End CausalAttention.

End Layers.

(* ===================================================================== *)
(** * torch_compatability/generation.py                                   *)
(* ===================================================================== *)

Module Generation.

(** A logit after filtering: a number, or minus infinity. Logits and
    probabilities are modelled by rationals, and [exp] and [log] are
    parameters. A division by zero gives zero on the rationals, where torch
    gives an infinity or a nan: nothing below depends on the value of a
    division by zero. *)
Inductive logit : Type :=
| NegInf : logit
| Fin : Q -> logit.

Definition Qltb (x y : Q) : bool := negb (Qle_bool y x).

Definition Qsum (l : list Q) : Q := fold_right Qplus 0%Q l.

Fixpoint cumsum_from (acc : Q) (l : list Q) : list Q :=
  match l with
  | [] => []
  | x :: l' => let s := (acc + x)%Q in s :: cumsum_from s l'
  end.

(** [torch.cumsum]. *)
Definition cumsum (l : list Q) : list Q := cumsum_from 0%Q l.

(** ** torch.sort *)

Fixpoint insert_by {A : Type} (leb : A -> A -> bool) (x : A) (l : list A)
  : list A :=
  match l with
  | [] => [x]
  | y :: l' => if leb x y then x :: l else y :: insert_by leb x l'
  end.

Definition sort_by {A : Type} (leb : A -> A -> bool) (l : list A) : list A :=
  fold_right (insert_by leb) [] l.

Definition enumerate {A : Type} (l : list A) : list (A * nat) :=
  combine l (seq 0 (length l)).

Definition desc_leb (a b : Q * nat) : bool := Qle_bool (fst b) (fst a).
Definition asc_leb (a b : Q * nat) : bool := Qle_bool (fst a) (fst b).

(** [torch.sort l descending]: the sorted values and their positions in
    [l]. Equal values keep their order (torch leaves it open). *)
Definition torch_sort (descending : bool) (l : list Q) : list Q * list nat :=
  List.split (sort_by (if descending then desc_leb else asc_leb) (enumerate l)).

(** [idx[mask]]: the entries of [idx] where [mask] holds. *)
Definition select_mask {A : Type} (idx : list A) (mask : list bool) : list A :=
  map fst (filter snd (combine idx mask)).

(** [logits[:, idx] = filter_value]. *)
Definition fill_indices (idx : list nat) (filter_value : logit)
           (logits : list Q) : list logit :=
  map (fun xi : Q * nat => if existsb (Nat.eqb (snd xi)) idx
                            then filter_value else Fin (fst xi))
      (enumerate logits).

(** [self.scatter(1, idx, src)]: [self[idx[j]] = src[j]] for every [j]. *)
Definition scatter {A : Type} (self : list A) (idx : list nat) (src : list A)
  : list A :=
  fold_left (fun (acc : list A) (js : nat * A) =>
               update_nth (fst js) (snd js) acc)
            (combine idx src) self.

(** [logits.masked_fill(mask, filter_value)]. *)
Definition masked_fill (logits : list Q) (mask : list bool)
           (filter_value : logit) : list logit :=
  map (fun xb : Q * bool => if snd xb then filter_value else Fin (fst xb))
      (combine logits mask).

(** The first position of the largest entry: [torch.topk(probs, 1)]. *)
Fixpoint argmax_from (best : Q) (besti : nat) (i : nat) (l : list Q) : nat :=
  match l with
  | [] => besti
  | x :: l' =>
      if Qltb best x then argmax_from x i (S i) l'
      else argmax_from best besti (S i) l'
  end.

Definition argmax (l : list Q) : res nat :=
  match l with
  | [] => Raise RuntimeError
  | x :: l' => Ok (argmax_from x 0%nat 1%nat l')
  end.



Section Filters.
Variable fexp : Q -> Q.
Variable fln : Q -> Q.

Definition lexp (l : logit) : Q :=
  match l with
  | NegInf => 0%Q
  | Fin q => fexp q
  end.

(** [F.softmax]. *)
Definition softmax (l : list logit) : list Q :=
  let z := Qsum (map lexp l) in
  map (fun x => (lexp x / z)%Q) l.

(** [torch.nn.functional.log_softmax]. *)
Definition log_softmax (l : list Q) : list Q :=
  let lse := fln (Qsum (map fexp l)) in
  map (fun x => (x - lse)%Q) l.

Definition top_k_logits (logits : list Q) (k : Z) : res (list logit) :=
  if (k <? 0) || (Z.of_nat (length logits) <? k) then Raise RuntimeError
  else
    let v := firstn (Z.to_nat k) (fst (torch_sort true logits)) in
    res_bind (index v (-1)) (fun j =>
      let kth := nth j v 0%Q in
      Ok (map (fun x => if Qltb x kth then NegInf else Fin x) logits)).

Definition top_p_logits (logits : list Q) (top_p : Q) (filter_value : logit)
  : res (list logit) :=
  if Qltb 0 top_p then
    let '(sorted_logits, sorted_indices) := torch_sort true logits in
    let cumulative_probs := cumsum (softmax (map Fin sorted_logits)) in
    (* Remove tokens with cumulative probability above the threshold *)
    let sorted_indices_to_remove :=
      map (fun c => Qltb top_p c) cumulative_probs in
    (* Shift the indices to the right, and keep the first token *)
    match sorted_indices_to_remove with
    | [] => Raise IndexError
    | _ :: _ =>
        let sorted_indices_to_remove :=
          false :: removelast sorted_indices_to_remove in
        let indices_to_remove :=
          select_mask sorted_indices sorted_indices_to_remove in
        Ok (fill_indices indices_to_remove filter_value logits)
    end
  else Ok (map Fin logits).

Definition typical_sampling_logits (logits : list Q) (mass : Q)
           (min_tokens_to_keep : Z) (filter_value : logit)
  : res (list logit) :=
  (* Entropy calculation *)
  let normalized := log_softmax logits in
  let p := map fexp normalized in
  let ent := (- Qsum (map (fun np : Q * Q => fst np * snd np)
                          (combine normalized p)))%Q in
  let running_ent := ent in
  let shifted_scores :=
    map (fun n => Qabs (- n - running_ent)) normalized in
  let '(sorted_scores, sorted_indices) :=
    torch_sort false shifted_scores in
  let sorted_logits := map (fun i => nth i logits 0%Q) sorted_indices in
  let cumulative_probs := cumsum (softmax (map Fin sorted_logits)) in
  let last_ind :=
    Z.of_nat (length (filter (fun c => Qltb c mass) cumulative_probs)) in
  let last_ind := if last_ind <? 0 then 0 else last_ind in
  (* gather raises on an index that is not a position of the tensor *)
  if (0 <=? last_ind) && (last_ind <? Z.of_nat (length sorted_scores)) then
    let threshold := nth (Z.to_nat last_ind) sorted_scores 0%Q in
    let sorted_indices_to_remove :=
      map (fun s => Qltb threshold s) sorted_scores in
    let sorted_indices_to_remove :=
      if 1 <? min_tokens_to_keep then
        map (fun _ => false) (slice_to min_tokens_to_keep
                                       sorted_indices_to_remove)
        ++ slice_from min_tokens_to_keep sorted_indices_to_remove
      else sorted_indices_to_remove in
    let indices_to_remove :=
      scatter sorted_indices_to_remove sorted_indices
              sorted_indices_to_remove in
    Ok (masked_fill logits indices_to_remove filter_value)
  else Raise RuntimeError.

End Filters.

(** ** class TextGenerator *)

Record Tokenizer : Type := {
  encode : string -> list Z;
  decode : list Z -> string;
  eos_token_id : Z
}.

Record TextGenerator : Type := {
  tokenizer : Tokenizer;
  vocab_size : Z;
  seq_len : Z;
  pad_token : Z
}.

(** [TextGenerator.__init__]. *)
Definition TextGenerator_init (seq_len : Z) (tokenizer : Tokenizer)
  : TextGenerator :=
  {| tokenizer := tokenizer;
     vocab_size := 50432;
     seq_len := seq_len;
     pad_token := eos_token_id tokenizer |}.

(** What [generate_tokens] returns: two values on one path, three on the
    others. *)
Inductive tokens_result : Type :=
| Pair : list Z -> Z -> tokens_result
| Triple : list Z -> Z -> list Q -> tokens_result.

Definition method_is (sampling_method : option string) (name : string)
  : bool :=
  match sampling_method with
  | Some m => String.eqb m name
  | None => false
  end.

Section Decoding.
Variable fexp : Q -> Q.
Variable fln : Q -> Q.

(** The cache a model hands back ([layer_past]). *)
Variable Cache : Type.
(** The state of the random source behind [torch.multinomial]. *)
Variable Rng : Type.
Variable multinomial : list Q -> Rng -> res nat * Rng.

Variable text_standardize : string -> string.
Variable str_strip : string -> string.

(** [model(x_cond, use_cache=True, past_states=layer_past)]: the logits
    of every position of the input, and the new cache. *)
Definition Model : Type :=
  list Z -> option Cache -> res (list (list Q) * Cache).

(** What a run has done so far: the forward calls made, oldest first,
    and the state of the random source. *)
Record world : Type := mkWorld {
  calls : list (list Z * option Cache);
  rng : Rng
}.

Definition M (A : Type) : Type := world -> res A * world.

Definition ret {A : Type} (a : A) : M A := fun w => (Ok a, w).

Definition bind {A B : Type} (m : M A) (k : A -> M B) : M B :=
  fun w =>
    match m w with
    | (Ok a, w') => k a w'
    | (Raise e, w') => (Raise e, w')
    end.

Definition lift {A : Type} (r : res A) : M A := fun w => (r, w).

Definition call_model (model : Model) (x_cond : list Z)
           (layer_past : option Cache) : M (list (list Q) * Cache) :=
  fun w =>
    (model x_cond layer_past,
     {| calls := calls w ++ [(x_cond, layer_past)]; rng := rng w |}).

Definition sample (probs : list Q) : M nat :=
  fun w =>
    let '(r, g) := multinomial probs (rng w) in
    (r, {| calls := calls w; rng := g |}).

Notation "x <- m ;; k" := (bind m (fun x => k))
  (at level 61, m at next level, right associativity).

(** The repetition penalty, lines 221-225. *)
Fixpoint apply_repetition_penalty (repetition_penalty : Q)
         (generated_tokens : list Z) (logits : list Q) : res (list Q) :=
  match generated_tokens with
  | [] => Ok logits
  | prev_gen_token :: rest =>
      res_bind (index logits prev_gen_token) (fun j =>
        let v := nth j logits 0%Q in
        let v' := if Qltb v 0 then (v * repetition_penalty)%Q
                  else (v / repetition_penalty)%Q in
        apply_repetition_penalty repetition_penalty rest
                                 (update_nth j v' logits))
  end.

(** The variables of the loop of [generate_tokens]. *)
Record loop_state : Type := mkLoop {
  x : list Z;
  x_cond : list Z;
  layer_past : option Cache;
  generated_tokens : list Z;
  logprobs : list Q
}.

Inductive step_result : Type :=
| Continue : loop_state -> step_result
| Return : tokens_result -> step_result.

Section Loop.
Variable self : TextGenerator.
Variable model : Model.
Variable steps : Z.
Variable temperature : Q.
Variable top_k : option Z.
Variable top_p : option Q.
Variable tau : option Q.
Variable repetition_penalty : Q.
Variable sampling_method : option string.

(** The filtering of lines 227-234. A [None] threshold reaches a
    comparison or [torch.topk] and raises there. *)
Definition filter_logits (logits : list Q) : res (list logit) :=
  if method_is sampling_method "nucleus" then
    match top_p with
    | Some p => top_p_logits fexp logits p NegInf
    | None => Raise TypeError
    end
  else if method_is sampling_method "typical" then
    match tau with
    | Some mass => typical_sampling_logits fexp fln logits mass 1 NegInf
    | None => Raise TypeError
    end
  else if method_is sampling_method "topk" then
    match top_k with
    | Some k => top_k_logits logits k
    | None => Raise TypeError
    end
  else Ok (map Fin logits).

(** One iteration of the loop, lines 208-253. *)
Definition loop_body (step : Z) (st : loop_state) : M step_result :=
  out <- call_model model (x_cond st) (layer_past st) ;;
  let '(logits, layer_past) := out in
  j <- lift (index logits (-1)) ;;
  let logits :=
    map (fun l => (l / temperature)%Q) (nth j logits []) in
  logits <- lift (apply_repetition_penalty repetition_penalty
                    (generated_tokens st) logits) ;;
  logits <- lift (filter_logits logits) ;;
  let probs := softmax fexp logits in
  if method_is sampling_method "greedy" then
    t <- lift (argmax probs) ;;
    let x_cond := Z.of_nat t in
    let x := x st ++ [x_cond] in
    if x_cond =? pad_token self then ret (Return (Pair x step))
    else ret (Continue {| x := x; x_cond := [x_cond];
                          layer_past := Some layer_past;
                          generated_tokens := generated_tokens st;
                          logprobs := logprobs st |})
  else
    t <- sample probs ;;
    let x_cond := Z.of_nat t in
    p <- lift (match nth_error probs t with
               | Some p => Ok p
               | None => Raise IndexError
               end) ;;
    let logprobs := logprobs st ++ [fln p] in
    (* If we hit end of text, return as-is *)
    if x_cond =? pad_token self then
      ret (Return (Triple (x st) step logprobs))
    else
      let x := x st ++ [x_cond] in
      let generated_tokens :=
        if negb (mem x_cond (generated_tokens st))
        then generated_tokens st ++ [x_cond]
        else generated_tokens st in
      ret (Continue {| x := x; x_cond := [x_cond];
                       layer_past := Some layer_past;
                       generated_tokens := generated_tokens;
                       logprobs := logprobs |}).

(** [for step in range(steps)] from iteration [step] on, with
    [remaining] iterations left, and the return after the loop. *)
Fixpoint loop (remaining : nat) (step : Z) (st : loop_state)
  : M tokens_result :=
  match remaining with
  | O => ret (Triple (x st) steps (logprobs st))
  | S n =>
      r <- loop_body step st ;;
      match r with
      | Return result => ret result
      | Continue st' => loop n (step + 1) st'
      end
  end.

(** The state the loop starts from, lines 188-205. *)
Definition initial_state (prompt : string) : loop_state :=
  let tokens := encode (tokenizer self) (str_strip prompt) in
  let x := tokens in
  let x_cond :=
    if seq_len self <? Z.of_nat (length x)
    then slice_from (- seq_len self) x else x in
  {| x := x; x_cond := x_cond; layer_past := None;
     generated_tokens := []; logprobs := [] |}.

Definition generate_tokens (prompt : string) : M tokens_result :=
  loop (Z.to_nat steps) 0 (initial_state prompt).

End Loop.

Definition token_to_text (self : TextGenerator) (input : string)
           (tok : list Z) (step : Z) : string * string :=
  let new_words := slice_from (- step) tok in
  let generated_text := decode (tokenizer self) new_words in
  ((input ++ generated_text)%string, generated_text).

Definition generate_text_from_prompt (self : TextGenerator) (model : Model)
           (prompt : string) (steps : Z) (temperature : Q)
           (top_k : option Z) (top_p : option Q) (tau : option Q)
           (repetition_penalty : Q) (sampling_method : option string)
  : M (string * string * list Q) :=
  r <- generate_tokens self model steps temperature top_k top_p tau
         repetition_penalty sampling_method (text_standardize prompt) ;;
  match r with
  | Triple output step logprobs =>
      let '(full_gen, new_gen) := token_to_text self prompt output step in
      ret (full_gen, new_gen, logprobs)
  | Pair _ _ => lift (Raise ValueError)   (* two values to unpack, not three *)
  end.

End Decoding.

End Generation.

(* ===================================================================== *)
(** * The keys a cache is specified to hold                               *)
(* ===================================================================== *)

Module CacheSpec.

(** All the positions seen: the tensors of the successive calls
    concatenated along the position axis, oldest first. *)
Fixpoint all_positions {row : Type} (seen : Layers.heads row)
         (inputs : list (Layers.heads row)) : option (Layers.heads row) :=
  match inputs with
  | [] => Some seen
  | x :: rest =>
      match Layers.concatenate_positions seen x with
      | Some seen' => all_positions seen' rest
      | None => None
      end
  end.

End CacheSpec.

(* ===================================================================== *)
(** * The forward calls incremental decoding is specified to make         *)
(* ===================================================================== *)

Module DecodingSpec.

(** Decoding with a cache: a first call on [x_cond] with [layer_past],
    then one call for each token of [fed], on that token alone and with the
    cache the call before returned. The list stops at a call that
    raises. *)
Fixpoint incremental {Cache : Type} (model : Generation.Model Cache)
         (x_cond : list Z) (layer_past : option Cache) (fed : list Z)
  : list (list Z * option Cache) :=
  (x_cond, layer_past) ::
  match fed with
  | [] => []
  | t :: rest =>
      match model x_cond layer_past with
      | Ok (_, c) => incremental model [t] (Some c) rest
      | Raise _ => []
      end
  end.

Section Sampling.
Variable fexp : Q -> Q.
Variable fln : Q -> Q.
Variable Cache : Type.
Variable Rng : Type.
Variable multinomial : list Q -> Rng -> res nat * Rng.
Variable model : Generation.Model Cache.
Variable pad_token : Z.
Variable temperature : Q.
Variable top_k : option Z.
Variable top_p : option Q.
Variable tau : option Q.
Variable repetition_penalty : Q.
Variable sampling_method : option string.

(** The distribution the next token is drawn from: the logits of the
    last position over the temperature, penalised for the tokens of the
    history, filtered as the method says, and normalised. *)
Definition distribution (logits : list (list Q)) (history : list Z)
  : res (list Q) :=
  res_bind (index logits (-1)) (fun j =>
  res_bind (Generation.apply_repetition_penalty
              repetition_penalty history
              (map (fun l => (l / temperature)%Q) (nth j logits [])))
           (fun penalised =>
  res_bind (Generation.filter_logits fexp fln top_k top_p tau
                                     sampling_method penalised)
           (fun filtered =>
  Ok (Generation.softmax fexp filtered)))).

(** Sampling at most [n] tokens. Each token is drawn, from the state the
    random source is in, from the distribution of the logits the model
    returns: on [x_cond] with [layer_past] for the first, on the token
    drawn before and the cache returned before for the others. The
    history is of the distinct tokens drawn, in the order of their first
    draw. A draw of the end-of-sequence token ends the sampling. The
    result is the tokens drawn before the end, whether the
    end-of-sequence token was drawn, the log-probability of every draw,
    and the random source after the last draw; there is none where the
    model, the distribution or a draw raises. *)
Fixpoint sample_tokens (n : nat) (x_cond : list Z)
         (layer_past : option Cache) (history : list Z) (g : Rng)
  : option (list Z * bool * list Q * Rng) :=
  match n with
  | O => Some ([], false, [], g)
  | S n' =>
      match model x_cond layer_past with
      | Raise _ => None
      | Ok (logits, cache) =>
          match distribution logits history with
          | Raise _ => None
          | Ok probs =>
              match multinomial probs g with
              | (Raise _, _) => None
              | (Ok drawn, g') =>
                  match nth_error probs drawn with
                  | None => None
                  | Some p =>
                      let t := Z.of_nat drawn in
                      if t =? pad_token then Some ([], true, [fln p], g')
                      else
                        let history' :=
                          if mem t history then history
                          else history ++ [t] in
                        match sample_tokens n' [t] (Some cache)
                                            history' g' with
                        | Some (ts, eos, lps, g'') =>
                            Some (t :: ts, eos, fln p :: lps, g'')
                        | None => None
                        end
                  end
              end
          end
      end
  end.

End Sampling.

End DecodingSpec.

(* ===================================================================== *)
(** * benchmark_pjit_dp.py: the layout of an accumulation batch           *)
(* ===================================================================== *)

Module BatchLayout.

(** [x.reshape(new_shape)]: the same elements under another shape; a shape
    of another size raises. *)
Definition reshape {A : Type} (x : tensor A) (new_shape : list nat)
  : option (tensor A) :=
  if (numel new_shape =? numel (shape x))%nat
  then Some {| shape := new_shape; data := data x |}
  else None.

(** [x.transpose(1, 0, 2)] of an array of three axes: the element at
    (j, i, r) of the result is the element at (i, j, r) of [x]. An array of
    another rank raises. *)
Definition transpose_102 {A : Type} (x : tensor A) : option (tensor A) :=
  match shape x with
  | [a; b; c] =>
      Some {| shape := [b; a; c];
              data := flat_map
                        (fun j =>
                           flat_map
                             (fun i => slice ((i * b + j) * c) c (data x))
                             (seq 0 a))
                        (seq 0 b) |}
  | _ => None
  end.

(** Lines 170-175 and 192-199: the global batch [x] of shape
    (BATCH_SIZE, CTX_LEN) reshaped to
    (GRAD_ACCUM_STEPS, BATCH_SIZE // GRAD_ACCUM_STEPS, CTX_LEN) and
    transposed to put the accumulation axis second. An array without axes
    has no [shape[0]], zero steps divide by zero and a negative number of
    steps is no dimension: all raise. *)
Definition make_batch {A : Type} (GRAD_ACCUM_STEPS : Z) (x : tensor A)
  : option (tensor A) :=
  match shape x with
  | [] => None
  | b :: rest =>
      if GRAD_ACCUM_STEPS <=? 0 then None
      else
        let ga := Z.to_nat GRAD_ACCUM_STEPS in
        match reshape x (ga :: (b / ga)%nat :: rest) with
        | Some y => transpose_102 y
        | None => None
        end
  end.

End BatchLayout.

(* ===================================================================== *)
(** * src/models/layers.py: the ALiBi slopes and mask                     *)
(* ===================================================================== *)

Module Alibi.

(** [l[0::2]]. *)
Fixpoint every_other {A : Type} (l : list A) : list A :=
  match l with
  | [] => []
  | a :: l' =>
      a :: match l' with
           | [] => []
           | _ :: l'' => every_other l''
           end
  end.

(** [math.log2(n).is_integer()] for a positive integer (exact while the
    logarithm is, which it is for a number of heads). *)
Definition is_power_of_2 (n : Z) : bool := 2 ^ Z.log2 n =? n.

Section Slopes.
(** Floats, with the operations the slopes use. *)
Variable F : Type.
Variable pow2 : Q -> F.             (* 2 ** x *)
Variable fmul : F -> F -> F.
Variable fpow : F -> nat -> F.      (* ratio ** i *)

(** [get_slopes_power_of_2], called on powers of two only, where
  [math.log2 n] is the integer [Z.log2 n]. *)
Definition get_slopes_power_of_2 (n : Z) : list F :=
let start := pow2 (- (Qpower 2 (- (Z.log2 n - 3)))) in
let ratio := start in
map (fun i => fmul start (fpow ratio i)) (seq 0 (Z.to_nat n)).

(** [get_slopes], with [fuel] calls of itself allowed. [math.log2] raises
  on an integer that is not positive. *)
Fixpoint get_slopes_rec (fuel : nat) (n : Z) : option (list F) :=
match fuel with
| O => None
| S fuel' =>
    if n <=? 0 then None
    else if is_power_of_2 n then Some (get_slopes_power_of_2 n)
    else
      let closest_power_of_2 := 2 ^ Z.log2 n in
      match get_slopes_rec fuel' (2 * closest_power_of_2) with
      | Some more =>
          Some (get_slopes_power_of_2 closest_power_of_2
                ++ slice_to (n - closest_power_of_2) (every_other more))
      | None => None
      end
end.

(** Two levels of calls are all [get_slopes] ever makes. *)
Definition get_slopes (n : Z) : option (list F) := get_slopes_rec 2 n.

(** An integer times a float. *)
Variable scale : F -> Z -> F.

(** [jnp.arange(n)]. *)
Definition arange (n : nat) : list Z := map Z.of_nat (seq 0 n).

(** [jnp.tril]: the entries above the diagonal are zero. *)
Definition tril (m : list (list Z)) : list (list Z) :=
map (fun ir : nat * list Z =>
       map (fun jv : nat * Z =>
              if (fst jv <=? fst ir)%nat then snd jv else 0)
           (combine (seq 0 (length (snd ir))) (snd ir)))
    (combine (seq 0 (length m)) m).

(** Lines 177-182: minus the lower triangle of the matrix of the
  differences of a query position and a key position. *)
Definition alibi_distances (seq_len_k : nat) : list (list Z) :=
let tiled := map (fun i => repeat i seq_len_k) (arange seq_len_k) in
let offsets := map Z.opp (arange seq_len_k) in   (* arange(0, -k, -1) *)
let sums :=
  map (fun row => map (fun vo : Z * Z => fst vo + snd vo)
                      (combine row offsets)) tiled in
map (map Z.opp) (tril sums).

(** Lines 184-186: the distances times the slope of every head, and of
  these the row of the last query position. No key position, no last
  row: the read raises. *)
Definition alibi_mask (slopes : list F) (seq_len_k : nat)
: option (list (list F)) :=
let a := map (fun s => map (map (scale s)) (alibi_distances seq_len_k))
             slopes in
if (seq_len_k =? 0)%nat then None
else Some (map (fun m => nth (seq_len_k - 1) m []) a).

End Slopes.

End Alibi.

(* ===================================================================== *)
(** * Concrete inputs                                                     *)
(* ===================================================================== *)

Module Examples.
(** A batch of one example with two microbatches of two tokens:
    shape (1, 2, 2). *)
Definition batch0 : pytree (tensor Z) :=
  Leaf {| shape := [1; 2; 2]%nat; data := [11; 12; 21; 22] |}.

Definition params0 : pytree Q := Node [Leaf (1#1)%Q; Node [Leaf (2#1)%Q]].

Definition q_zeros_like (_ : Q) : Q := 0%Q.
Definition q_div_int (x : Q) (n : Z) : Q := (x / inject_Z n)%Q.

(** A loss and gradient: the loss is the sum of the tokens of the
    minibatch, the gradient of a parameter is the parameter times the
    loss. *)
Definition grad_fn0 (params : pytree Q) (minibatch : pytree (tensor Z))
  : Q * pytree Q :=
  let loss :=
    inject_Z (fold_right Z.add 0 (flat_map (@data Z) (tree_leaves minibatch))) in
  (loss, tree_map (fun p => (p * loss)%Q) params).

(** Plain gradient descent with rate one. *)
Definition sgd : XmapTrain.GradientTransformation Q unit :=
  {| XmapTrain.init := fun _ => tt;
     XmapTrain.update := fun grads state _ =>
                           (tree_map Qopp grads, state) |}.

(** ** Decoding *)

(** The exponential and the logarithm in base two, on the integers below
    the argument and on the powers of two. *)
Definition exp2 (q : Q) : Q := Qpower 2 (Qfloor q).
Definition log2 (q : Q) : Q :=
  inject_Z (Z.log2 (Qnum q) - Z.log2 (Zpos (Qden q))).

(** A tokenizer of four tokens: 0 ends the text, 1 is "a", 2 is "b" and 3
    stands for every other character. *)
Definition encode_char (c : ascii) : Z :=
  if Ascii.eqb c "a" then 1 else if Ascii.eqb c "b" then 2 else 3.

Definition decode_token (t : Z) : string :=
  if t =? 0 then "$"%string
  else if t =? 1 then "a"%string
  else if t =? 2 then "b"%string else "c"%string.

Definition tokenizer0 : Generation.Tokenizer :=
  {| Generation.encode := fun s => map encode_char (list_ascii_of_string s);
     Generation.decode :=
       fun l => fold_right (fun t s => (decode_token t ++ s)%string)
                           EmptyString l;
     Generation.eos_token_id := 0 |}.

Definition generator0 : Generation.TextGenerator :=
  Generation.TextGenerator_init 8 tokenizer0.

Definition onehot (size t : nat) : list Q :=
  map (fun i => if (i =? t)%nat then 1%Q else 0%Q) (seq 0 size).

(** The token the stub model favours once it has read [n] tokens. *)
Definition script (n : nat) : nat :=
  match n with
  | 1%nat => 0%nat
  | 2%nat => 2%nat
  | 3%nat => 0%nat
  | _ => 1%nat
  end.

(** A deterministic model: its cache is the number of tokens read. *)
Definition model0 : Generation.Model nat :=
  fun x_cond past =>
    let n := (match past with Some c => c | None => O end
              + length x_cond)%nat in
    Ok (map (fun _ => onehot 4 (script n)) x_cond, n).

(** A random source that always draws the most probable token. *)
Definition multinomial0 (probs : list Q) (g : unit) : res nat * unit :=
  (Generation.argmax probs, g).

Definition world0 : Generation.world nat unit :=
  {| Generation.calls := []; Generation.rng := tt |}.


(** ** Slopes *)

(** Floats that are powers of two, written by their exponents: [2 ** x] is
    [x], a product adds and a power multiplies. *)
Definition e_pow2 (x : Q) : Q := x.
Definition e_mul (x y : Q) : Q := (x + y)%Q.
Definition e_pow (x : Q) (i : nat) : Q := (x * inject_Z (Z.of_nat i))%Q.

(** A global batch of four examples of two tokens. *)
Definition global_batch0 : tensor Z :=
  {| shape := [4; 2]%nat; data := [11; 12; 21; 22; 31; 32; 41; 42] |}.

End Examples.

(* ===================================================================== *)
(** * Facts about pytrees                                                 *)
(* ===================================================================== *)

Module PyTreeFacts.

Lemma treedef_tree_map {A B : Type} (f : A -> B) (t : pytree A) :
  treedef (tree_map f t) = treedef t.
Proof.
  induction t as [x | ts IH] using pytree_ind'; [reflexivity |].
  unfold treedef in *. simpl. f_equal.
  induction IH as [| t ts Ht _ IHts]; simpl; [reflexivity |].
  now rewrite Ht, IHts.
Qed.

Lemma leaf_at_tree_map {A B : Type} (f : A -> B) (t : pytree A) :
  forall p, leaf_at p (tree_map f t) = option_map f (leaf_at p t).
Proof.
  induction t as [x | ts IH] using pytree_ind'; intros p.
  - destruct p; reflexivity.
  - destruct p as [| i p]; [reflexivity |]. simpl.
    revert i. induction IH as [| t ts Ht _ IHts]; intros i.
    + destruct i; reflexivity.
    + destruct i as [| i]; simpl; [apply Ht | apply IHts].
Qed.

Lemma zip_with_exact_cons {A B C : Type} (f : A -> B -> option C) a l b r cs :
  zip_with_exact f (a :: l) (b :: r) = Some cs ->
  exists c cs', cs = c :: cs' /\ f a b = Some c /\
                zip_with_exact f l r = Some cs'.
Proof.
  simpl. destruct (f a b) as [c |]; [| discriminate].
  destruct (zip_with_exact f l r) as [cs' |]; [| discriminate].
  intros H. injection H as <-. now exists c, cs'.
Qed.

(** A successful joint walk gives a tree of the structure of both. *)
Lemma tree_map2_treedef {A B C : Type} (f : A -> B -> C) (a : pytree A) :
  forall (b : pytree B) (c : pytree C),
    tree_map2 f a b = Some c -> treedef c = treedef a /\ treedef b = treedef a.
Proof.
  induction a as [x | xs IH] using pytree_ind'; intros b c H.
  - destruct b as [y | ys]; [| discriminate]. simpl in H.
    injection H as <-. split; reflexivity.
  - destruct b as [y | ys]; [discriminate |]. simpl in H.
    destruct (zip_with_exact (tree_map2 f) xs ys) as [zs |] eqn:E;
      [| discriminate].
    injection H as <-. unfold treedef. simpl.
    enough (map (tree_map (fun _ => tt)) zs = map (tree_map (fun _ => tt)) xs
            /\ map (tree_map (fun _ => tt)) ys
               = map (tree_map (fun _ => tt)) xs) as [-> ->] by (split; reflexivity).
    revert ys zs E. induction IH as [| x xs Hx _ IHxs]; intros ys zs E.
    + destruct ys; [| discriminate]. injection E as <-. split; reflexivity.
    + destruct ys as [| y ys]; [discriminate |].
      apply zip_with_exact_cons in E. destruct E as (z & zs' & -> & Hz & E).
      destruct (Hx _ _ Hz) as [H1 H2]. destruct (IHxs _ _ E) as [H3 H4].
      unfold treedef in H1, H2. simpl. rewrite H1, H2, H3, H4.
      split; reflexivity.
Qed.

(** Trees of one structure can be walked together. *)
Lemma tree_map2_some {A B C : Type} (f : A -> B -> C) (a : pytree A) :
  forall b : pytree B,
    treedef b = treedef a -> exists c, tree_map2 f a b = Some c.
Proof.
  induction a as [x | xs IH] using pytree_ind'; intros b H.
  - destruct b as [y | ys]; [| discriminate]. eexists. reflexivity.
  - destruct b as [y | ys]; [discriminate |]. unfold treedef in H.
    simpl in H. injection H as H. simpl.
    enough (exists zs, zip_with_exact (tree_map2 f) xs ys = Some zs)
      as [zs ->] by (eexists; reflexivity).
    revert ys H. induction IH as [| x xs Hx _ IHxs]; intros ys H.
    + destruct ys; [| discriminate]. eexists. reflexivity.
    + destruct ys as [| y ys]; [discriminate |]. simpl in H.
      injection H as Hy Hys.
      destruct (Hx y Hy) as [z Hz]. destruct (IHxs ys Hys) as [zs Hzs].
      exists (z :: zs). simpl. now rewrite Hz, Hzs.
Qed.

(** The leaves of a joint walk are the images of the paired leaves. *)
Lemma leaf_at_tree_map2 {A B C : Type} (f : A -> B -> C) (a : pytree A) :
  forall (b : pytree B) (c : pytree C),
    tree_map2 f a b = Some c ->
    forall p x, leaf_at p a = Some x ->
                exists y, leaf_at p b = Some y /\ leaf_at p c = Some (f x y).
Proof.
  induction a as [x | xs IH] using pytree_ind'; intros b c H p v Hp.
  - destruct b as [y | ys]; [| discriminate]. simpl in H. injection H as <-.
    destruct p; [| discriminate]. simpl in Hp. injection Hp as <-.
    exists y. split; reflexivity.
  - destruct b as [y | ys]; [discriminate |]. simpl in H.
    destruct (zip_with_exact (tree_map2 f) xs ys) as [zs |] eqn:E;
      [| discriminate].
    injection H as <-. destruct p as [| i p]; [discriminate |].
    simpl in Hp |- *. revert ys zs E i Hp.
    induction IH as [| x xs Hx _ IHxs]; intros ys zs E i Hp.
    + destruct i; discriminate.
    + destruct ys as [| y ys]; [discriminate |].
      apply zip_with_exact_cons in E. destruct E as (z & zs' & -> & Hz & E).
      destruct i as [| i]; simpl in Hp |- *.
      * exact (Hx _ _ Hz p v Hp) || (eapply Hx; eassumption).
      * exact (IHxs _ _ E i Hp).
Qed.

(** Trees of one structure have leaves at the same paths. *)
Lemma leaf_at_treedef {A B : Type} (a : pytree A) :
  forall (b : pytree B),
    treedef b = treedef a ->
    forall p x, leaf_at p a = Some x -> exists y, leaf_at p b = Some y.
Proof.
  intros b H p x Hp.
  destruct (@tree_map2_some _ _ _ (fun u v => (u, v)) a b H) as [c Hc].
  destruct (@leaf_at_tree_map2 _ _ _ _ _ _ _ Hc p x Hp) as (y & Hy & _).
  now exists y.
Qed.

End PyTreeFacts.
Import PyTreeFacts.

(* ===================================================================== *)
(** * Facts about tensors                                                 *)
(* ===================================================================== *)

Module TensorFacts.

Lemma numel_app (s t : list nat) : numel (s ++ t) = (numel s * numel t)%nat.
Proof.
  induction s as [| a s IH]; simpl; [lia |]. rewrite IH. lia.
Qed.

Lemma numel_split (s : list nat) (axis d : nat) :
  nth_error s axis = Some d ->
  numel s = (numel (firstn axis s) * (d * numel (skipn (S axis) s)))%nat.
Proof.
  intros H. rewrite <- (firstn_skipn axis s) at 1. rewrite numel_app.
  f_equal. clear - H. revert axis H.
  induction s as [| a s IH]; intros [| n] H; try discriminate.
  - injection H as ->. reflexivity.
  - apply IH in H. exact H.
Qed.

Lemma firstn_nth {A : Type} (default : A) (n : nat) :
  forall l : list A,
    (n <= length l)%nat ->
    firstn n l = map (fun r => nth r l default) (seq 0 n).
Proof.
  induction n as [| n IH]; intros l H; [reflexivity |].
  destruct l as [| a l]; [simpl in H; lia |].
  simpl. f_equal. rewrite <- seq_shift, map_map.
  apply IH. simpl in H. lia.
Qed.

Lemma slice_nth {A : Type} (default : A) (n s : nat) :
  forall l : list A,
    (s + n <= length l)%nat ->
    slice s n l = map (fun r => nth (s + r)%nat l default) (seq 0 n).
Proof.
  unfold slice. induction s as [| s IH]; intros l H.
  - simpl. apply firstn_nth. exact H.
  - destruct l as [| a l]; [simpl in H; lia |].
    simpl. apply IH. simpl in H. lia.
Qed.

Lemma seq_from (s n : nat) : seq s n = map (fun r => (s + r)%nat) (seq 0 n).
Proof.
  revert s. induction n as [| n IH]; intros s; [reflexivity |].
  simpl. f_equal; [lia |].
  rewrite <- (seq_shift n 0), map_map, (IH (S s)).
  apply map_ext. intros. lia.
Qed.

Lemma flat_map_blocks {A : Type} (g : nat -> nat -> A) (m n : nat) :
  flat_map (fun o => map (g o) (seq 0 n)) (seq 0 m)
  = map (fun k => g (k / n)%nat (k mod n)%nat) (seq 0 (m * n)).
Proof.
  induction m as [| m IH]; [reflexivity |].
  rewrite seq_S, flat_map_app, IH. simpl flat_map. rewrite app_nil_r.
  replace (S m * n)%nat with (m * n + n)%nat by lia.
  rewrite seq_app, map_app. f_equal. simpl.
  rewrite (seq_from (m * n) n).
  rewrite map_map. apply map_ext_in. intros r Hr. apply in_seq in Hr.
  assert (n <> 0)%nat by lia.
  assert (Hq : ((m * n + r) / n = m)%nat).
  { rewrite Nat.add_comm, Nat.div_add by assumption.
    rewrite Nat.div_small by lia. reflexivity. }
  assert (Hm : ((m * n + r) mod n = r)%nat).
  { rewrite Nat.add_comm, Nat.Div0.mod_add. apply Nat.mod_small. lia. }
  rewrite Hq, Hm. reflexivity.
Qed.

Lemma clamp_index_lt (d : nat) (index : Z) :
  (0 < d)%nat -> (clamp_index d index < d)%nat.
Proof. unfold clamp_index. destruct (index <? 0); lia. Qed.

Lemma clamp_index_in_range (d : nat) (index : Z) :
  0 <= index < Z.of_nat d -> clamp_index d index = Z.to_nat index.
Proof.
  intros H. unfold clamp_index.
  destruct (Z.ltb_spec index 0); lia.
Qed.

Lemma clamp_index_above (d : nat) (index : Z) :
  (0 < d)%nat -> Z.of_nat d <= index -> clamp_index d index = (d - 1)%nat.
Proof.
  intros Hd H. unfold clamp_index.
  destruct (Z.ltb_spec index 0); lia.
Qed.

Lemma clamp_index_negative (d : nat) (index : Z) :
  - Z.of_nat d <= index < 0 ->
  clamp_index d index = Z.to_nat (index + Z.of_nat d).
Proof.
  intros H. unfold clamp_index.
  destruct (Z.ltb_spec index 0); lia.
Qed.

Lemma clamp_index_below (d : nat) (index : Z) :
  index < - Z.of_nat d -> clamp_index d index = 0%nat.
Proof.
  intros H. unfold clamp_index.
  destruct (Z.ltb_spec index 0); lia.
Qed.

(** On a well-formed operand, the slices taken by
    [dynamic_index_in_dim] are the selection at the clamped index. *)
Lemma dynamic_index_in_dim_select {A : Type} (default : A)
      (x : tensor A) (index : Z) (axis d : nat) :
  well_formed x -> nth_error (shape x) axis = Some d -> (0 < d)%nat ->
  dynamic_index_in_dim x index axis
  = Some (select_in_dim x (clamp_index d index) axis default).
Proof.
  intros Hwf Hd Hpos. unfold dynamic_index_in_dim, select_in_dim.
  rewrite Hd. destruct (Nat.eqb_spec d 0) as [-> | _]; [lia |].
  rewrite (nth_error_nth _ _ 0%nat Hd).
  pose proof (clamp_index_lt index Hpos) as Hi.
  set (i := clamp_index d index) in *.
  set (outer := numel (firstn axis (shape x))).
  set (inner := numel (skipn (S axis) (shape x))).
  do 2 f_equal.
  rewrite <- (flat_map_blocks
                (fun o r => nth ((o * d + i) * inner + r)%nat (data x) default)).
  rewrite !flat_map_concat_map. f_equal.
  apply map_ext_in. intros o Ho. apply in_seq in Ho.
  apply slice_nth. unfold well_formed in Hwf.
  rewrite Hwf, (numel_split _ _ Hd). fold outer inner.
  assert ((o * d + i + 1) * inner <= outer * d * inner)%nat
    by (apply Nat.mul_le_mono_r; nia).
  nia.
Qed.

(** A walk whose leaf function succeeds on every leaf succeeds. *)
Lemma tree_map_opt_all {A B : Type} (f : A -> option B) (g : A -> B)
      (P : A -> Prop) :
  (forall x, P x -> f x = Some (g x)) ->
  forall t, all_leaves P t -> tree_map_opt f t = Some (tree_map g t).
Proof.
  intros Hf t. unfold all_leaves.
  induction t as [x | ts IH] using pytree_ind'; intros H.
  - simpl in *. inversion H; subst. rewrite Hf by assumption. reflexivity.
  - simpl in *.
    enough (map_opt (tree_map_opt f) ts = Some (map (tree_map g) ts))
      as -> by reflexivity.
    induction IH as [| t ts Ht _ IHts]; [reflexivity |].
    simpl in H. apply Forall_app in H. destruct H as [H1 H2].
    simpl. rewrite (Ht H1), (IHts H2). reflexivity.
Qed.

End TensorFacts.
Import TensorFacts.

(* ===================================================================== *)
(** * The gradient accumulator                                            *)
(* ===================================================================== *)

Module TrainFacts.

Section Accumulate.
Variable T : Type.
Variable add : T -> T -> T.

Lemma fori_loop_from_sums (lg : Z -> option (T * pytree T))
      (body : Z -> T * pytree T -> option (T * pytree T)) :
  (forall i acc, body i acc = add_step add lg i acc) ->
  forall (lgs : list (T * pytree T)) (start : Z) (cl : T) (cg : pytree T),
    (forall i x, nth_error lgs i = Some x ->
                 lg (start + Z.of_nat i) = Some x) ->
    Forall (fun x => treedef (snd x) = treedef cg) lgs ->
    exists cg',
      fori_loop_from (length lgs) start body (cl, cg)
      = Some (fold_left add (map fst lgs) cl, cg')
      /\ treedef cg' = treedef cg
      /\ forall p v,
          leaf_at p cg = Some v ->
          exists vals,
            Forall2 (fun x y => leaf_at p (snd x) = Some y) lgs vals
            /\ leaf_at p cg' = Some (fold_left add vals v).
Proof.
  intros Hbody lgs. induction lgs as [| [l g] lgs IH];
    intros start cl cg Hlg Hdef.
  - exists cg. repeat split. intros p v Hp. exists []. split; [constructor | exact Hp].
  - inversion Hdef as [| ? ? Hg Hrest]; subst. simpl in Hg.
    destruct (@tree_map2_some _ _ _ add cg g Hg) as [cg1 Hcg1].
    destruct (tree_map2_treedef _ _ _ Hcg1) as [Hd1 _].
    assert (Hrest' : Forall (fun x => treedef (snd x) = treedef cg1) lgs).
    { eapply Forall_impl; [| exact Hrest]. intros a Ha. simpl in Ha.
      now rewrite Hd1. }
    assert (Hlg' : forall i x, nth_error lgs i = Some x ->
                               lg (start + 1 + Z.of_nat i) = Some x).
    { intros i x Hi. replace (start + 1 + Z.of_nat i)
        with (start + Z.of_nat (S i)) by lia. apply Hlg. exact Hi. }
    destruct (IH (start + 1) (add cl l) cg1 Hlg' Hrest')
      as (cg' & Hloop & Hd' & Hleaves).
    exists cg'. split; [| split].
    + simpl. rewrite Hbody. unfold add_step.
      pose proof (Hlg 0%nat (l, g) eq_refl) as H0.
      rewrite Z.add_0_r in H0. rewrite H0. simpl. rewrite Hcg1.
      exact Hloop.
    + now rewrite Hd'.
    + intros p v Hp.
      destruct (leaf_at_tree_map2 _ _ _ Hcg1 _ Hp) as (y & Hy & Hc).
      destruct (Hleaves p _ Hc) as (vals & Hvals & Hres).
      exists (y :: vals). split; [constructor; assumption | exact Hres].
Qed.

Variable zeros_like : T -> T.
Variable div_int : T -> Z -> T.
Variable zero : T.

(** The loop from the zero accumulators, followed by the division, gives
    the mean of the pairs. *)
Lemma accumulated_mean_of_loop (lg : Z -> option (T * pytree T))
      (body : Z -> T * pytree T -> option (T * pytree T))
      (params : pytree T) (lgs : list (T * pytree T)) :
  (forall i acc, body i acc = add_step add lg i acc) ->
  (forall i x, nth_error lgs i = Some x -> lg (Z.of_nat i) = Some x) ->
  Forall (fun x => treedef (snd x) = treedef params) lgs ->
  exists loss grads,
    fori_loop 0 (Z.of_nat (length lgs)) body
              (zero, tree_map zeros_like params) = Some (loss, grads)
    /\ accumulated_mean add zeros_like div_int zero params lgs
         (div_int loss (Z.of_nat (length lgs)),
          tree_map (fun x => div_int x (Z.of_nat (length lgs))) grads).
Proof.
  intros Hbody Hlg Hdef.
  assert (Hdef' : Forall (fun x => treedef (snd x)
                                   = treedef (tree_map zeros_like params)) lgs).
  { eapply Forall_impl; [| exact Hdef]. intros a Ha.
    now rewrite treedef_tree_map. }
  destruct (@fori_loop_from_sums lg body Hbody lgs 0 zero
              (tree_map zeros_like params))
    as (cg' & Hloop & Hd & Hleaves);
    [intros i x Hi; rewrite Z.add_0_l; now apply Hlg | exact Hdef' |].
  exists (fold_left add (map fst lgs) zero), cg'. split.
  - unfold fori_loop. rewrite Z.sub_0_r, Nat2Z.id. exact Hloop.
  - unfold accumulated_mean, arithmetic_mean. simpl.
    rewrite length_map. split; [reflexivity |]. split.
    + now rewrite treedef_tree_map, Hd, treedef_tree_map.
    + intros p v Hp.
      assert (Hz : leaf_at p (tree_map zeros_like params)
                   = Some (zeros_like v))
        by (rewrite leaf_at_tree_map, Hp; reflexivity).
      destruct (Hleaves p _ Hz) as (vals & Hvals & Hres).
      exists vals. split; [exact Hvals |].
      rewrite leaf_at_tree_map, Hres. simpl.
      now rewrite <- (Forall2_length Hvals).
Qed.

End Accumulate.

(** On a batch whose accumulation axis has length [N], [get_minibatch]
    returns the microbatch at every position below [N]. *)
Lemma get_minibatch_microbatch (batch : pytree (tensor Z)) (N i : nat) :
  all_leaves (fun x => well_formed x /\ nth_error (shape x) 1 = Some N) batch ->
  (i < N)%nat ->
  XmapTrain.get_minibatch batch (Z.of_nat i) = Some (microbatch batch i).
Proof.
  intros H Hi. unfold XmapTrain.get_minibatch, microbatch.
  apply tree_map_opt_all
    with (P := fun x => well_formed x /\ nth_error (shape x) 1 = Some N);
    [| exact H].
  intros x [Hwf Hd].
  rewrite (@dynamic_index_in_dim_select _ 0 x (Z.of_nat i) 1 N Hwf Hd) by lia.
  rewrite clamp_index_in_range by lia. now rewrite Nat2Z.id.
Qed.

Lemma fold_left_Qplus (xs : list Q) :
  forall acc : Q, (fold_left Qplus xs acc == acc + Generation.Qsum xs)%Q.
Proof.
  induction xs as [| x xs IH]; intros acc; simpl; [ring |].
  rewrite IH. ring.
Qed.

(** On the rationals, the mean of the accumulator is the sum of the terms
    divided by their number. *)
Lemma arithmetic_mean_rational (xs : list Q) :
  (arithmetic_mean Qplus Examples.q_div_int 0 xs
   == Generation.Qsum xs / inject_Z (Z.of_nat (length xs)))%Q.
Proof.
  unfold arithmetic_mean, Examples.q_div_int.
  rewrite fold_left_Qplus. now rewrite Qplus_0_l.
Qed.

End TrainFacts.
Import TrainFacts.

Import Examples.

Lemma cumul_minibatch_step_add_step (T : Type) (add : T -> T -> T)
      (grad_fn : pytree T -> pytree (tensor Z) -> T * pytree T)
      (params : pytree T) (batch : pytree (tensor Z)) i acc :
  XmapTrain.cumul_minibatch_step add grad_fn params batch i acc
  = add_step add (XmapTrain.loss_and_grad grad_fn params batch) i acc.
Proof.
  destruct acc as [cl cg]. unfold XmapTrain.cumul_minibatch_step, add_step.
  destruct (XmapTrain.loss_and_grad grad_fn params batch i) as [[l g] |];
    reflexivity.
Qed.

Lemma nth_error_map_seq {A : Type} (f : nat -> A) (n i : nat) (x : A) :
  nth_error (map f (seq 0 n)) i = Some x -> (i < n)%nat /\ x = f i.
Proof.
  intros H.
  assert (Hi : (i < n)%nat).
  { pose proof (nth_error_Some (map f (seq 0 n)) i) as Hs.
    rewrite length_map, length_seq in Hs. apply Hs. congruence. }
  split; [exact Hi |].
  rewrite nth_error_map in H.
  rewrite nth_error_seq in H.
  destruct (Nat.ltb_spec i n); [| lia]. simpl in H. congruence.
Qed.

(** C2. With an accumulation count [N] of at least one and a batch whose
    accumulation axis has length [N], the accumulator of both training steps starts from
    (0.0, zeros like the parameters), adds the loss and the gradient tree
    of the microbatches 0, ..., N-1 in that order and divides by [N]: the
    loss is the arithmetic mean of the N losses and every leaf of the
    gradient tree is the mean of the N gradients at that leaf. The step of
    xmap_train_functions.py returns the [pmean] of both, the step of
    benchmark_pjit_dp.py the loss and the state updated with the
    gradients. *)
Theorem train_step_accumulates_mean
        (T : Type) (add : T -> T -> T) (zeros_like : T -> T)
        (div_int : T -> Z -> T) (exp : T -> T) (zero : T)
        (grad_fn : pytree T -> pytree (tensor Z) -> T * pytree T)
        (params : pytree T) (batch : pytree (tensor Z)) (N : nat) :
  (0 < N)%nat ->
  all_leaves (fun x => well_formed x /\ nth_error (shape x) 1 = Some N) batch ->
  let lgs := map (fun i => grad_fn params (microbatch batch i)) (seq 0 N) in
  Forall (fun lg => treedef (snd lg) = treedef params) lgs ->
  (forall pmean : T -> T,
      exists r,
        XmapTrain.accumulate add zeros_like div_int zero grad_fn
                             params batch (Z.of_nat N) = Some r
        /\ accumulated_mean add zeros_like div_int zero params lgs r
        /\ XmapTrain.train_step add zeros_like div_int exp zero pmean grad_fn
                                params batch (Z.of_nat N)
           = Some (tree_map pmean (snd r),
                   XmapTrain.mkMetrics (pmean (fst r)) (exp (pmean (fst r)))))
  /\ (forall (TrainState : Type) (state_params : TrainState -> pytree T)
             (apply_gradients : TrainState -> pytree T -> TrainState)
             (conforms_dp : pytree (tensor Z) -> bool) (state : TrainState),
         state_params state = params ->
         (forall i, (i < N)%nat -> conforms_dp (microbatch batch i) = true) ->
         exists r,
           BenchmarkPjitDp.accumulate add zeros_like div_int zero state_params
                                      grad_fn conforms_dp state batch
                                      (Z.of_nat N) = Some r
           /\ accumulated_mean add zeros_like div_int zero params lgs r
           /\ BenchmarkPjitDp.train_step add zeros_like div_int exp zero
                state_params apply_gradients grad_fn conforms_dp state batch
                (Z.of_nat N)
              = Some (apply_gradients state (snd r),
                      BenchmarkPjitDp.mkMetrics (fst r) (exp (fst r)))).
Proof.
  intros _ Hbatch lgs Hdef.
  assert (Hlen : length lgs = N)
    by (unfold lgs; now rewrite length_map, length_seq).
  split.
  - intros pmean.
    destruct (@accumulated_mean_of_loop T add zeros_like div_int zero
                (XmapTrain.loss_and_grad grad_fn params batch)
                (XmapTrain.cumul_minibatch_step add grad_fn params batch)
                params lgs) as (loss & grads & Hloop & Hmean).
    + intros i acc. apply cumul_minibatch_step_add_step.
    + intros i x Hi. apply nth_error_map_seq in Hi. destruct Hi as [Hi ->].
      unfold XmapTrain.loss_and_grad.
      now rewrite (get_minibatch_microbatch Hbatch Hi).
    + exact Hdef.
    + rewrite Hlen in Hloop, Hmean.
      eexists. unfold XmapTrain.train_step, XmapTrain.accumulate.
      rewrite Hloop. split; [reflexivity |]. split; [exact Hmean |].
      reflexivity.
  - intros TrainState state_params apply_gradients conforms_dp state Hp Hconf.
    destruct (@accumulated_mean_of_loop T add zeros_like div_int zero
                (BenchmarkPjitDp.loss_and_grad state_params grad_fn
                                               conforms_dp state batch)
                (BenchmarkPjitDp.cumul_minibatch_step add state_params grad_fn
                                                      conforms_dp state batch)
                params lgs) as (loss & grads & Hloop & Hmean).
    + intros i [cl cg].
      unfold BenchmarkPjitDp.cumul_minibatch_step, add_step.
      destruct (BenchmarkPjitDp.loss_and_grad state_params grad_fn
                                              conforms_dp state batch i)
        as [[l g] |]; reflexivity.
    + intros i x Hi. apply nth_error_map_seq in Hi. destruct Hi as [Hi ->].
      unfold BenchmarkPjitDp.loss_and_grad.
      change (BenchmarkPjitDp.get_minibatch batch (Z.of_nat i))
        with (XmapTrain.get_minibatch batch (Z.of_nat i)).
      rewrite (get_minibatch_microbatch Hbatch Hi).
      unfold BenchmarkPjitDp.with_sharding_constraint.
      rewrite (Hconf i Hi), Hp. reflexivity.
    + exact Hdef.
    + rewrite Hlen in Hloop, Hmean.
      eexists. unfold BenchmarkPjitDp.train_step, BenchmarkPjitDp.accumulate.
      rewrite Hp, Hloop. split; [reflexivity |]. split; [exact Hmean |].
      reflexivity.
Qed.

Lemma train_step_accumulates_mean_witness :
  all_leaves (fun x => well_formed x /\ nth_error (shape x) 1 = Some 2%nat)
             batch0
  /\ exists r,
      XmapTrain.accumulate Qplus q_zeros_like q_div_int 0%Q grad_fn0
                           params0 batch0 2 = Some r
      /\ accumulated_mean Qplus q_zeros_like q_div_int 0%Q params0
           (map (fun i => grad_fn0 params0 (microbatch batch0 i)) (seq 0 2))
           r.
Proof.
  assert (H1 : all_leaves
                 (fun x => well_formed x /\ nth_error (shape x) 1 = Some 2%nat)
                 batch0).
  { unfold all_leaves. simpl. constructor; [| constructor].
    split; reflexivity. }
  assert (H2 : Forall (fun lg => treedef (snd lg) = treedef params0)
                      (map (fun i => grad_fn0 params0 (microbatch batch0 i))
                           (seq 0 2))).
  { simpl. repeat constructor. }
  split; [exact H1 |].
  destruct (@train_step_accumulates_mean Q Qplus q_zeros_like q_div_int
              (fun x => x) 0%Q grad_fn0 params0 batch0 2%nat
              (Nat.lt_0_succ 1) H1 H2)
    as [Hx _].
  destruct (Hx (fun x => x)) as (r & Hacc & Hmean & _).
  exists r. split; [exact Hacc | exact Hmean].
Defined.

(* ===================================================================== *)
(** * get_minibatch                                                       *)
(* ===================================================================== *)

(** C8, as the code has it. On a batch whose leaves have an accumulation
    axis (axis 1) of positive length, and for an index that is a 32-bit
    integer, as jax takes it, [get_minibatch] returns the tree that has, at
    every leaf, the selection along that axis with the other axes kept,
    and it is a function of its arguments. It does not fail on an index
    outside the axis: an index within the axis selects that position, and
    any other index is brought into the axis (a negative index has the
    length added, and the result is clamped). *)
Theorem get_minibatch_selects_clamped (batch : pytree (tensor Z)) (idx : Z) :
  is_int32 idx ->
  all_leaves (fun x => well_formed x
                       /\ exists d, nth_error (shape x) 1 = Some d
                                    /\ (0 < d)%nat) batch ->
  XmapTrain.get_minibatch batch idx
  = Some (tree_map
            (fun x => select_in_dim
                        x (clamp_index (nth 1%nat (shape x) 0%nat) idx) 1 0)
            batch)
  /\ BenchmarkPjitDp.get_minibatch batch idx
     = XmapTrain.get_minibatch batch idx
  /\ (forall d : nat,
        (0 <= idx < Z.of_nat d -> clamp_index d idx = Z.to_nat idx)
        /\ ((0 < d)%nat -> (clamp_index d idx < d)%nat)).
Proof.
  intros _ H. split; [| split].
  - unfold XmapTrain.get_minibatch.
    apply tree_map_opt_all
      with (P := fun x => well_formed x
                          /\ exists d, nth_error (shape x) 1 = Some d
                                       /\ (0 < d)%nat);
      [| exact H].
    intros x (Hwf & d & Hd & Hpos).
    rewrite (nth_error_nth _ _ 0%nat Hd).
    exact (@dynamic_index_in_dim_select _ 0 x idx 1 d Hwf Hd Hpos).
  - reflexivity.
  - intros d. split.
    + apply clamp_index_in_range.
    + apply clamp_index_lt.
Qed.

Lemma get_minibatch_selects_clamped_witness :
  XmapTrain.get_minibatch batch0 (-1)
  = Some (Leaf {| shape := [1; 2]%nat; data := [21; 22] |}).
Proof.
  assert (H : all_leaves (fun x => well_formed x
                                   /\ exists d, nth_error (shape x) 1 = Some d
                                                /\ (0 < d)%nat) batch0).
  { unfold all_leaves. simpl. constructor; [| constructor].
    split; [reflexivity |]. exists 2%nat. split; [reflexivity | lia]. }
  assert (Hidx : is_int32 (-1)) by (unfold is_int32; lia).
  destruct (@get_minibatch_selects_clamped batch0 (-1) Hidx H) as [Hsel _].
  rewrite Hsel. reflexivity.
Defined.

(** C8 as stated fails: with an accumulation axis of length 2, the index 5
    is outside [0, 2) and [get_minibatch] returns the last microbatch. *)
Lemma get_minibatch_out_of_range_returns :
  ~ (0 <= 5 < 2)
  /\ XmapTrain.get_minibatch batch0 5
     = Some (Leaf {| shape := [1; 2]%nat; data := [21; 22] |})
  /\ XmapTrain.get_minibatch batch0 5 <> None.
Proof.
  split; [lia |]. split; [reflexivity | discriminate].
Qed.

(* ===================================================================== *)
(** * update_opt_state                                                    *)
(* ===================================================================== *)

(** The supplied gradients do not reach the update rule. *)
Lemma update_opt_state_same_for_all_grads
      (T : Type) (add : T -> T -> T) (PartitionSpecs OptState : Type)
      (conforms : pytree T -> PartitionSpecs -> bool)
      (grads grads' : pytree T) (optimizer_state : OptState)
      (params : pytree T)
      (optimizer : XmapTrain.GradientTransformation T OptState)
      (grad_spec : PartitionSpecs) :
  XmapTrain.update_opt_state add conforms grads optimizer_state params
                             optimizer grad_spec
  = XmapTrain.update_opt_state add conforms grads' optimizer_state params
                               optimizer grad_spec.
Proof. reflexivity. Qed.

(** C1, at a zero gradient. With parameters (1, (2)), gradients (0, (0))
    and plain gradient descent, the updater hands the parameters to the
    update rule in place of the gradients and returns the parameters
    (0, (0)); the updater of the specification returns the parameters
    unchanged. *)
Theorem update_opt_state_runs_update_on_params :
  let zero_grads := tree_map q_zeros_like params0 in
  XmapTrain.update_opt_state Qplus (fun _ (_ : unit) => true)
                             zero_grads tt params0 sgd tt
  = Some (Node [Leaf (0#1)%Q; Node [Leaf (0#1)%Q]], tt)
  /\ XmapTrain.update_opt_state_spec Qplus (fun _ (_ : unit) => true)
                                     zero_grads tt params0 sgd tt
     = Some (params0, tt)
  /\ XmapTrain.update_opt_state Qplus (fun _ (_ : unit) => true)
                                zero_grads tt params0 sgd tt
     = XmapTrain.update_opt_state_spec Qplus (fun _ (_ : unit) => true)
                                       params0 tt params0 sgd tt.
Proof. repeat split. Qed.

(* ===================================================================== *)
(** * The key/value cache of CausalAttention                              *)
(* ===================================================================== *)

Module LayersFacts.
Import Layers.

Lemma slice_from_length {A : Type} (start : Z) (l : list A) :
  start < 0 ->
  Z.of_nat (length (slice_from start l))
  = Z.min (Z.of_nat (length l)) (- start).
Proof.
  intros H. unfold slice_from.
  destruct (Z.ltb_spec start 0); [| lia].
  rewrite length_skipn. lia.
Qed.

(** The last [block_size] positions of a sequence are a suffix of it. *)
Lemma slice_from_suffix {A : Type} (start : Z) (l : list A) :
  exists dropped, l = dropped ++ slice_from start l.
Proof.
  unfold slice_from.
  match goal with |- context [skipn ?n l] => exists (firstn n l) end.
  now rewrite firstn_skipn.
Qed.

Lemma last_positions_le {row : Type} (block_size : Z) (x : heads row) :
  0 < block_size -> positions_le block_size (last_positions block_size x).
Proof.
  intros H. unfold positions_le, last_positions.
  apply Forall_map, Forall_forall. intros h _.
  apply Forall_map, Forall_forall. intros s _.
  rewrite slice_from_length by lia. lia.
Qed.

Lemma decode_steps_bounded {row : Type} (block_size : Z) :
  0 < block_size ->
  forall (inputs : list (heads row * heads row)) past_keys past_values c,
    positions_le block_size past_keys ->
    positions_le block_size past_values ->
    decode_steps block_size (Some (past_keys, past_values)) inputs = Some c ->
    exists ck cv, c = Some (ck, cv)
                  /\ positions_le block_size ck
                  /\ positions_le block_size cv.
Proof.
  intros Hb inputs. induction inputs as [| [k v] rest IH];
    intros pk pv c Hk Hv H.
  - simpl in H. injection H as <-. now exists pk, pv.
  - simpl in H.
    destruct (concatenate_positions pk k) as [ck |]; [| discriminate].
    destruct (concatenate_positions pv v) as [cv |]; [| discriminate].
    apply IH in H; [exact H | |]; now apply last_positions_le.
Qed.

End LayersFacts.
Import LayersFacts.

(** C9, as the code has it. With [use_cache=True] and a previous cache,
    the cache handed back is the pair of the previous keys (values)
    concatenated with the current ones and cut to the last [block_size]
    positions, so, for a positive block size, no sequence of it is longer
    than [block_size]. On the first call, without a previous cache, the
    cache is the pair of the current keys and values, uncut. Hence the
    bound holds after any number of decoding steps when the first call
    had at most [block_size] positions. *)
Theorem attention_cache_bounded_after_first_call
        (row : Type) (block_size : Z) :
  0 < block_size ->
  (forall (past_keys past_values key value key' value' : Layers.heads row)
          present,
      Layers.attention_cache block_size true
                             (Some (past_keys, past_values)) key value
      = Some (key', value', present) ->
      present = Some (key', value')
      /\ (exists k v,
             Layers.concatenate_positions past_keys key = Some k
             /\ Layers.concatenate_positions past_values value = Some v
             /\ key' = Layers.last_positions block_size k
             /\ value' = Layers.last_positions block_size v)
      /\ Layers.positions_le block_size key'
      /\ Layers.positions_le block_size value')
  /\ (forall key value : Layers.heads row,
         Layers.attention_cache block_size true None key value
         = Some (key, value, Some (key, value)))
  /\ (forall (key value : Layers.heads row) rest c,
         Layers.positions_le block_size key ->
         Layers.positions_le block_size value ->
         Layers.decode_steps block_size None ((key, value) :: rest) = Some c ->
         exists ck cv, c = Some (ck, cv)
                       /\ Layers.positions_le block_size ck
                       /\ Layers.positions_le block_size cv).
Proof.
  intros Hb. split; [| split].
  - intros pk pv key value key' value' present H. simpl in H.
    destruct (Layers.concatenate_positions pk key) as [k |]; [| discriminate].
    destruct (Layers.concatenate_positions pv value) as [v |];
      [| discriminate].
    injection H as <- <- <-. split; [reflexivity |]. split.
    + exists k, v. repeat split.
    + split; now apply last_positions_le.
  - reflexivity.
  - intros key value rest c Hk Hv H. simpl in H.
    exact (@decode_steps_bounded row block_size Hb rest key value c Hk Hv H).
Qed.

Lemma attention_cache_bounded_after_first_call_witness :
  Layers.attention_cache 2 true (Some ([[[1; 2]]], [[[3; 4]]])) [[[5]]] [[[6]]]
  = Some ([[[2; 5]]], [[[4; 6]]], Some ([[[2; 5]]], [[[4; 6]]]))
  /\ Layers.positions_le 2 [[[2; 5]]].
Proof.
  assert (Hb : 0 < 2) by lia.
  destruct (@attention_cache_bounded_after_first_call Z 2 Hb) as [H _].
  split; [reflexivity |].
  destruct (H [[[1; 2]]] [[[3; 4]]] [[[5]]] [[[6]]]
              [[[2; 5]]] [[[4; 6]]] (Some ([[[2; 5]]], [[[4; 6]]]))
              eq_refl) as (_ & _ & Hk & _).
  exact Hk.
Defined.

(** C9 as stated fails on a first call longer than the block: with
    [block_size = 2] and three positions, the cache handed back has three
    positions. *)
Lemma attention_cache_first_call_not_truncated :
  exists key' value' cached_keys cached_values,
    Layers.attention_cache 2 true None [[[1; 2; 3]]] [[[4; 5; 6]]]
    = Some (key', value', Some (cached_keys, cached_values))
    /\ ~ Layers.positions_le 2 cached_keys
    /\ ~ Layers.positions_le 2 cached_values.
Proof.
  exists [[[1; 2; 3]]], [[[4; 5; 6]]], [[[1; 2; 3]]], [[[4; 5; 6]]].
  split; [reflexivity |].
  split; intros H; inversion H as [| ? ? H1 _]; subst;
    inversion H1 as [| ? ? H2 _]; subst; simpl in H2; lia.
Qed.

(* ===================================================================== *)
(** * Facts about sums, sorting and masks                                 *)
(* ===================================================================== *)

Module FilterFacts.
Import Generation.

Lemma Qltb_lt (x y : Q) : Qltb x y = true <-> (x < y)%Q.
Proof.
  unfold Qltb. rewrite negb_true_iff. split.
  - intros H. apply Qnot_le_lt. intros Hle.
    apply Qle_bool_iff in Hle. congruence.
  - intros H. destruct (Qle_bool y x) eqn:E; [| reflexivity].
    apply Qle_bool_iff in E. apply Qlt_not_le in H. contradiction.
Qed.

Lemma Qltb_ge (x y : Q) : Qltb x y = false <-> (y <= x)%Q.
Proof.
  unfold Qltb. rewrite negb_false_iff. apply Qle_bool_iff.
Qed.

(** ** Sums *)

Lemma Qsum_nonneg (l : list Q) :
  Forall (fun x => 0 <= x)%Q l -> (0 <= Qsum l)%Q.
Proof.
  induction 1 as [| x l Hx _ IH]; simpl; [apply Qle_refl | lra].
Qed.

Lemma Qsum_pos (l : list Q) :
  l <> [] -> Forall (fun x => 0 < x)%Q l -> (0 < Qsum l)%Q.
Proof.
  intros Hne H. destruct H as [| x l Hx Hl]; [congruence |].
  simpl. assert (0 <= Qsum l)%Q.
  { apply Qsum_nonneg. eapply Forall_impl; [| exact Hl].
    intros a Ha. apply Qlt_le_weak. exact Ha. }
  lra.
Qed.

Lemma Qsum_scaled (l : list Q) (c : Q) :
  (Qsum (map (fun x => x * c) l) == Qsum l * c)%Q.
Proof.
  induction l as [| x l IH]; simpl; [ring | rewrite IH; ring].
Qed.

(** The running sums of non-negative terms grow, from the start value to
    the total. *)
Lemma cumsum_from_sorted (l : list Q) :
  Forall (fun x => 0 <= x)%Q l ->
  forall acc,
    StronglySorted Qle (cumsum_from acc l)
    /\ Forall (fun c => acc <= c /\ c <= acc + Qsum l)%Q (cumsum_from acc l).
Proof.
  induction 1 as [| x l Hx Hl IH]; intros acc; simpl.
  - split; constructor.
  - destruct (IH (acc + x)%Q) as [Hs Hb].
    assert (0 <= Qsum l)%Q by now apply Qsum_nonneg.
    split.
    + constructor; [exact Hs |].
      eapply Forall_impl; [| exact Hb]. intros c [Hc _]. exact Hc.
    + constructor; [split; lra |].
      eapply Forall_impl; [| exact Hb]. intros c [Hc1 Hc2]. split; lra.
Qed.

Lemma cumsum_from_length (l : list Q) :
  forall acc, length (cumsum_from acc l) = length l.
Proof.
  induction l as [| x l IH]; intros acc; simpl; [| rewrite IH]; reflexivity.
Qed.

Section Softmax.
Variable fexp : Q -> Q.
Hypothesis fexp_pos : forall q, (0 < fexp q)%Q.

Lemma softmax_length (l : list logit) :
  length (softmax fexp l) = length l.
Proof. unfold softmax. apply length_map. Qed.

Lemma lexp_nonneg (x : logit) : (0 <= lexp fexp x)%Q.
Proof.
  destruct x as [| q]; simpl; [apply Qle_refl |].
  apply Qlt_le_weak, fexp_pos.
Qed.

Lemma softmax_nonneg (l : list logit) :
  Forall (fun p => 0 <= p)%Q (softmax fexp l).
Proof.
  unfold softmax. apply Forall_map, Forall_forall. intros x _.
  assert (Hz : (0 <= Qsum (map (lexp fexp) l))%Q).
  { apply Qsum_nonneg, Forall_map, Forall_forall. intros y _.
    apply lexp_nonneg. }
  unfold Qdiv. apply Qmult_le_0_compat; [apply lexp_nonneg |].
  apply Qinv_le_0_compat. exact Hz.
Qed.

(** The probabilities of finite logits sum to one. *)
Lemma softmax_sum (l : list Q) :
  l <> [] -> (Qsum (softmax fexp (map Fin l)) == 1)%Q.
Proof.
  intros Hne. unfold softmax. rewrite map_map.
  set (z := Qsum (map (lexp fexp) (map Fin l))).
  assert (Hz : (0 < z)%Q).
  { unfold z. apply Qsum_pos.
    - destruct l; [congruence | discriminate].
    - rewrite map_map. apply Forall_map, Forall_forall. intros y _.
      simpl. apply fexp_pos. }
  unfold Qdiv.
  rewrite <- (map_map (fun x => lexp fexp (Fin x)) (fun e => (e * / z)%Q)).
  rewrite Qsum_scaled.
  replace (map (fun x => lexp fexp (Fin x)) l)
    with (map (lexp fexp) (map Fin l)) by (now rewrite map_map).
  fold z. apply Qmult_inv_r. intros Hz0. rewrite Hz0 in Hz.
  apply Qlt_irrefl in Hz. exact Hz.
Qed.

(** Cumulative probabilities grow and stay within one. *)
Lemma cumulative_probs_sorted (l : list Q) :
  l <> [] ->
  StronglySorted Qle (cumsum (softmax fexp (map Fin l)))
  /\ Forall (fun c => c <= 1)%Q (cumsum (softmax fexp (map Fin l))).
Proof.
  intros Hne. unfold cumsum.
  destruct (cumsum_from_sorted (softmax_nonneg (map Fin l)) 0%Q)
    as [Hs Hb].
  split; [exact Hs |].
  eapply Forall_impl; [| exact Hb]. intros c [_ Hc].
  rewrite (softmax_sum Hne) in Hc. lra.
Qed.

End Softmax.

(** ** Masks *)










(** ** Sorting *)

Lemma insert_by_perm {A : Type} (leb : A -> A -> bool) (x : A) (l : list A) :
  Permutation (insert_by leb x l) (x :: l).
Proof.
  induction l as [| y l IH]; simpl; [reflexivity |].
  destruct (leb x y); [reflexivity |].
  rewrite IH. apply perm_swap.
Qed.

Lemma sort_by_perm {A : Type} (leb : A -> A -> bool) (l : list A) :
  Permutation (sort_by leb l) l.
Proof.
  induction l as [| x l IH]; simpl; [reflexivity |].
  rewrite insert_by_perm. now constructor.
Qed.

Lemma insert_by_sorted {A : Type} (leb : A -> A -> bool) (x : A) (l : list A) :
  (forall a b, leb a b = false -> leb b a = true) ->
  Sorted (fun a b => leb a b = true) l ->
  Sorted (fun a b => leb a b = true) (insert_by leb x l).
Proof.
  intros Htot. induction 1 as [| y l Hs IH Hhd]; simpl.
  - constructor; constructor.
  - destruct (leb x y) eqn:E.
    + constructor; [constructor; assumption | constructor; exact E].
    + constructor; [exact IH |].
      destruct l as [| z l]; simpl.
      * constructor. now apply Htot.
      * destruct (leb x z); constructor;
          [now apply Htot | inversion Hhd; assumption].
Qed.

Lemma sort_by_sorted {A : Type} (leb : A -> A -> bool) (l : list A) :
  (forall a b, leb a b = false -> leb b a = true) ->
  Sorted (fun a b => leb a b = true) (sort_by leb l).
Proof.
  intros Htot. induction l as [| x l IH]; simpl; [constructor |].
  now apply insert_by_sorted.
Qed.

Lemma Qle_bool_total (x y : Q) : Qle_bool x y = false -> Qle_bool y x = true.
Proof.
  intros H. apply Qle_bool_iff. apply Qlt_le_weak, Qnot_le_lt.
  intros Hle. apply Qle_bool_iff in Hle. congruence.
Qed.

Lemma split_map {A B : Type} (l : list (A * B)) :
  List.split l = (map fst l, map snd l).
Proof.
  induction l as [| [a b] l IH]; simpl; [reflexivity |].
  now rewrite IH.
Qed.

Lemma enumerate_snd {A : Type} (l : list A) :
  map snd (enumerate l) = seq 0 (length l).
Proof.
  unfold enumerate. generalize 0%nat.
  induction l as [| x l IH]; intros s; simpl; [reflexivity |].
  now rewrite IH.
Qed.

Lemma enumerate_nth (l : list Q) :
  Forall (fun vi => nth (snd vi) l 0%Q = fst vi) (enumerate l).
Proof.
  unfold enumerate.
  assert (H : forall (pre : list Q),
             Forall (fun vi => nth (snd vi) (pre ++ l) 0%Q = fst vi)
                    (combine l (seq (length pre) (length l)))).
  { induction l as [| x l IH]; intros pre; simpl; [constructor |].
    constructor.
    - simpl. rewrite app_nth2 by lia. now rewrite Nat.sub_diag.
    - specialize (IH (pre ++ [x])). rewrite length_app in IH. simpl in IH.
      rewrite Nat.add_1_r in IH. rewrite <- app_assoc in IH. exact IH. }
  exact (H []).
Qed.

(** [torch.sort] returns the positions of the input in an order of its
    own, the values at those positions, and the values in the order asked
    for. *)
Lemma torch_sort_spec (descending : bool) (l : list Q) :
  let '(values, indices) := torch_sort descending l in
  Permutation indices (seq 0 (length l))
  /\ values = map (fun i => nth i l 0%Q) indices
  /\ Sorted (fun a b => if descending then b <= a else a <= b)%Q values.
Proof.
  unfold torch_sort. rewrite split_map.
  set (leb := if descending then desc_leb else asc_leb).
  pose proof (sort_by_perm leb (enumerate l)) as Hperm.
  split; [| split].
  - rewrite <- enumerate_snd. apply Permutation_map. exact Hperm.
  - pose proof (enumerate_nth l) as Hn.
    assert (Hs : Forall (fun vi => nth (snd vi) l 0%Q = fst vi)
                        (sort_by leb (enumerate l))).
    { apply Forall_forall. intros vi Hin.
      rewrite Forall_forall in Hn. apply Hn.
      eapply Permutation_in; [exact Hperm | exact Hin]. }
    clear Hperm Hn.
    induction Hs as [| vi r Hvi _ IH]; simpl; [reflexivity |].
    now rewrite IH, Hvi.
  - assert (Htot : forall a b, leb a b = false -> leb b a = true).
    { intros a b. unfold leb, desc_leb, asc_leb.
      destruct descending; apply Qle_bool_total. }
    pose proof (sort_by_sorted leb (enumerate l) Htot) as Hs.
    clear Hperm.
    induction Hs as [| vi r Hs IH Hhd]; simpl; [constructor |].
    constructor; [exact IH |].
    destruct Hhd as [| vj r' Hv]; simpl; constructor.
    unfold leb, desc_leb, asc_leb in Hv.
    destruct descending; now apply Qle_bool_iff.
Qed.

Lemma torch_sort_length (descending : bool) (l : list Q) :
  length (fst (torch_sort descending l)) = length l
  /\ length (snd (torch_sort descending l)) = length l.
Proof.
  unfold torch_sort. rewrite split_map. simpl.
  rewrite !length_map.
  rewrite (Permutation_length (sort_by_perm _ (enumerate l))).
  unfold enumerate. rewrite length_combine, length_seq. lia.
Qed.

End FilterFacts.
Import FilterFacts.
Import Examples.

(* ===================================================================== *)
(** * top_p_logits                                                        *)
(* ===================================================================== *)

Module TopPFacts.
Import Generation.




End TopPFacts.
Import TopPFacts.




(* ===================================================================== *)
(** * typical_sampling_logits                                             *)
(* ===================================================================== *)

Lemma filter_all {A : Type} (f : A -> bool) (l : list A) :
  Forall (fun a => f a = true) l -> filter f l = l.
Proof.
  induction 1 as [| a l Ha _ IH]; simpl; [reflexivity |].
  now rewrite Ha, IH.
Qed.

(** C7, where the code leaves the bounds. When the mass exceeds one, every
    cumulative probability is below it, [last_ind] is the size of the
    vocabulary, and the read of [sorted_scores] at [last_ind] is out of
    range: the call raises, whatever the logits and
    [min_tokens_to_keep]. *)
Theorem typical_sampling_logits_last_ind_out_of_range
        (fexp fln : Q -> Q) (logits : list Q) (mass : Q)
        (min_tokens_to_keep : Z) (filter_value : Generation.logit) :
  (forall q, 0 < fexp q)%Q -> (1 < mass)%Q ->
  Generation.typical_sampling_logits fexp fln logits mass
                                     min_tokens_to_keep filter_value
  = Raise RuntimeError.
Proof.
  intros Hexp Hmass. unfold Generation.typical_sampling_logits.
  match goal with
  | |- context [Generation.torch_sort false ?s] => set (scores := s)
  end.
  pose proof (torch_sort_length false scores) as [Hlv Hli].
  rewrite (surjective_pairing (Generation.torch_sort false scores)).
  set (sorted_scores := fst (Generation.torch_sort false scores)) in *.
  set (sorted_indices := snd (Generation.torch_sort false scores)) in *.
  set (sorted_logits := map (fun i => nth i logits 0%Q) sorted_indices).
  set (cum := Generation.cumsum
                (Generation.softmax fexp (map Generation.Fin sorted_logits))).
  assert (Hle1 : Forall (fun c => c <= 1)%Q cum).
  { destruct sorted_logits as [| v vs] eqn:E; [constructor |].
    assert (Hne : v :: vs <> []) by discriminate.
    exact (proj2 (@cumulative_probs_sorted fexp Hexp (v :: vs) Hne)). }
  assert (Hlc : length cum = length sorted_scores).
  { unfold cum, Generation.cumsum, sorted_logits.
    rewrite cumsum_from_length, softmax_length, !length_map. lia. }
  rewrite filter_all.
  2:{ eapply Forall_impl; [| exact Hle1]. intros c Hc.
      apply Qltb_lt. eapply Qle_lt_trans; [exact Hc | exact Hmass]. }
  rewrite Hlc.
  destruct (Z.ltb_spec (Z.of_nat (length sorted_scores)) 0); [lia |].
  rewrite Z.ltb_irrefl, andb_false_r. reflexivity.
Qed.

Lemma typical_sampling_logits_last_ind_out_of_range_witness :
  Generation.typical_sampling_logits exp2 log2 [0; 0]%Q (3#2)%Q 1
                                     Generation.NegInf
  = Raise RuntimeError.
Proof.
  apply typical_sampling_logits_last_ind_out_of_range.
  - intros q. unfold exp2. apply Qpower_0_lt. reflexivity.
  - reflexivity.
Defined.

(* ===================================================================== *)
(** * The repetition penalty                                              *)
(* ===================================================================== *)

Module PenaltyFacts.
Import Generation.

Lemma update_nth_length {A : Type} (n : nat) (v : A) (l : list A) :
  length (update_nth n v l) = length l.
Proof.
  revert n. induction l as [| a l IH]; intros [| n]; simpl;
    try reflexivity. now rewrite IH.
Qed.

Lemma nth_error_update_nth_eq {A : Type} (n : nat) (v : A) (l : list A) :
  (n < length l)%nat -> nth_error (update_nth n v l) n = Some v.
Proof.
  revert n. induction l as [| a l IH]; intros [| n] H; simpl in *;
    try lia; [reflexivity | apply IH; lia].
Qed.

Lemma nth_error_update_nth_neq {A : Type} (n i : nat) (v : A) (l : list A) :
  i <> n -> nth_error (update_nth n v l) i = nth_error l i.
Proof.
  revert n i. induction l as [| a l IH]; intros [| n] [| i] H; simpl;
    try reflexivity; try congruence. apply IH. congruence.
Qed.

Lemma index_in_range {A : Type} (l : list A) (i : Z) :
  0 <= i < Z.of_nat (length l) -> index l i = Ok (Z.to_nat i).
Proof.
  intros H. unfold index.
  destruct (Z.ltb_spec i 0); [lia |].
  destruct (Z.leb_spec 0 i); [| lia].
  destruct (Z.ltb_spec i (Z.of_nat (length l))); [reflexivity | lia].
Qed.

(** X19. The penalty loop over a history without repetition: the logit of every
    token of the history is multiplied by the penalty when it is negative
    and divided by it otherwise, once, and the other logits are left as
    they are. *)
Lemma apply_repetition_penalty_spec (repetition_penalty : Q)
      (history : list Z) :
  NoDup history ->
  forall logits : list Q,
    Forall (fun t => 0 <= t < Z.of_nat (length logits)) history ->
    exists out,
      apply_repetition_penalty repetition_penalty history logits = Ok out
      /\ length out = length logits
      /\ forall i v,
          nth_error logits i = Some v ->
          nth_error out i
          = Some (if mem (Z.of_nat i) history
                  then if Qltb v 0 then (v * repetition_penalty)%Q
                       else (v / repetition_penalty)%Q
                  else v).
Proof.
  induction 1 as [| t rest Hnotin Hnd IH]; intros logits Hrange.
  - exists logits. repeat split. intros i v Hi. exact Hi.
  - inversion Hrange as [| ? ? Ht Hrest]; subst.
    simpl. rewrite (index_in_range logits Ht). simpl.
    set (j := Z.to_nat t).
    set (v' := if Qltb (nth j logits 0%Q) 0
               then (nth j logits 0 * repetition_penalty)%Q
               else (nth j logits 0 / repetition_penalty)%Q).
    assert (Hrest' : Forall (fun t0 => 0 <= t0
                                       < Z.of_nat (length (update_nth j v' logits)))
                            rest).
    { eapply Forall_impl; [| exact Hrest]. intros a Ha.
      now rewrite update_nth_length. }
    destruct (IH (update_nth j v' logits) Hrest') as (out & Hout & Hlen & Hnth).
    exists out. split; [exact Hout |].
    split; [now rewrite Hlen, update_nth_length |].
    intros i v Hi. unfold mem. simpl.
    destruct (Nat.eq_dec i j) as [-> | Hne].
    + assert (Hj : (j < length logits)%nat) by (unfold j; lia).
      rewrite (Hnth j v' (nth_error_update_nth_eq v' logits Hj)).
      assert (Hjt : Z.of_nat j = t) by (unfold j; lia).
      rewrite Hjt, Z.eqb_refl. simpl.
      assert (Hm : mem t rest = false).
      { unfold mem. destruct (existsb (Z.eqb t) rest) eqn:E; [| reflexivity].
        apply existsb_exists in E. destruct E as (a & Ha & Heq).
        apply Z.eqb_eq in Heq. subst a. contradiction. }
      rewrite Hm.
      unfold v'. rewrite (nth_error_nth _ _ 0%Q Hi). reflexivity.
    + rewrite (Hnth i v); [| now rewrite nth_error_update_nth_neq].
      destruct (Z.eqb_spec (Z.of_nat i) t) as [E | _]; [| reflexivity].
      exfalso. apply Hne. unfold j. rewrite <- E. now rewrite Nat2Z.id.
Qed.

End PenaltyFacts.
Import PenaltyFacts.

(* ===================================================================== *)
(** * typical_sampling_logits within its bounds                           *)
(* ===================================================================== *)

Module TypicalFacts.
Import Generation.

Lemma scatter_length {A : Type} (idx : list nat) :
  forall (self src : list A), length (scatter self idx src) = length self.
Proof.
  unfold scatter. induction idx as [| i idx IH]; intros self src;
    [reflexivity |].
  destruct src as [| s src]; [reflexivity |].
  simpl. rewrite IH. apply update_nth_length.
Qed.

Lemma scatter_other {A : Type} (idx : list nat) (i : nat) :
  ~ In i idx ->
  forall (self src : list A),
    nth_error (scatter self idx src) i = nth_error self i.
Proof.
  unfold scatter. induction idx as [| k idx IH]; intros Hi self src;
    [reflexivity |].
  destruct src as [| s src]; [reflexivity |].
  simpl. rewrite IH by (intros H; apply Hi; now right).
  apply nth_error_update_nth_neq. intros E. apply Hi. now left.
Qed.

(** Scattering along positions without repetition writes every source
    entry at its position. *)
Lemma scatter_at {A : Type} (idx : list nat) :
  NoDup idx ->
  forall (self src : list A) (j : nat) (s : A),
    Forall (fun i => (i < length self)%nat) idx ->
    nth_error src j = Some s -> (j < length idx)%nat ->
    nth_error (scatter self idx src) (nth j idx 0%nat) = Some s.
Proof.
  induction 1 as [| k idx Hk Hnd IH]; intros self src j s Hr Hs Hj;
    [simpl in Hj; lia |].
  destruct src as [| s0 src]; [destruct j; discriminate |].
  inversion Hr as [| ? ? Hk' Hr']; subst.
  unfold scatter. simpl. fold (scatter (update_nth k s0 self) idx src).
  destruct j as [| j].
  - simpl in Hs. injection Hs as ->.
    rewrite scatter_other by exact Hk.
    now apply nth_error_update_nth_eq.
  - simpl in Hs, Hj. apply IH; [| exact Hs | lia].
    eapply Forall_impl; [| exact Hr']. intros a Ha.
    now rewrite update_nth_length.
Qed.

Lemma masked_fill_nth_error (logits : list Q) (mask : list bool)
      (filter_value : logit) (i : nat) :
  length mask = length logits -> (i < length logits)%nat ->
  nth_error mask i = Some false ->
  nth_error (masked_fill logits mask filter_value) i
  = Some (Fin (nth i logits 0%Q)).
Proof.
  unfold masked_fill. revert mask i.
  induction logits as [| x l IH]; intros mask i Hl Hi Hm;
    [simpl in Hi; lia |].
  destruct mask as [| b mask]; [discriminate |].
  destruct i as [| i]; simpl in *.
  - injection Hm as ->. reflexivity.
  - apply IH; [lia | lia | exact Hm].
Qed.

Lemma sorted_head_le (l : list Q) (k : nat) :
  Sorted Qle l -> (k < length l)%nat -> (nth 0 l 0 <= nth k l 0)%Q.
Proof.
  intros Hs Hk. apply Sorted_StronglySorted in Hs.
  2:{ intros a b c. apply Qle_trans. }
  destruct Hs as [| a l Hs Hall]; [simpl in Hk; lia |].
  destruct k as [| k]; simpl; [apply Qle_refl |].
  rewrite Forall_forall in Hall. apply Hall. apply nth_In.
  simpl in Hk. lia.
Qed.

(** X20. Where the read at [last_ind] is within range, at least
    [min_tokens_to_keep] tokens (all of them when there are fewer) keep
    their logit. *)
Lemma typical_sampling_logits_keeps_min_tokens
      (fexp fln : Q -> Q) (logits : list Q) (mass : Q)
      (min_tokens_to_keep : Z) (filter_value : logit) (out : list logit) :
  1 <= min_tokens_to_keep ->
  typical_sampling_logits fexp fln logits mass min_tokens_to_keep
                          filter_value = Ok out ->
  exists kept : list nat,
    NoDup kept
    /\ length kept = Nat.min (Z.to_nat min_tokens_to_keep) (length logits)
    /\ forall i, In i kept ->
                 nth_error out i = Some (Fin (nth i logits 0%Q)).
Proof.
  intros Hm. unfold typical_sampling_logits.
  match goal with
  | |- context [torch_sort false ?s] => set (scores := s)
  end.
  assert (Hls : length scores = length logits).
  { unfold scores, log_softmax. now rewrite !length_map. }
  pose proof (torch_sort_length false scores) as [Hlv Hli].
  pose proof (torch_sort_spec false scores) as Hsort.
  rewrite (surjective_pairing (torch_sort false scores)) in Hsort |- *.
  set (sorted_scores := fst (torch_sort false scores)) in *.
  set (sorted_indices := snd (torch_sort false scores)) in *.
  destruct Hsort as (Hperm & _ & Hasc).
  match goal with
  | |- context [Z.of_nat (length (filter ?f ?c))] =>
      set (count := Z.of_nat (length (filter f c)))
  end.
  assert (Hcount : 0 <= count) by (unfold count; lia).
  destruct (Z.ltb_spec count 0) as [| _]; [lia |].
  destruct (Z.leb_spec 0 count) as [_ |]; [| lia].
  destruct (Z.ltb_spec count (Z.of_nat (length sorted_scores)))
    as [Hin |]; [| discriminate].
  simpl andb. cbv iota.
  set (threshold := nth (Z.to_nat count) sorted_scores 0%Q).
  set (remove0 := map (fun s => Qltb threshold s) sorted_scores).
  match goal with
  | |- context [scatter ?r sorted_indices ?r] => set (remove1 := r)
  end.
  intros H. injection H as <-.
  set (K := Nat.min (Z.to_nat min_tokens_to_keep) (length logits)).
  assert (Hl0 : length remove0 = length logits).
  { unfold remove0. rewrite length_map. lia. }
  assert (Hl1 : length remove1 = length logits).
  { unfold remove1. destruct (1 <? min_tokens_to_keep); [| exact Hl0].
    rewrite length_app, length_map. unfold slice_to, slice_from.
    destruct (Z.ltb_spec min_tokens_to_keep 0); [lia |].
    rewrite length_firstn, length_skipn. lia. }
  assert (Hfalse : forall j, (j < K)%nat -> nth_error remove1 j = Some false).
  { intros j Hj. unfold remove1.
    destruct (Z.ltb_spec 1 min_tokens_to_keep) as [Hgt | Hle].
    - unfold slice_to. destruct (Z.ltb_spec min_tokens_to_keep 0); [lia |].
      rewrite nth_error_app1.
      + rewrite nth_error_map.
        destruct (nth_error (firstn _ remove0) j) eqn:E; [reflexivity |].
        apply nth_error_None in E. rewrite length_firstn in E.
        unfold K in Hj. lia.
      + rewrite length_map, length_firstn. unfold K in Hj. lia.
    - assert (min_tokens_to_keep = 1) by lia. subst min_tokens_to_keep.
      assert (j = 0%nat) by (unfold K in Hj; lia). subst j.
      unfold remove0. rewrite nth_error_map.
      destruct sorted_scores as [| s0 rest] eqn:E; [simpl in Hin; lia |].
      simpl. f_equal. apply Qltb_ge. unfold threshold.
      apply (sorted_head_le (l := s0 :: rest) (k := Z.to_nat count) Hasc).
      lia. }
  assert (Hnd : NoDup sorted_indices).
  { eapply Permutation_NoDup; [symmetry; exact Hperm | apply seq_NoDup]. }
  assert (Hr : Forall (fun i => (i < length remove1)%nat) sorted_indices).
  { apply Forall_forall. intros i Hi.
    eapply Permutation_in in Hi; [| exact Hperm].
    apply in_seq in Hi. lia. }
  exists (firstn K sorted_indices). split; [| split].
  - rewrite <- (firstn_skipn K sorted_indices) in Hnd.
    now apply NoDup_app_remove_r in Hnd.
  - rewrite length_firstn. unfold K. lia.
  - intros i Hi.
    destruct (In_nth _ _ 0%nat Hi) as (j & Hj & Hnth).
    rewrite length_firstn in Hj.
    rewrite nth_firstn in Hnth.
    destruct (Nat.ltb_spec j K) as [HjK |]; [| lia].
    assert (Hir : (i < length logits)%nat).
    { rewrite Forall_forall in Hr. rewrite <- Hl1. apply Hr.
      rewrite <- Hnth. apply nth_In. lia. }
    apply masked_fill_nth_error; [| exact Hir |].
    + now rewrite scatter_length.
    + rewrite <- Hnth. apply scatter_at; [exact Hnd | exact Hr | | lia].
      now apply Hfalse.
Qed.

End TypicalFacts.

(* ===================================================================== *)
(** * The decoding loop                                                   *)
(* ===================================================================== *)

Module DecodingFacts.
Import Generation.

(** Case analysis on an innermost scrutinee. *)
Ltac break_match_hyp H :=
  match type of H with
  | context [match ?e with _ => _ end] =>
      lazymatch e with
      | context [match _ with _ => _ end] => fail
      | _ => let E := fresh "E" in destruct e eqn:E
      end
  end.

Ltac break_match_goal :=
  match goal with
  | |- context [match ?e with _ => _ end] =>
      lazymatch e with
      | context [match _ with _ => _ end] => fail
      | _ => let E := fresh "E" in destruct e eqn:E
      end
  end.

Section Loop.
Variable fexp : Q -> Q.
Variable fln : Q -> Q.
Variable Cache : Type.
Variable Rng : Type.
Variable multinomial : list Q -> Rng -> res nat * Rng.
Variable str_strip : string -> string.
Variable self : TextGenerator.
Variable model : Model Cache.
Variable steps : Z.
Variable temperature : Q.
Variable top_k : option Z.
Variable top_p : option Q.
Variable tau : option Q.
Variable repetition_penalty : Q.
Variable sampling_method : option string.

Let body :=
  loop_body fexp fln multinomial self model temperature top_k top_p tau
            repetition_penalty sampling_method.
Let run_loop :=
  loop fexp fln multinomial self model steps temperature top_k top_p tau
       repetition_penalty sampling_method.

(** One iteration makes one forward call, before anything else, and no
    other. *)
Lemma loop_body_calls (step : Z) (st : loop_state Cache)
      (w : world Cache Rng) :
  calls (snd (body step st w))
  = calls w ++ [(x_cond st, layer_past st)].
Proof.
  unfold body, loop_body, bind, call_model, lift, sample, ret.
  repeat (simpl; try reflexivity; break_match_goal).
Qed.

Lemma loop_calls (n : nat) :
  forall (step : Z) (st : loop_state Cache) (w : world Cache Rng),
  exists rest,
    calls (snd (run_loop n step st w)) = calls w ++ rest
    /\ (n <> O ->
        exists rest', rest = (x_cond st, layer_past st) :: rest').
Proof.
  induction n as [| n IH]; intros step st w.
  - exists []. simpl. rewrite app_nil_r. split; [reflexivity | congruence].
  - pose proof (loop_body_calls step st w) as Hb.
    unfold run_loop, body in *. simpl loop. unfold bind at 1.
    destruct (loop_body fexp fln multinomial self model temperature top_k
                        top_p tau repetition_penalty sampling_method
                        step st w) as [[r | e] w1]; simpl in Hb.
    + destruct r as [st' | result].
      * destruct (IH (step + 1) st' w1) as (rest & Hrest & _).
        exists ((x_cond st, layer_past st) :: rest).
        rewrite Hrest, Hb, <- app_assoc. simpl.
        split; [reflexivity | intros _; eauto].
      * exists [(x_cond st, layer_past st)]. simpl.
        split; [exact Hb | intros _; eauto].
    + exists [(x_cond st, layer_past st)]. simpl.
      split; [exact Hb | intros _; eauto].
Qed.

(** What one iteration does to the sequence and to the history. *)
Lemma loop_body_inv (step : Z) (st : loop_state Cache)
      (w w' : world Cache Rng) (r : step_result Cache) :
  body step st w = (Ok r, w') ->
  match r with
  | Continue st' =>
      exists t, x st' = x st ++ [t] /\ t <> pad_token self
                /\ x_cond st' = [t]
                /\ if method_is sampling_method "greedy"
                   then generated_tokens st' = generated_tokens st
                   else generated_tokens st'
                        = if mem t (generated_tokens st)
                          then generated_tokens st
                          else generated_tokens st ++ [t]
  | Return _ (Pair out s) =>
      method_is sampling_method "greedy" = true
      /\ out = x st ++ [pad_token self] /\ s = step
  | Return _ (Triple out s _) =>
      method_is sampling_method "greedy" = false
      /\ out = x st /\ s = step
  end.
Proof.
  unfold body, loop_body, bind, call_model, lift, sample, ret.
  intros H.
  repeat (simpl in H; try discriminate; break_match_hyp H);
    simpl in H; injection H as <- <-;
    repeat match goal with
           | H : (_ =? _) = true |- _ => apply Z.eqb_eq in H
           | H : (_ =? _) = false |- _ => apply Z.eqb_neq in H
           end;
    simpl;
    first
      [ solve [repeat split; congruence]
      | eexists; split; [reflexivity |]; split; [assumption |];
        split; [reflexivity |];
        first
          [ reflexivity
          | match goal with
            | H : negb _ = true |- _ =>
                apply negb_true_iff in H; rewrite H; reflexivity
            end
          | match goal with
            | H : negb _ = false |- _ =>
                apply negb_false_iff in H; rewrite H; reflexivity
            end ] ].
Qed.

(** X21. A history without repetition stays so: the penalty loop never
    meets a token twice. *)
Lemma loop_body_history_nodup (step : Z) (st st' : loop_state Cache)
      (w w' : world Cache Rng) :
  body step st w = (Ok (Continue st'), w') ->
  NoDup (generated_tokens st) -> NoDup (generated_tokens st').
Proof.
  intros H Hnd. apply loop_body_inv in H.
  destruct H as (t & _ & _ & _ & Hg).
  destruct (method_is sampling_method "greedy"); [now rewrite Hg |].
  destruct (mem t (generated_tokens st)) eqn:E; rewrite Hg; [exact Hnd |].
  apply NoDup_app; [exact Hnd | repeat constructor; intros [] |].
  intros a Ha [Heq | []]. subst a. unfold mem in E.
  assert (Ht : existsb (Z.eqb t) (generated_tokens st) = true)
    by (apply existsb_exists; exists t; split; [exact Ha | apply Z.eqb_refl]).
  congruence.
Qed.

(** A run that returns three values with the step count [s] either
    returns the sequence it was entered with, at the iteration it was
    entered at or after no iteration at all, or returns later. *)
Lemma loop_triple (n : nat) :
  forall (step : Z) (st : loop_state Cache) (w w' : world Cache Rng)
         out s lp,
    0 <= step -> Z.of_nat n + step = Z.max 0 steps ->
    run_loop n step st w = (Ok (Triple out s lp), w') ->
    (out = x st /\ (s = step \/ (n = O /\ s = steps))) \/ step < s.
Proof.
  induction n as [| n IH]; intros step st w w' out s lp Hs Hn H.
  - simpl in H. unfold ret in H. injection H as <- <- <- <-.
    left. split; [reflexivity | right; split; reflexivity].
  - unfold run_loop in *. simpl loop in H. unfold bind at 1 in H.
    destruct (loop_body fexp fln multinomial self model temperature top_k
                        top_p tau repetition_penalty sampling_method
                        step st w) as [[r | e] w1] eqn:Hb;
      [| discriminate].
    apply loop_body_inv in Hb. destruct r as [st' | result].
    + apply IH in H; [| lia | lia].
      right. destruct H as [[_ [-> | [-> ->]]] | H]; lia.
    + unfold ret in H. injection H as -> <-.
      destruct Hb as (_ & -> & ->). left. split; [reflexivity | now left].
Qed.

End Loop.
End DecodingFacts.
Import DecodingFacts.

(** C3, on the greedy path. With the prompt "ab"%string the stub model selects
    the token 2 at loop index 0 and the end-of-sequence token 0 at loop
    index 1. Under "greedy", [generate_tokens] returns two values, and its
    sequence ends with the end-of-sequence token after the one generated
    token; [generate_text_from_prompt] then fails to unpack three values.
    Without a method name the same run returns three values and the sequence
    of the prompt and the one generated token. *)
Theorem generate_tokens_greedy_appends_eos :
  Generation.generate_tokens
    exp2 log2 multinomial0 (fun s => s) generator0 model0 5 1%Q
    (Some 2) (Some (1#2)%Q) (Some (1#5)%Q) 1%Q (Some "greedy"%string)
    "ab"%string world0
  = (Ok (Generation.Pair [1; 2; 2; 0] 1),
     {| Generation.calls := [([1; 2], None); ([2], Some 2%nat)];
        Generation.rng := tt |})
  /\ fst (Generation.generate_text_from_prompt
            exp2 log2 multinomial0 (fun s => s) (fun s => s) generator0 model0
            "ab"%string 5 1%Q (Some 2) (Some (1#2)%Q) (Some (1#5)%Q) 1%Q
            (Some "greedy"%string) world0)
     = Raise ValueError
  /\ exists lp,
      Generation.generate_tokens
        exp2 log2 multinomial0 (fun s => s) generator0 model0 5 1%Q
        (Some 2) (Some (1#2)%Q) (Some (1#5)%Q) 1%Q None "ab"%string world0
      = (Ok (Generation.Triple [1; 2; 2] 1 lp),
         {| Generation.calls := [([1; 2], None); ([2], Some 2%nat)];
            Generation.rng := tt |})
      /\ length lp = 2%nat.
Proof.
  split; [vm_compute; reflexivity |].
  split; [vm_compute; reflexivity |].
  eexists. split; [vm_compute; reflexivity | reflexivity].
Qed.

(** C4, on the greedy path. Under "greedy" an iteration that goes on has
    appended a token that is not the end-of-sequence token to the sequence
    and has left the history of generated tokens as it was: the history
    stays empty, and the penalty loop of the next iteration has nothing to
    penalise. *)
Theorem greedy_leaves_history_unchanged
        (fexp fln : Q -> Q) (Cache Rng : Type)
        (multinomial : list Q -> Rng -> res nat * Rng)
        (self : Generation.TextGenerator) (model : Generation.Model Cache)
        (temperature : Q) (top_k : option Z) (top_p tau : option Q)
        (repetition_penalty : Q) (sampling_method : option string)
        (step : Z) (st st' : Generation.loop_state Cache)
        (w w' : Generation.world Cache Rng) :
  Generation.method_is sampling_method "greedy" = true ->
  Generation.loop_body fexp fln multinomial self model temperature
                       top_k top_p tau repetition_penalty sampling_method
                       step st w
  = (Ok (Generation.Continue st'), w') ->
  Generation.generated_tokens st' = Generation.generated_tokens st
  /\ exists t, t <> Generation.pad_token self
               /\ Generation.x st' = Generation.x st ++ [t].
Proof.
  intros Hg H. apply loop_body_inv in H.
  destruct H as (t & Hx & Ht & _ & Hh). rewrite Hg in Hh.
  split; [exact Hh |]. exists t. split; assumption.
Qed.

Lemma greedy_leaves_history_unchanged_witness :
  exists st' w',
    Generation.loop_body
      exp2 log2 multinomial0 generator0 model0 1%Q
      (Some 2) (Some (1#2)%Q) (Some (1#5)%Q) (2#1)%Q (Some "greedy"%string)
      0 (Generation.initial_state nat (fun s => s) generator0 "ab"%string) world0
    = (Ok (Generation.Continue st'), w')
    /\ Generation.x st' = [1; 2; 2]
    /\ Generation.generated_tokens st' = [].
Proof.
  eexists. eexists. split; [vm_compute; reflexivity |].
  split; [reflexivity |].
  refine (proj1 (@greedy_leaves_history_unchanged
                   exp2 log2 nat unit multinomial0 generator0 model0 1%Q
                   (Some 2) (Some (1#2)%Q) (Some (1#5)%Q) (2#1)%Q
                   (Some "greedy"%string) 0
                   (Generation.initial_state nat (fun s => s) generator0 "ab"%string)
                   _ world0 _ eq_refl _)).
  vm_compute. reflexivity.
Defined.

(** C5, as the code has it. [generate_tokens] checks neither the method
    name nor the temperature: whatever they are, a call with at least one
    step starts with a forward call of the model on the prompt, and a name
    that is none of "nucleus", "typical" and "topk" (or no name) leaves the
    logits unfiltered. *)
Theorem generate_tokens_calls_model_first
        (fexp fln : Q -> Q) (Cache Rng : Type)
        (multinomial : list Q -> Rng -> res nat * Rng)
        (str_strip : string -> string)
        (self : Generation.TextGenerator) (model : Generation.Model Cache)
        (steps : Z) (temperature : Q) (top_k : option Z)
        (top_p tau : option Q) (repetition_penalty : Q)
        (sampling_method : option string) (prompt : string)
        (w : Generation.world Cache Rng) :
  0 < steps ->
  (exists rest,
      Generation.calls
        (snd (Generation.generate_tokens
                fexp fln multinomial str_strip self model steps temperature
                top_k top_p tau repetition_penalty sampling_method prompt w))
      = Generation.calls w
        ++ (Generation.x_cond
              (Generation.initial_state Cache str_strip self prompt),
            None) :: rest)
  /\ (Generation.method_is sampling_method "nucleus" = false ->
      Generation.method_is sampling_method "typical" = false ->
      Generation.method_is sampling_method "topk" = false ->
      forall logits,
        Generation.filter_logits fexp fln top_k top_p tau sampling_method
                                 logits
        = Ok (map Generation.Fin logits)).
Proof.
  intros Hsteps. split.
  - unfold Generation.generate_tokens.
    destruct (@loop_calls fexp fln Cache Rng multinomial self model steps
                temperature top_k top_p tau repetition_penalty
                sampling_method (Z.to_nat steps) 0
                (Generation.initial_state Cache str_strip self prompt) w)
      as (rest & Hrest & Hfirst).
    destruct Hfirst as [rest' ->]; [lia |].
    exists rest'. exact Hrest.
  - intros H1 H2 H3 logits. unfold Generation.filter_logits.
    now rewrite H1, H2, H3.
Qed.

Lemma generate_tokens_calls_model_first_witness :
  exists rest,
    Generation.calls
      (snd (Generation.generate_tokens
              exp2 log2 multinomial0 (fun s => s) generator0 model0 5
              (-1)%Q (Some 2) (Some (1#2)%Q) (Some (1#5)%Q) 1%Q
              (Some "beam"%string) "ab"%string world0))
    = [] ++ ([1; 2], None) :: rest.
Proof.
  assert (H : 0 < 5) by lia.
  exact (proj1 (@generate_tokens_calls_model_first
                  exp2 log2 nat unit multinomial0 (fun s => s) generator0
                  model0 5 (-1)%Q (Some 2) (Some (1#2)%Q) (Some (1#5)%Q) 1%Q
                  (Some "beam"%string) "ab"%string world0 H)).
Defined.

(** C5 as stated fails: with the unknown method name "beam" and the
    temperature -1, [generate_tokens] raises nothing; it returns (the
    random source drawing the most probable token, the end of the
    sequence) after one forward call of the model. *)
Lemma generate_tokens_accepts_unknown_method_and_temperature :
  exists lp,
    Generation.generate_tokens
      exp2 log2 multinomial0 (fun s => s) generator0 model0 5 (-1)%Q
      (Some 2) (Some (1#2)%Q) (Some (1#5)%Q) 1%Q (Some "beam"%string)
      "ab"%string world0
    = (Ok (Generation.Triple [1; 2] 0 lp),
       {| Generation.calls := [([1; 2], None)]; Generation.rng := tt |}).
Proof. eexists. vm_compute. reflexivity. Qed.

(** C10, for a return of three values. With the step count 0 the slice
    [tok[0, -0:]] of [token_to_text] is the whole sequence, so
    [token_to_text] returns the decoding of the whole sequence as the new
    text. When [generate_tokens] returns three values with the step count
    0, its sequence is the prompt's tokens, and the newly generated span
    that [generate_text_from_prompt] returns is the decoding of that whole
    sequence. *)
Theorem token_to_text_step_zero_decodes_whole_sequence
        (fexp fln : Q -> Q) (Cache Rng : Type)
        (multinomial : list Q -> Rng -> res nat * Rng)
        (text_standardize str_strip : string -> string)
        (self : Generation.TextGenerator) (model : Generation.Model Cache)
        (prompt : string) (steps : Z) (temperature : Q) (top_k : option Z)
        (top_p tau : option Q) (repetition_penalty : Q)
        (sampling_method : option string)
        (w w' : Generation.world Cache Rng) (out : list Z) (lp : list Q) :
  Generation.generate_tokens
    fexp fln multinomial str_strip self model steps temperature top_k top_p
    tau repetition_penalty sampling_method (text_standardize prompt) w
  = (Ok (Generation.Triple out 0 lp), w') ->
  let decoded := Generation.decode (Generation.tokenizer self) out in
  (forall (input : string) (tok : list Z),
      Generation.token_to_text self input tok 0
      = ((input ++ Generation.decode (Generation.tokenizer self) tok)%string,
         Generation.decode (Generation.tokenizer self) tok))
  /\ out = Generation.encode (Generation.tokenizer self)
                             (str_strip (text_standardize prompt))
  /\ slice_from (- 0) out = out
  /\ Generation.token_to_text self prompt out 0
     = ((prompt ++ decoded)%string, decoded)
  /\ Generation.generate_text_from_prompt
       fexp fln multinomial text_standardize str_strip self model prompt
       steps temperature top_k top_p tau repetition_penalty sampling_method w
     = (Ok ((prompt ++ decoded)%string, decoded, lp), w').
Proof.
  intros H decoded.
  assert (Hall : forall tok : list Z, slice_from (- 0) tok = tok).
  { intros tok. unfold slice_from. simpl.
    replace (Z.min 0 (Z.of_nat (length tok))) with 0 by lia. reflexivity. }
  pose proof (Hall out) as Hslice.
  split; [intros input tok; unfold Generation.token_to_text;
          now rewrite Hall |].
  split; [| split; [exact Hslice | split]].
  - unfold Generation.generate_tokens in H.
    apply loop_triple in H; [| lia | lia].
    destruct H as [[-> _] | H]; [| lia].
    reflexivity.
  - unfold Generation.token_to_text. rewrite Hslice. reflexivity.
  - unfold Generation.generate_text_from_prompt, Generation.bind.
    rewrite H. unfold Generation.token_to_text. rewrite Hslice. reflexivity.
Qed.

Lemma token_to_text_step_zero_decodes_whole_sequence_witness :
  Generation.generate_text_from_prompt
    exp2 log2 multinomial0 (fun s => s) (fun s => s) generator0 model0
    "a"%string 5 1%Q (Some 2) (Some (1#2)%Q) (Some (1#5)%Q) 1%Q None world0
  = (Ok ("aa"%string, "a"%string, [log2 (2#5)]),
     {| Generation.calls := [([1], None)]; Generation.rng := tt |}).
Proof.
  assert (H : Generation.generate_tokens
                exp2 log2 multinomial0 (fun s => s) generator0 model0 5 1%Q
                (Some 2) (Some (1#2)%Q) (Some (1#5)%Q) 1%Q None
                ((fun s : string => s) "a"%string) world0
              = (Ok (Generation.Triple [1] 0 [(-1)%Q]),
                 {| Generation.calls := [([1], None)];
                    Generation.rng := tt |}))
    by (vm_compute; reflexivity).
  exact (proj2 (proj2 (proj2 (proj2
           (@token_to_text_step_zero_decodes_whole_sequence
              exp2 log2 nat unit multinomial0 (fun s => s) (fun s => s)
              generator0 model0 "a"%string 5 1%Q (Some 2) (Some (1#2)%Q)
              (Some (1#5)%Q) 1%Q None world0 _ [1] [(-1)%Q] H))))).
Defined.

(** C10 as stated fails on the greedy path. With the prompt "a"%string the
    stub model selects the end-of-sequence token 0 at the first iteration:
    [generate_tokens] returns with the step count 0, but with two values,
    and [generate_text_from_prompt] raises where it unpacks three: it
    returns no decoding at all. *)
Lemma generate_text_from_prompt_greedy_step_zero_raises :
  fst (Generation.generate_tokens
         exp2 log2 multinomial0 (fun s => s) generator0 model0 5 1%Q
         (Some 2) (Some (1#2)%Q) (Some (1#5)%Q) 1%Q (Some "greedy"%string)
         "a"%string world0)
  = Ok (Generation.Pair [1; 0] 0)
  /\ fst (Generation.generate_text_from_prompt
            exp2 log2 multinomial0 (fun s => s) (fun s => s) generator0 model0
            "a"%string 5 1%Q (Some 2) (Some (1#2)%Q) (Some (1#5)%Q) 1%Q
            (Some "greedy"%string) world0)
     = Raise ValueError
  /\ forall full_gen new_gen lp,
       fst (Generation.generate_text_from_prompt
              exp2 log2 multinomial0 (fun s => s) (fun s => s) generator0
              model0 "a"%string 5 1%Q (Some 2) (Some (1#2)%Q) (Some (1#5)%Q)
              1%Q (Some "greedy"%string) world0)
       <> Ok (full_gen, new_gen, lp).
Proof.
  split; [vm_compute; reflexivity |].
  split; [vm_compute; reflexivity |].
  intros full_gen new_gen lp H.
  assert (E : fst (Generation.generate_text_from_prompt
                     exp2 log2 multinomial0 (fun s => s) (fun s => s)
                     generator0 model0 "a"%string 5 1%Q (Some 2)
                     (Some (1#2)%Q) (Some (1#5)%Q) 1%Q
                     (Some "greedy"%string) world0)
              = Raise ValueError) by (vm_compute; reflexivity).
  rewrite E in H. discriminate.
Qed.

(* ===================================================================== *)
(** * The layout of an accumulation batch                                 *)
(* ===================================================================== *)

Module BatchLayoutFacts.
Import BatchLayout.

Lemma firstn_plus {A : Type} (a b : nat) :
  forall l : list A, firstn (a + b) l = firstn a l ++ firstn b (skipn a l).
Proof.
  induction a as [| a IH]; intros l; [reflexivity |].
  destruct l as [| x l]; simpl; [now rewrite firstn_nil | now rewrite IH].
Qed.

Lemma slice_length {A : Type} (s n : nat) (l : list A) :
  (s + n <= length l)%nat -> length (slice s n l) = n.
Proof.
  intros H. unfold slice. rewrite length_firstn, length_skipn. lia.
Qed.

(** Blocks of one length, laid end to end: the part of the whole that
    starts [s] into block [k] is that part of the block. *)
Lemma slice_concat_block {A : Type} (c : nat) (blocks : list (list A)) :
  Forall (fun b => length b = c) blocks ->
  forall k s n,
    (k < length blocks)%nat -> (s + n <= c)%nat ->
    slice (k * c + s) n (concat blocks) = slice s n (nth k blocks []).
Proof.
  induction 1 as [| b blocks Hb _ IH]; intros k s n Hk Hs;
    [simpl in Hk; lia |].
  destruct k as [| k]; simpl.
  - unfold slice. rewrite skipn_app, firstn_app.
    rewrite length_skipn.
    replace (s - length b)%nat with 0%nat by lia.
    replace (n - (length b - s))%nat with 0%nat by lia.
    simpl. now rewrite app_nil_r.
  - rewrite <- (IH k s n) by (simpl in Hk; lia || exact Hs).
    unfold slice. f_equal.
    replace (c + k * c + s)%nat with (length b + (k * c + s))%nat by lia.
    rewrite skipn_app.
    rewrite skipn_all2 by lia.
    replace (length b + (k * c + s) - length b)%nat with (k * c + s)%nat
      by lia.
    reflexivity.
Qed.

(** Slices that follow one another, laid end to end, are one slice. *)
Lemma concat_slices {A : Type} (c : nat) (l : list A) (m : nat) :
  forall s,
    (s + m * c <= length l)%nat ->
    flat_map (fun o => slice (s + o * c) c l) (seq 0 m)
    = slice s (m * c) l.
Proof.
  induction m as [| m IH]; intros s H; [reflexivity |].
  rewrite seq_S, flat_map_app, IH by lia. simpl. rewrite app_nil_r.
  unfold slice.
  replace (c + m * c)%nat with (m * c + c)%nat by lia.
  rewrite firstn_plus. f_equal.
  rewrite skipn_skipn. f_equal. f_equal. lia.
Qed.

Lemma flat_map_slices_length {A : Type} (l : list A) (c n : nat)
      (start : nat -> nat) :
  (forall i, (i < n)%nat -> (start i + c <= length l)%nat) ->
  length (flat_map (fun i => slice (start i) c l) (seq 0 n)) = (n * c)%nat.
Proof.
  intros H. induction n as [| n IH]; [reflexivity |].
  rewrite seq_S, flat_map_app, length_app, IH by (intros; apply H; lia).
  simpl. rewrite app_nil_r, slice_length by (apply H; lia). lia.
Qed.

(** The batch built from a global batch of [GRAD_ACCUM_STEPS * m]
    examples, and its microbatch [g]. *)
Lemma make_batch_blocks
        (x : tensor Z) (GRAD_ACCUM_STEPS : Z) (m ctx g : nat) :
  well_formed x ->
  0 < GRAD_ACCUM_STEPS ->
  shape x = [(Z.to_nat GRAD_ACCUM_STEPS * m)%nat; ctx] ->
  (g < Z.to_nat GRAD_ACCUM_STEPS)%nat ->
  exists y,
    make_batch GRAD_ACCUM_STEPS x = Some y
    /\ shape y = [m; Z.to_nat GRAD_ACCUM_STEPS; ctx]
    /\ well_formed y
    /\ BenchmarkPjitDp.get_minibatch (Leaf y) (Z.of_nat g)
       = Some (Leaf {| shape := [m; ctx];
                       data := slice (g * m * ctx) (m * ctx) (data x) |}).
Proof.
  intros Hwf Hga Hshape Hg.
  set (ga := Z.to_nat GRAD_ACCUM_STEPS) in *.
  assert (Hga' : (0 < ga)%nat) by (unfold ga; lia).
  assert (Hlen : length (data x) = (ga * m * ctx)%nat).
  { unfold well_formed in Hwf. rewrite Hwf, Hshape. simpl. lia. }
  assert (Hin : forall i j, (i < ga)%nat -> (j < m)%nat ->
                            ((i * m + j) * ctx + ctx <= length (data x))%nat).
  { intros i j Hi Hj. rewrite Hlen.
    assert ((i * m + j + 1) * ctx <= ga * m * ctx)%nat
      by (apply Nat.mul_le_mono_r; nia).
    lia. }
  set (F := fun j => flat_map
                       (fun i => slice ((i * m + j) * ctx) ctx (data x))
                       (seq 0 ga)).
  set (y := {| shape := [m; ga; ctx]; data := flat_map F (seq 0 m) |}).
  assert (HF : forall j, (j < m)%nat -> length (F j) = (ga * ctx)%nat).
  { intros j Hj. unfold F. apply flat_map_slices_length.
    intros i Hi. apply Hin; assumption. }
  assert (Hy : make_batch GRAD_ACCUM_STEPS x = Some y).
  { unfold make_batch. rewrite Hshape.
    destruct (Z.leb_spec GRAD_ACCUM_STEPS 0); [lia |].
    fold ga. unfold BatchLayout.reshape. rewrite Hshape.
    replace (ga * m / ga)%nat with m
      by (rewrite Nat.mul_comm, Nat.div_mul; lia).
    replace (numel [ga; m; ctx] =? numel [(ga * m)%nat; ctx])%nat with true
      by (symmetry; apply Nat.eqb_eq; simpl; lia).
    reflexivity. }
  exists y. split; [exact Hy |]. split; [reflexivity |].
  assert (Hwy : well_formed y).
  { unfold well_formed, y. simpl.
    rewrite flat_map_concat_map.
    assert (G : forall n, (n <= m)%nat ->
                length (concat (map F (seq 0 n))) = (n * (ga * ctx))%nat).
    { induction n as [| n IH]; intros Hn; [reflexivity |].
      rewrite seq_S, map_app, concat_app, length_app, IH by lia.
      simpl. rewrite app_nil_r, HF by lia. lia. }
    rewrite G by lia. lia. }
  split; [exact Hwy |].
  unfold BenchmarkPjitDp.get_minibatch. simpl.
  unfold dynamic_index_in_dim. simpl.
  destruct (Nat.eqb_spec ga 0); [lia |].
  rewrite clamp_index_in_range by lia. rewrite Nat2Z.id.
  cbn [option_map]. do 3 f_equal.
  rewrite !Nat.mul_1_r.
  rewrite <- (concat_slices ctx (data x) m (g * m * ctx))
    by (rewrite Hlen; nia).
  rewrite !flat_map_concat_map. f_equal.
  apply map_ext_in. intros o Ho. apply in_seq in Ho.
  rewrite <- flat_map_concat_map.
  replace ((o * ga + g) * ctx)%nat with (o * (ga * ctx) + g * ctx)%nat
    by lia.
  rewrite flat_map_concat_map.
  rewrite (@slice_concat_block Z (ga * ctx) (map F (seq 0 m))).
  - rewrite (nth_indep _ [] (F 0%nat)) by (rewrite length_map, length_seq; lia).
    rewrite map_nth, seq_nth by lia. simpl.
    unfold F. rewrite flat_map_concat_map.
    replace (g * ctx)%nat with (g * ctx + 0)%nat by lia.
    rewrite (@slice_concat_block Z ctx).
    + rewrite (nth_indep _ [] (slice ((0 * m + o) * ctx) ctx (data x)))
        by (rewrite length_map, length_seq; lia).
      rewrite (map_nth (fun i => slice ((i * m + o) * ctx) ctx (data x))),
        seq_nth by lia.
      simpl. unfold slice at 1. simpl.
      rewrite firstn_all2 by (rewrite slice_length; [lia | apply Hin; lia]).
      f_equal. lia.
    + apply Forall_map, Forall_forall. intros i Hi. apply in_seq in Hi.
      apply slice_length. apply Hin; lia.
    + rewrite length_map, length_seq. lia.
    + lia.
  - apply Forall_map, Forall_forall. intros j Hj. apply in_seq in Hj.
    apply HF. lia.
  - rewrite length_map, length_seq. lia.
  - nia.
Qed.

End BatchLayoutFacts.
Import BatchLayoutFacts.

(** X1. The batch that benchmark_pjit_dp.py builds from a global batch of
    [GRAD_ACCUM_STEPS * m] examples has the accumulation axis second, and
    its microbatch [g] is the block of the [m] examples
    [g * m, ..., g * m + m - 1] of the global batch, in their order. *)
Theorem make_batch_microbatches_are_blocks
        (x : tensor Z) (GRAD_ACCUM_STEPS : Z) (m ctx g : nat) :
  well_formed x ->
  0 < GRAD_ACCUM_STEPS ->
  shape x = [(Z.to_nat GRAD_ACCUM_STEPS * m)%nat; ctx] ->
  (g < Z.to_nat GRAD_ACCUM_STEPS)%nat ->
  exists y,
    BatchLayout.make_batch GRAD_ACCUM_STEPS x = Some y
    /\ shape y = [m; Z.to_nat GRAD_ACCUM_STEPS; ctx]
    /\ well_formed y
    /\ BenchmarkPjitDp.get_minibatch (Leaf y) (Z.of_nat g)
       = Some (Leaf {| shape := [m; ctx];
                       data := slice (g * m * ctx) (m * ctx) (data x) |}).
Proof.
  intros Hwf Hga Hshape Hg.
  exact (@make_batch_blocks x GRAD_ACCUM_STEPS m ctx g Hwf Hga Hshape Hg).
Qed.

Lemma make_batch_microbatches_are_blocks_witness :
  exists y,
    BatchLayout.make_batch 2 global_batch0 = Some y
    /\ BenchmarkPjitDp.get_minibatch (Leaf y) 1
       = Some (Leaf {| shape := [2; 2]%nat; data := [31; 32; 41; 42] |}).
Proof.
  destruct (@make_batch_microbatches_are_blocks global_batch0 2 2 2 1)
    as (y & Hy & _ & _ & Hmb);
    [reflexivity | lia | reflexivity | simpl; lia |].
  exists y. split; [exact Hy | exact Hmb].
Defined.

(** X2. Where the number of accumulation steps does not divide the number
    of examples (of examples that are not empty), the reshape of
    benchmark_pjit_dp.py raises: no batch is built. *)
Theorem make_batch_raises_on_indivisible_batch
        (A : Type) (x : tensor A) (GRAD_ACCUM_STEPS : Z)
        (b : nat) (rest : list nat) :
  0 < GRAD_ACCUM_STEPS ->
  shape x = b :: rest ->
  (0 < numel rest)%nat ->
  (b mod Z.to_nat GRAD_ACCUM_STEPS <> 0)%nat ->
  BatchLayout.make_batch GRAD_ACCUM_STEPS x = None.
Proof.
  intros Hga Hshape Hrest Hmod.
  set (ga := Z.to_nat GRAD_ACCUM_STEPS) in *.
  unfold BatchLayout.make_batch. rewrite Hshape.
  destruct (Z.leb_spec GRAD_ACCUM_STEPS 0); [lia |].
  fold ga. unfold BatchLayout.reshape. rewrite Hshape.
  destruct (Nat.eqb_spec (numel (ga :: (b / ga)%nat :: rest))
                         (numel (b :: rest))) as [E |]; [| reflexivity].
  exfalso. simpl in E.
  assert (Hga' : ga <> 0%nat) by (unfold ga; lia).
  pose proof (Nat.div_mod_eq b ga) as Hdiv.
  assert (ga * (b / ga) < b)%nat by lia.
  nia.
Qed.

Lemma make_batch_raises_on_indivisible_batch_witness :
  BatchLayout.make_batch 3 global_batch0 = None.
Proof.
  apply (@make_batch_raises_on_indivisible_batch Z global_batch0 3 4 [2]%nat);
    [lia | reflexivity | simpl; lia | compute; lia].
Defined.

(* ===================================================================== *)
(** * More on the training step                                           *)
(* ===================================================================== *)

Module TrainEdgeFacts.

Lemma map_opt_none_iff {A B : Type} (f : A -> option B) (l : list A) :
  map_opt f l = None <-> Exists (fun a => f a = None) l.
Proof.
  induction l as [| a l IH]; simpl.
  - split; [discriminate | intros H; inversion H].
  - destruct (f a) as [b |] eqn:E.
    + destruct (map_opt f l) as [bs |].
      * split; [discriminate |]. intros H.
        inversion H as [? ? Ha | ? ? Hl]; subst; [congruence |].
        apply IH in Hl. discriminate.
      * split; [| reflexivity]. intros _. right. now apply IH.
    + split; [| reflexivity]. intros _. now left.
Qed.

(** A walk with a leaf function that can raise fails exactly when the
    function raises on a leaf. *)
Lemma tree_map_opt_none_iff {A B : Type} (f : A -> option B) (t : pytree A) :
  tree_map_opt f t = None <-> Exists (fun x => f x = None) (tree_leaves t).
Proof.
  induction t as [x | ts IH] using pytree_ind'.
  - simpl. destruct (f x) eqn:E; simpl.
    + split; [discriminate |]. intros H.
      inversion H as [? ? Hx | ? ? Hn]; subst; [congruence | inversion Hn].
    + split; [| reflexivity]. intros _. now left.
  - simpl.
    assert (G : map_opt (tree_map_opt f) ts = None
                <-> Exists (fun x => f x = None) (flat_map tree_leaves ts)).
    { rewrite map_opt_none_iff.
      induction IH as [| t ts Ht _ IHts]; simpl.
      - split; intros H; inversion H.
      - rewrite Exists_app, Exists_cons, Ht, IHts. reflexivity. }
    destruct (map_opt (tree_map_opt f) ts) eqn:E; simpl.
    + split; [discriminate |]. intros H. apply G in H. discriminate.
    + split; [| reflexivity]. intros _. now apply G.
Qed.

(** Whatever the index, the microbatch of a leaf with a non-empty
    accumulation axis is the selection at the index brought into the
    axis. *)
Lemma get_minibatch_clamped (batch : pytree (tensor Z)) (d : nat) (idx : Z) :
  all_leaves (fun x => well_formed x /\ nth_error (shape x) 1 = Some d) batch ->
  (0 < d)%nat ->
  XmapTrain.get_minibatch batch idx
  = Some (microbatch batch (clamp_index d idx)).
Proof.
  intros H Hd. unfold XmapTrain.get_minibatch, microbatch.
  apply tree_map_opt_all
    with (P := fun x => well_formed x /\ nth_error (shape x) 1 = Some d);
    [| exact H].
  intros x [Hwf Hx].
  exact (@dynamic_index_in_dim_select _ 0 x idx 1 d Hwf Hx Hd).
Qed.

End TrainEdgeFacts.
Import TrainEdgeFacts.

(** X3. For an index that is a 32-bit integer, as jax takes it,
    [get_minibatch] raises exactly when some leaf of the batch has no
    second axis or an empty one; such an index never makes it raise. Where
    it raises, so does [train_step] for every positive number of
    accumulation steps. *)
Theorem get_minibatch_raises_iff_no_accumulation_axis
        (batch : pytree (tensor Z)) (idx : Z) :
  is_int32 idx ->
  let no_axis := fun x : tensor Z =>
                   match nth_error (shape x) 1 with
                   | None => True
                   | Some d => d = 0%nat
                   end in
  (XmapTrain.get_minibatch batch idx = None
   <-> Exists no_axis (tree_leaves batch))
  /\ (BenchmarkPjitDp.get_minibatch batch idx = None
      <-> Exists no_axis (tree_leaves batch))
  /\ (Exists no_axis (tree_leaves batch) ->
      forall (T : Type) (add : T -> T -> T) (zeros_like : T -> T)
             (div_int : T -> Z -> T) (exp : T -> T) (zero : T)
             (pmean : T -> T)
             (grad_fn : pytree T -> pytree (tensor Z) -> T * pytree T)
             (params : pytree T) (accum_steps : Z),
        0 < accum_steps ->
        XmapTrain.train_step add zeros_like div_int exp zero pmean grad_fn
                             params batch accum_steps = None).
Proof.
  intros _ no_axis.
  assert (G : forall i, XmapTrain.get_minibatch batch i = None
                        <-> Exists no_axis (tree_leaves batch)).
  { intros i. unfold XmapTrain.get_minibatch.
    rewrite tree_map_opt_none_iff.
    split; intros H; (eapply Exists_impl; [| exact H]);
      intros x Hx; unfold no_axis, dynamic_index_in_dim in *;
      destruct (nth_error (shape x) 1) as [d |]; try exact I;
        try reflexivity.
    - destruct (Nat.eqb_spec d 0); [assumption | discriminate].
    - subst d. reflexivity. }
  split; [apply G |]. split; [apply G |].
  intros Hbad T add zeros_like div_int exp zero pmean grad_fn params
         accum_steps Hsteps.
  unfold XmapTrain.train_step, XmapTrain.accumulate, fori_loop.
  destruct (Z.to_nat (accum_steps - 0)) as [| n] eqn:E; [lia |].
  simpl. unfold XmapTrain.cumul_minibatch_step at 1.
  unfold XmapTrain.loss_and_grad.
  rewrite (proj2 (G 0) Hbad). reflexivity.
Qed.

(** X4. With more accumulation steps than the accumulation axis has
    positions, [train_step] does not fail: every step beyond the axis adds
    the last microbatch once more, and the result is the mean over the [N]
    microbatches so counted. *)
Theorem train_step_counts_last_microbatch_again
        (T : Type) (add : T -> T -> T) (zeros_like : T -> T)
        (div_int : T -> Z -> T) (exp : T -> T) (zero : T) (pmean : T -> T)
        (grad_fn : pytree T -> pytree (tensor Z) -> T * pytree T)
        (params : pytree T) (batch : pytree (tensor Z)) (d N : nat) :
  all_leaves (fun x => well_formed x /\ nth_error (shape x) 1 = Some d) batch ->
  (0 < d)%nat ->
  let lgs :=
    map (fun i => grad_fn params (microbatch batch (Nat.min i (d - 1))))
        (seq 0 N) in
  Forall (fun lg => treedef (snd lg) = treedef params) lgs ->
  exists r,
    XmapTrain.accumulate add zeros_like div_int zero grad_fn
                         params batch (Z.of_nat N) = Some r
    /\ accumulated_mean add zeros_like div_int zero params lgs r
    /\ XmapTrain.train_step add zeros_like div_int exp zero pmean grad_fn
                            params batch (Z.of_nat N)
       = Some (tree_map pmean (snd r),
               XmapTrain.mkMetrics (pmean (fst r)) (exp (pmean (fst r)))).
Proof.
  intros Hbatch Hd lgs Hdef.
  assert (Hlen : length lgs = N)
    by (unfold lgs; now rewrite length_map, length_seq).
  destruct (@accumulated_mean_of_loop T add zeros_like div_int zero
              (XmapTrain.loss_and_grad grad_fn params batch)
              (XmapTrain.cumul_minibatch_step add grad_fn params batch)
              params lgs) as (loss & grads & Hloop & Hmean).
  - intros i acc. apply cumul_minibatch_step_add_step.
  - intros i x Hi. apply nth_error_map_seq in Hi. destruct Hi as [Hi ->].
    unfold XmapTrain.loss_and_grad.
    rewrite (get_minibatch_clamped (Z.of_nat i) Hbatch Hd).
    do 3 f_equal. unfold clamp_index.
    destruct (Z.ltb_spec (Z.of_nat i) 0); lia.
  - exact Hdef.
  - rewrite Hlen in Hloop, Hmean.
    eexists. unfold XmapTrain.train_step, XmapTrain.accumulate.
    rewrite Hloop. split; [reflexivity |]. split; [exact Hmean |].
    reflexivity.
Qed.

Lemma train_step_counts_last_microbatch_again_witness :
  exists r,
    XmapTrain.accumulate Qplus q_zeros_like q_div_int 0%Q grad_fn0
                         params0 batch0 3 = Some r
    /\ fst r = q_div_int (0 + 23 + 43 + 43)%Q 3.
Proof.
  assert (H1 : all_leaves
                 (fun x => well_formed x /\ nth_error (shape x) 1 = Some 2%nat)
                 batch0).
  { unfold all_leaves. simpl. constructor; [| constructor].
    split; reflexivity. }
  assert (H2 : Forall (fun lg => treedef (snd lg) = treedef params0)
                      (map (fun i => grad_fn0 params0
                                       (microbatch batch0 (Nat.min i (2 - 1))))
                           (seq 0 3))).
  { simpl. repeat constructor. }
  destruct (@train_step_counts_last_microbatch_again
              Q Qplus q_zeros_like q_div_int (fun x => x) 0%Q (fun x => x)
              grad_fn0 params0 batch0 2 3 H1 ltac:(lia) H2)
    as (r & Hacc & (Hloss & _) & _).
  exists r. split; [exact Hacc | exact Hloss].
Defined.

(** X5. When the parameters conform to the partition spec and the deltas
    of the update rule have the structure of the parameters,
    [update_opt_state] returns parameters of that structure whose every
    leaf is the old leaf plus the delta of that leaf, and the new optimizer
    state of the update rule; when the parameters do not conform it raises
    (the update rule's result is not used). *)
Theorem update_opt_state_adds_deltas_leafwise
        (T : Type) (add : T -> T -> T) (PartitionSpecs OptState : Type)
        (conforms : pytree T -> PartitionSpecs -> bool)
        (grads : pytree T) (optimizer_state : OptState) (params : pytree T)
        (optimizer : XmapTrain.GradientTransformation T OptState)
        (grad_spec : PartitionSpecs) :
  let deltas :=
    fst (XmapTrain.update optimizer params optimizer_state params) in
  let new_state :=
    snd (XmapTrain.update optimizer params optimizer_state params) in
  (conforms params grad_spec = false ->
   XmapTrain.update_opt_state add conforms grads optimizer_state params
                              optimizer grad_spec = None)
  /\ (conforms params grad_spec = true ->
      treedef deltas = treedef params ->
      exists new_params,
        XmapTrain.update_opt_state add conforms grads optimizer_state params
                                   optimizer grad_spec
        = Some (new_params, new_state)
        /\ treedef new_params = treedef params
        /\ forall p v,
            leaf_at p params = Some v ->
            exists u, leaf_at p deltas = Some u
                      /\ leaf_at p new_params = Some (add v u)).
Proof.
  intros deltas new_state. split.
  - intros H. unfold XmapTrain.update_opt_state,
      XmapTrain.with_sharding_constraint. now rewrite H.
  - intros Hc Hd. unfold XmapTrain.update_opt_state,
      XmapTrain.with_sharding_constraint. rewrite Hc.
    unfold deltas, new_state in *.
    destruct (XmapTrain.update optimizer params optimizer_state params)
      as [updates st'] eqn:E. simpl in *.
    unfold XmapTrain.apply_updates.
    destruct (@tree_map2_some _ _ _ add params updates Hd) as [np Hnp].
    rewrite Hc, E, Hnp. exists np. split; [reflexivity |].
    split; [exact (proj1 (tree_map2_treedef _ _ _ Hnp)) |].
    intros p v Hp. exact (leaf_at_tree_map2 _ _ _ Hnp _ Hp).
Qed.

Lemma update_opt_state_adds_deltas_leafwise_witness :
  exists new_params,
    XmapTrain.update_opt_state Qplus (fun _ (_ : unit) => true)
                               params0 tt params0 sgd tt
    = Some (new_params, tt)
    /\ treedef new_params = treedef params0.
Proof.
  destruct (@update_opt_state_adds_deltas_leafwise
              Q Qplus unit unit (fun _ _ => true) params0 tt params0 sgd tt)
    as [_ H].
  destruct (H eq_refl eq_refl) as (np & Hnp & Hd & _).
  exists np. split; [exact Hnp | exact Hd].
Defined.

(* ===================================================================== *)
(** * The cache as a window on the positions seen                         *)
(* ===================================================================== *)

Module CacheWindowFacts.
Import Layers CacheSpec.

Lemma slice_from_last {A : Type} (n : Z) (l : list A) :
  0 < n -> slice_from (- n) l = skipn (length l - Z.to_nat n) l.
Proof.
  intros H. unfold slice_from.
  destruct (Z.ltb_spec (- n) 0); [| lia].
  f_equal. lia.
Qed.

(** The last positions of a longer sequence are found from the last
    positions of its beginning. *)
Lemma slice_from_app {A : Type} (n : Z) (s t : list A) :
  0 < n ->
  slice_from (- n) (slice_from (- n) s ++ t) = slice_from (- n) (s ++ t).
Proof.
  intros H. rewrite !slice_from_last by exact H.
  set (b := Z.to_nat n). assert (Hb : (0 < b)%nat) by (unfold b; lia).
  rewrite !skipn_app, !length_app, !length_skipn, skipn_skipn.
  f_equal; f_equal; lia.
Qed.

Lemma slice_from_congr {A : Type} (n : Z) (s s' t : list A) :
  0 < n ->
  slice_from (- n) s = slice_from (- n) s' ->
  slice_from (- n) (s ++ t) = slice_from (- n) (s' ++ t).
Proof.
  intros H E.
  rewrite <- (slice_from_app s t H), <- (slice_from_app s' t H).
  now rewrite E.
Qed.

Lemma slice_from_idem {A : Type} (n : Z) (s : list A) :
  0 < n -> slice_from (- n) (slice_from (- n) s) = slice_from (- n) s.
Proof.
  intros H. pose proof (slice_from_app s [] H) as E.
  now rewrite !app_nil_r in E.
Qed.

Section Heads.
Variable row : Type.
Variable block_size : Z.
Hypothesis block_size_pos : 0 < block_size.

Lemma last_positions_idem (x : heads row) :
  last_positions block_size (last_positions block_size x)
  = last_positions block_size x.
Proof.
  unfold last_positions. rewrite map_map. apply map_ext. intros h.
  rewrite map_map. apply map_ext. intros s.
  now apply slice_from_idem.
Qed.

(** Tensors with the same last positions, extended by the same
    positions, have the same last positions. *)
Lemma concatenate_positions_congr (x y k xk : heads row) :
  last_positions block_size x = last_positions block_size y ->
  concatenate_positions x k = Some xk ->
  exists yk,
    concatenate_positions y k = Some yk
    /\ last_positions block_size xk = last_positions block_size yk.
Proof.
  unfold concatenate_positions, last_positions.
  revert y k xk. induction x as [| hx x IH]; intros y k xk E H.
  - destruct y; [| discriminate]. destruct k; [| discriminate].
    injection H as <-. exists []. split; reflexivity.
  - destruct y as [| hy y]; [discriminate |].
    destruct k as [| hk k]; [discriminate |].
    simpl in E. injection E as Eh Et.
    apply zip_with_exact_cons in H.
    destruct H as (c & cs & -> & Hc & Hcs).
    destruct (IH y k cs Et Hcs) as (yk & Hyk & Elast).
    assert (G : exists d,
               zip_with_exact (fun s t => Some (s ++ t)) hy hk = Some d
               /\ map (slice_from (- block_size)) c
                  = map (slice_from (- block_size)) d).
    { clear - Eh Hc block_size_pos. revert hy hk c Eh Hc.
      induction hx as [| s hx IHh]; intros hy hk c Eh Hc.
      - destruct hy; [| discriminate]. destruct hk; [| discriminate].
        injection Hc as <-. exists []. split; reflexivity.
      - destruct hy as [| s' hy]; [discriminate |].
        destruct hk as [| t hk]; [discriminate |].
        simpl in Eh. injection Eh as Es Er.
        apply zip_with_exact_cons in Hc.
        destruct Hc as (u & us & -> & Hu & Hus). injection Hu as <-.
        destruct (IHh hy hk us Er Hus) as (d & Hd & Ed).
        exists ((s' ++ t) :: d). simpl. rewrite Hd. split; [reflexivity |].
        rewrite Ed. f_equal.
        now apply slice_from_congr. }
    destruct G as (d & Hd & Ed).
    exists (d :: yk). simpl. rewrite Hd, Hyk. split; [reflexivity |].
    now rewrite Ed, Elast.
Qed.

Lemma decode_steps_window :
  forall (inputs : list (heads row * heads row))
         (pk pv seen_k seen_v : heads row) c,
    inputs <> [] ->
    last_positions block_size pk = last_positions block_size seen_k ->
    last_positions block_size pv = last_positions block_size seen_v ->
    decode_steps block_size (Some (pk, pv)) inputs = Some c ->
    exists all_k all_v,
      all_positions seen_k (map fst inputs) = Some all_k
      /\ all_positions seen_v (map snd inputs) = Some all_v
      /\ c = Some (last_positions block_size all_k,
                   last_positions block_size all_v).
Proof.
  induction inputs as [| [k v] rest IH];
    intros pk pv seen_k seen_v c Hne Ek Ev H; [congruence |].
  simpl in H.
  destruct (concatenate_positions pk k) as [xk |] eqn:Hxk; [| discriminate].
  destruct (concatenate_positions pv v) as [xv |] eqn:Hxv; [| discriminate].
  destruct (@concatenate_positions_congr pk seen_k k xk Ek Hxk)
    as (yk & Hyk & Elk).
  destruct (@concatenate_positions_congr pv seen_v v xv Ev Hxv)
    as (yv & Hyv & Elv).
  simpl. rewrite Hyk, Hyv.
  destruct rest as [| kv rest].
  - simpl in H. injection H as <-. exists yk, yv.
    repeat split. now rewrite Elk, Elv.
  - apply (IH _ _ yk yv) in H;
      [exact H | discriminate
       | now rewrite last_positions_idem | now rewrite last_positions_idem].
Qed.

End Heads.
End CacheWindowFacts.
Import CacheWindowFacts.

(** X6. After two or more calls with [use_cache=True] the cache is a
    window on what was seen: it holds the last [block_size] positions
    (for a positive [block_size]) of all the keys, and of all the values,
    of the calls so far, concatenated in the order of the calls - whatever
    the length of the first call. *)
Theorem attention_cache_is_window_on_positions_seen
        (row : Type) (block_size : Z)
        (key0 value0 key1 value1 : Layers.heads row)
        (rest : list (Layers.heads row * Layers.heads row))
        (c : option (Layers.heads row * Layers.heads row)) :
  0 < block_size ->
  Layers.decode_steps block_size None
                      ((key0, value0) :: (key1, value1) :: rest) = Some c ->
  exists all_k all_v,
    CacheSpec.all_positions key0 (key1 :: map fst rest) = Some all_k
    /\ CacheSpec.all_positions value0 (value1 :: map snd rest) = Some all_v
    /\ c = Some (Layers.last_positions block_size all_k,
                 Layers.last_positions block_size all_v).
Proof.
  intros Hb H. simpl in H.
  change (Layers.decode_steps block_size (Some (key0, value0))
                              ((key1, value1) :: rest) = Some c) in H.
  exact (@decode_steps_window row block_size Hb ((key1, value1) :: rest)
           key0 value0 key0 value0 c ltac:(discriminate) eq_refl eq_refl H).
Qed.

Lemma attention_cache_is_window_on_positions_seen_witness :
  exists all_k all_v,
    CacheSpec.all_positions [[[1; 2; 3]]] [[[[7]]]] = Some all_k
    /\ CacheSpec.all_positions [[[4; 5; 6]]] [[[[8]]]] = Some all_v
    /\ Some ([[[3; 7]]], [[[6; 8]]])
       = Some (Layers.last_positions 2 all_k, Layers.last_positions 2 all_v).
Proof.
  exact (@attention_cache_is_window_on_positions_seen
           Z 2 [[[1; 2; 3]]] [[[4; 5; 6]]] [[[7]]] [[[8]]] []
           (Some ([[[3; 7]]], [[[6; 8]]])) ltac:(lia) eq_refl).
Defined.

(* ===================================================================== *)
(** * The ALiBi slopes and mask                                           *)
(* ===================================================================== *)

Module AlibiFacts.
Import Alibi.

Lemma every_other_length {A : Type} (c : nat) :
  forall l : list A, length l = (2 * c)%nat -> length (every_other l) = c.
Proof.
  induction c as [| c IH]; intros l H.
  - destruct l; [reflexivity | discriminate].
  - destruct l as [| a [| b l]]; try (simpl in H; lia).
    simpl. f_equal. apply IH. simpl in H. lia.
Qed.

Lemma is_power_of_2_double (n : Z) :
  0 < n -> is_power_of_2 (2 * 2 ^ Z.log2 n) = true.
Proof.
  intros H. unfold is_power_of_2. apply Z.eqb_eq.
  pose proof (Z.log2_nonneg n) as Hl.
  rewrite <- Z.pow_succ_r by exact Hl.
  rewrite Z.log2_pow2 by lia. reflexivity.
Qed.

Lemma combine_seq_map {A : Type} (R : nat -> A) (n : nat) :
  forall s, combine (seq s n) (map R (seq s n))
            = map (fun i => (i, R i)) (seq s n).
Proof.
  induction n as [| n IH]; intros s; [reflexivity |].
  simpl. now rewrite IH.
Qed.

Lemma combine_repeat_map {A B C : Type} (f : A * B -> C) (a : A)
      (g : nat -> B) (n : nat) :
  forall s, map f (combine (repeat a n) (map g (seq s n)))
            = map (fun j => f (a, g j)) (seq s n).
Proof.
  induction n as [| n IH]; intros s; [reflexivity |].
  simpl. now rewrite IH.
Qed.

(** The matrix of lines 177-182, entry by entry: minus the distance of the
    key position [j] from the query position [i] where the key is not
    after the query, and zero elsewhere. *)
Lemma alibi_distances_entries (k : nat) :
  alibi_distances k
  = map (fun i =>
           map (fun j => if (j <=? i)%nat
                         then - (Z.of_nat i - Z.of_nat j) else 0)
               (seq 0 k))
        (seq 0 k).
Proof.
  unfold alibi_distances, arange, tril.
  rewrite !map_map.
  set (R := fun i : nat =>
              map (fun vo : Z * Z => fst vo + snd vo)
                  (combine (repeat (Z.of_nat i) k)
                           (map (fun x => - Z.of_nat x) (seq 0 k)))).
  rewrite length_map, length_seq.
  change (map (fun x : nat => R x) (seq 0 k)) with (map R (seq 0 k)).
  rewrite combine_seq_map, !map_map.
  apply map_ext. intros i. simpl.
  unfold R. rewrite combine_repeat_map. simpl.
  rewrite length_map, length_seq.
  rewrite (combine_seq_map
             (fun j => Z.of_nat i + - Z.of_nat j) k 0), !map_map.
  apply map_ext. intros j. simpl.
  destruct (j <=? i)%nat; [lia | reflexivity].
Qed.

End AlibiFacts.
Import AlibiFacts.

(** X7. [get_slopes n] raises for [n <= 0] and returns exactly [n] slopes
    for every [n >= 1], a power of two or not. *)
Theorem get_slopes_returns_n_slopes
        (F : Type) (pow2 : Q -> F) (fmul : F -> F -> F)
        (fpow : F -> nat -> F) (n : Z) :
  (n <= 0 -> Alibi.get_slopes pow2 fmul fpow n = None)
  /\ (1 <= n ->
      exists slopes,
        Alibi.get_slopes pow2 fmul fpow n = Some slopes
        /\ length slopes = Z.to_nat n).
Proof.
  unfold Alibi.get_slopes. split; intros H.
  - simpl. destruct (Z.leb_spec n 0); [reflexivity | lia].
  - cbn [Alibi.get_slopes_rec].
    destruct (Z.leb_spec n 0); [lia |].
    destruct (Alibi.is_power_of_2 n) eqn:Ep.
    + eexists. split; [reflexivity |].
      unfold Alibi.get_slopes_power_of_2.
      now rewrite length_map, length_seq.
    + assert (Hn0 : 0 < n) by lia.
      pose proof (Z.log2_spec n Hn0) as [Hlo Hhi].
      pose proof (Z.log2_nonneg n) as Hl.
      rewrite Z.pow_succ_r in Hhi by exact Hl.
      set (c := 2 ^ Z.log2 n) in *.
      assert (Hc : 0 < c) by (unfold c; apply Z.pow_pos_nonneg; lia).
      assert (Hne : c <> n).
      { intros E. unfold Alibi.is_power_of_2 in Ep.
        apply Z.eqb_neq in Ep. apply Ep. exact E. }
      destruct (Z.leb_spec (2 * c) 0); [lia |].
      unfold c at 1. assert (Hn : 0 < n) by lia.
      rewrite (is_power_of_2_double Hn). fold c.
      eexists. split; [reflexivity |].
      rewrite length_app. unfold Alibi.get_slopes_power_of_2 at 1.
      rewrite length_map, length_seq.
      unfold slice_to. destruct (Z.ltb_spec (n - c) 0); [lia |].
      rewrite length_firstn.
      rewrite (@every_other_length F (Z.to_nat c)).
      * lia.
      * unfold Alibi.get_slopes_power_of_2.
        rewrite length_map, length_seq. lia.
Qed.

Lemma get_slopes_returns_n_slopes_witness :
  exists slopes,
    Alibi.get_slopes e_pow2 e_mul e_pow 6 = Some slopes
    /\ length slopes = 6%nat.
Proof.
  exact (proj2 (@get_slopes_returns_n_slopes Q e_pow2 e_mul e_pow 6)
               ltac:(lia)).
Defined.

(** X8. For at least one key position, the ALiBi mask has one row per
    head, and its entry for the key position [j] is the slope of the head
    times minus the distance of [j] from the last position: zero at the
    last position. Without key positions the read of the last row
    raises. *)
Theorem alibi_mask_is_slope_times_distance_to_last
        (F : Type) (scale : F -> Z -> F) (slopes : list F)
        (seq_len_k : nat) :
  (seq_len_k = 0%nat -> Alibi.alibi_mask scale slopes seq_len_k = None)
  /\ ((0 < seq_len_k)%nat ->
      Alibi.alibi_mask scale slopes seq_len_k
      = Some (map (fun s =>
                     map (fun j =>
                            scale s (- (Z.of_nat (seq_len_k - 1)
                                        - Z.of_nat j)))
                         (seq 0 seq_len_k))
                  slopes)).
Proof.
  split; intros H; unfold Alibi.alibi_mask.
  - subst. reflexivity.
  - destruct (Nat.eqb_spec seq_len_k 0); [lia |].
    f_equal. rewrite map_map. apply map_ext. intros s.
    rewrite alibi_distances_entries.
    set (G := fun i => map (fun j => if (j <=? i)%nat
                                     then - (Z.of_nat i - Z.of_nat j) else 0)
                           (seq 0 seq_len_k)).
    change (map (fun i => G i) (seq 0 seq_len_k))
      with (map G (seq 0 seq_len_k)).
    rewrite (nth_indep _ [] (map (scale s) (G 0%nat)))
      by (rewrite !length_map, length_seq; lia).
    rewrite (map_nth (map (scale s))), (map_nth G), seq_nth by lia.
    unfold G. rewrite map_map. apply map_ext_in. intros j Hj.
    apply in_seq in Hj. simpl.
    destruct (Nat.leb_spec j (seq_len_k - 1)); [reflexivity | lia].
Qed.

Lemma alibi_mask_is_slope_times_distance_to_last_witness :
  Alibi.alibi_mask (fun (s : Q) z => (s * inject_Z z)%Q) [1#2; 1#4]%Q 3
  = Some [[(1#2) * inject_Z (-2); (1#2) * inject_Z (-1); (1#2) * inject_Z 0];
          [(1#4) * inject_Z (-2); (1#4) * inject_Z (-1);
           (1#4) * inject_Z 0]]%Q.
Proof.
  exact (proj2 (@alibi_mask_is_slope_times_distance_to_last
                  Q (fun s z => (s * inject_Z z)%Q) [1#2; 1#4]%Q 3)
               ltac:(lia)).
Defined.

(* ===================================================================== *)
(** * top_k_logits                                                        *)
(* ===================================================================== *)

Module TopKFacts.
Import Generation.

Lemma enumerate_fst {A : Type} (l : list A) : map fst (enumerate l) = l.
Proof.
  unfold enumerate. generalize 0%nat.
  induction l as [| x l IH]; intros s; simpl; [reflexivity |].
  now rewrite IH.
Qed.

(** The sorted values are the values of the input, rearranged. *)
Lemma torch_sort_values_perm (descending : bool) (l : list Q) :
  Permutation (fst (torch_sort descending l)) l.
Proof.
  unfold torch_sort. rewrite split_map. simpl.
  rewrite <- (enumerate_fst l) at 2.
  apply Permutation_map, sort_by_perm.
Qed.

Lemma filter_length_perm {A : Type} (f : A -> bool) (l l' : list A) :
  Permutation l l' -> length (filter f l) = length (filter f l').
Proof.
  induction 1 as [| x l l' _ IH | x y l | l l' l'' _ IH1 _ IH2]; simpl.
  - reflexivity.
  - destruct (f x); simpl; now rewrite IH.
  - destruct (f x), (f y); reflexivity.
  - now rewrite IH1.
Qed.

Lemma strongly_sorted_app {A : Type} (R : A -> A -> Prop) (a b : list A) :
  StronglySorted R (a ++ b) ->
  forall x y, In x a -> In y b -> R x y.
Proof.
  induction a as [| h a IH]; intros H x y Hx Hy; [contradiction |].
  simpl in H. inversion H as [| ? ? Hs Hall]; subst.
  destruct Hx as [-> | Hx].
  - rewrite Forall_forall in Hall. apply Hall. apply in_or_app. now right.
  - now apply IH.
Qed.

Lemma strongly_sorted_app_r {A : Type} (R : A -> A -> Prop) (a b : list A) :
  StronglySorted R (a ++ b) -> StronglySorted R b.
Proof.
  induction a as [| h a IH]; intros H; [exact H |].
  simpl in H. inversion H; subst. now apply IH.
Qed.

Lemma filter_none {A : Type} (f : A -> bool) (l : list A) :
  Forall (fun a => f a = false) l -> filter f l = [].
Proof.
  induction 1 as [| a l Ha _ IH]; simpl; [reflexivity |].
  now rewrite Ha.
Qed.

Lemma skipn_nth_cons {A : Type} (d : A) (l : list A) :
  forall m, (m < length l)%nat -> skipn m l = nth m l d :: skipn (S m) l.
Proof.
  induction l as [| a l IH]; intros m Hm; [simpl in Hm; lia |].
  destruct m as [| m]; [reflexivity |].
  simpl in Hm. change (skipn m l = nth m l d :: skipn (S m) l).
  apply IH. lia.
Qed.

End TopKFacts.
Import TopKFacts.

(** X9. For [1 <= k <= ] the size of the vocabulary, [top_k_logits]
    returns the logits with every entry below a threshold set to minus
    infinity and the others unchanged. The threshold is one of the logits,
    at least [k] logits are not below it (they are kept; more than [k]
    where logits tie with it) and fewer than [k] are above it: it is the
    [k]-th largest logit. *)
Theorem top_k_logits_keeps_k_largest (logits : list Q) (k : Z) :
  1 <= k <= Z.of_nat (length logits) ->
  exists kth,
    In kth logits
    /\ Generation.top_k_logits logits k
       = Ok (map (fun x => if Generation.Qltb x kth
                           then Generation.NegInf else Generation.Fin x)
                 logits)
    /\ (Z.to_nat k <= length (filter (fun x => Qle_bool kth x) logits))%nat
    /\ (length (filter (fun x => Generation.Qltb kth x) logits)
        < Z.to_nat k)%nat.
Proof.
  intros Hk.
  set (sorted := fst (Generation.torch_sort true logits)).
  pose proof (torch_sort_values_perm true logits) as Hperm.
  pose proof (torch_sort_spec true logits) as Hspec.
  pose proof (torch_sort_length true logits) as [Hlen _].
  rewrite (surjective_pairing (Generation.torch_sort true logits)) in Hspec.
  destruct Hspec as (_ & _ & Hsorted).
  fold sorted in Hperm, Hsorted, Hlen.
  apply Sorted_StronglySorted in Hsorted.
  2:{ intros a b c Hab Hbc. eapply Qle_trans; eassumption. }
  set (n := Z.to_nat k).
  assert (Hn : (1 <= n <= length sorted)%nat) by (unfold n; lia).
  set (kth := nth (n - 1) sorted 0%Q).
  assert (Hsplit : sorted = firstn (n - 1) sorted ++ kth :: skipn n sorted).
  { rewrite <- (firstn_skipn (n - 1) sorted) at 1. f_equal.
    rewrite (@skipn_nth_cons Q 0%Q sorted (n - 1)) by lia.
    fold kth. do 2 f_equal. lia. }
  exists kth. split; [| split; [| split]].
  - eapply Permutation_in; [exact Hperm |].
    rewrite Hsplit. apply in_or_app. right. now left.
  - unfold Generation.top_k_logits.
    destruct (Z.ltb_spec k 0); [lia |].
    destruct (Z.ltb_spec (Z.of_nat (length logits)) k); [lia |].
    simpl orb. cbv iota. fold sorted. fold n.
    assert (Hlv : length (firstn n sorted) = n)
      by (rewrite length_firstn; lia).
    unfold index. rewrite Hlv.
    destruct (Z.ltb_spec (-1) 0); [| lia].
    destruct (Z.leb_spec 0 (-1 + Z.of_nat n)); [| lia].
    destruct (Z.ltb_spec (-1 + Z.of_nat n) (Z.of_nat n)); [| lia].
    cbn [andb res_bind].
    replace (Z.to_nat (-1 + Z.of_nat n)) with (n - 1)%nat by lia.
    rewrite nth_firstn.
    destruct (Nat.ltb_spec (n - 1) n); [| lia].
    reflexivity.
  - rewrite <- (filter_length_perm (fun x => Qle_bool kth x) Hperm).
    rewrite Hsplit at 1.
    rewrite filter_app, length_app. simpl.
    assert (Hrefl : Qle_bool kth kth = true)
      by (apply Qle_bool_iff, Qle_refl).
    rewrite Hrefl. simpl.
    rewrite filter_all.
    + rewrite length_firstn. lia.
    + apply Forall_forall. intros x Hx. apply Qle_bool_iff.
      rewrite Hsplit in Hsorted.
      apply (@strongly_sorted_app Q (fun a b : Q => (b <= a)%Q) _ _
                                  Hsorted x kth Hx).
      now left.
  - rewrite <- (filter_length_perm (fun x => Generation.Qltb kth x) Hperm).
    rewrite Hsplit at 1.
    rewrite filter_app, length_app.
    rewrite (@filter_none Q _ (kth :: skipn n sorted)).
    + simpl. pose proof (filter_length_le (fun x => Generation.Qltb kth x)
                                          (firstn (n - 1) sorted)) as Hle.
      rewrite length_firstn in Hle. lia.
    + constructor.
      * apply Qltb_ge, Qle_refl.
      * apply Forall_forall. intros y Hy. apply Qltb_ge.
        rewrite Hsplit in Hsorted.
        apply strongly_sorted_app_r in Hsorted.
        inversion Hsorted as [| ? ? _ Hall]; subst.
        rewrite Forall_forall in Hall. now apply Hall.
Qed.

Lemma top_k_logits_keeps_k_largest_witness :
  exists kth,
    In kth [0; 3; 1; 3; 2]%Q
    /\ Generation.top_k_logits [0; 3; 1; 3; 2]%Q 2
       = Ok (map (fun x => if Generation.Qltb x kth
                           then Generation.NegInf else Generation.Fin x)
                 [0; 3; 1; 3; 2]%Q).
Proof.
  destruct (@top_k_logits_keeps_k_largest [0; 3; 1; 3; 2]%Q 2)
    as (kth & Hin & Hcode & _); [simpl; lia |].
  exists kth. split; [exact Hin | exact Hcode].
Defined.

(** X10. [top_k_logits] returns exactly for [1 <= k <= ] the size of the
    vocabulary, then with one entry per token: a [k] below zero or above
    that size raises in [torch.topk], and [k = 0] raises in the read of
    the last of no values. *)
Theorem top_k_logits_returns_iff_k_in_range (logits : list Q) (k : Z) :
  ((k < 0 \/ Z.of_nat (length logits) < k) ->
   Generation.top_k_logits logits k = Raise RuntimeError)
  /\ (k = 0 -> Generation.top_k_logits logits k = Raise IndexError)
  /\ (1 <= k <= Z.of_nat (length logits) ->
      exists out, Generation.top_k_logits logits k = Ok out
                  /\ length out = length logits).
Proof.
  unfold Generation.top_k_logits. split; [| split]; intros H.
  - destruct (Z.ltb_spec k 0); [reflexivity |].
    destruct (Z.ltb_spec (Z.of_nat (length logits)) k); [reflexivity | lia].
  - subst k. simpl.
    destruct (Z.ltb_spec (Z.of_nat (length logits)) 0); [lia |].
    reflexivity.
  - destruct (Z.ltb_spec k 0); [lia |].
    destruct (Z.ltb_spec (Z.of_nat (length logits)) k); [lia |].
    simpl orb. cbv iota.
    pose proof (torch_sort_length true logits) as [Hlen _].
    set (v := firstn (Z.to_nat k) (fst (Generation.torch_sort true logits))).
    assert (Hlv : length v = Z.to_nat k)
      by (unfold v; rewrite length_firstn; lia).
    unfold index. rewrite Hlv.
    destruct (Z.ltb_spec (-1) 0); [| lia].
    destruct (Z.leb_spec 0 (-1 + Z.of_nat (Z.to_nat k))); [| lia].
    destruct (Z.ltb_spec (-1 + Z.of_nat (Z.to_nat k))
                         (Z.of_nat (Z.to_nat k))); [| lia].
    cbn [andb res_bind]. eexists. split; [reflexivity |].
    now rewrite length_map.
Qed.

Lemma top_k_logits_returns_iff_k_in_range_witness :
  Generation.top_k_logits [0; 3; 1; 3; 2]%Q 6 = Raise RuntimeError
  /\ Generation.top_k_logits [0; 3; 1; 3; 2]%Q 0 = Raise IndexError.
Proof.
  destruct (@top_k_logits_returns_iff_k_in_range [0; 3; 1; 3; 2]%Q 6)
    as (H1 & _).
  destruct (@top_k_logits_returns_iff_k_in_range [0; 3; 1; 3; 2]%Q 0)
    as (_ & H2 & _).
  split; [apply H1; right; simpl; lia | apply H2; reflexivity].
Defined.

(* ===================================================================== *)
(** * More on the repetition penalty and on typical sampling              *)
(* ===================================================================== *)

Lemma update_nth_same {A : Type} (d : A) (l : list A) :
  forall n, update_nth n (nth n l d) l = l.
Proof.
  induction l as [| a l IH]; intros [| n]; simpl; try reflexivity.
  now rewrite IH.
Qed.

Lemma Qmult_1_r_eq (v : Q) : (v * 1)%Q = v.
Proof.
  destruct v as [n d]. unfold Qmult. simpl.
  now rewrite Z.mul_1_r, Pos.mul_1_r.
Qed.

Lemma Qdiv_1_r_eq (v : Q) : (v / 1)%Q = v.
Proof. unfold Qdiv. simpl. apply Qmult_1_r_eq. Qed.

Lemma index_ok_iff {A : Type} (l : list A) (i : Z) :
  (exists j, index l i = Ok j /\ (j < length l)%nat)
  <-> - Z.of_nat (length l) <= i < Z.of_nat (length l).
Proof.
  unfold index.
  destruct (Z.ltb_spec i 0);
    match goal with
    | |- context [(0 <=? ?j) && (?j <? ?n)] =>
        destruct (Z.leb_spec 0 j); destruct (Z.ltb_spec j n)
    end; simpl; split; intros H';
    try lia; try (destruct H' as (j & Hj & _); discriminate);
    eexists; (split; [reflexivity | lia]).
Qed.

(** X11. The penalty loop raises, with an [IndexError], exactly when some
    token of the history is no index of the logits (an index is at least
    minus the size of the vocabulary and below it); otherwise it returns
    one logit per token. *)
Theorem apply_repetition_penalty_raises_iff_token_out_of_vocabulary
        (repetition_penalty : Q) (history : list Z) :
  forall logits : list Q,
    let in_vocabulary :=
      fun t => - Z.of_nat (length logits) <= t < Z.of_nat (length logits) in
    (Generation.apply_repetition_penalty repetition_penalty history logits
     = Raise IndexError
     <-> Exists (fun t => ~ in_vocabulary t) history)
    /\ (Forall in_vocabulary history ->
        exists out,
          Generation.apply_repetition_penalty repetition_penalty history
                                              logits = Ok out
          /\ length out = length logits).
Proof.
  induction history as [| t rest IH]; intros logits in_vocabulary.
  - simpl. split.
    + split; [discriminate | intros H; inversion H].
    + intros _. exists logits. split; reflexivity.
  - simpl.
    pose proof (index_ok_iff logits t) as Hidx.
    destruct (index logits t) as [j | e] eqn:E; simpl.
    + assert (Hin : in_vocabulary t).
      { apply Hidx. unfold index in E.
        destruct (Z.ltb_spec t 0);
          match type of E with
          | context [(0 <=? ?a) && (?a <? ?n)] =>
              destruct (Z.leb_spec 0 a); destruct (Z.ltb_spec a n)
          end; simpl in E; try discriminate; injection E as <-;
          eexists; (split; [reflexivity | lia]). }
      match goal with
      | |- context [update_nth j ?v logits] => set (v' := v)
      end.
      destruct (IH (update_nth j v' logits)) as [IH1 IH2].
      rewrite update_nth_length in IH1, IH2.
      split.
      * rewrite IH1. rewrite Exists_cons. tauto.
      * intros Hall. inversion Hall; subst. now apply IH2.
    + assert (He : e = IndexError).
      { unfold index in E.
        destruct (_ && _) in E; [discriminate | congruence]. }
      subst e. split.
      * split; [| reflexivity]. intros _. left. intros Hin.
        apply Hidx in Hin. destruct Hin as (j & Hj & _). discriminate.
      * intros Hall. inversion Hall as [| ? ? Hin _]; subst.
        apply Hidx in Hin. destruct Hin as (j & Hj & _). discriminate.
Qed.

(** X12. With the penalty 1.0, the default, the penalty loop returns the
    logits as they are, for every history within the vocabulary. *)
Theorem apply_repetition_penalty_one_changes_nothing (history : list Z) :
  forall logits : list Q,
    Forall (fun t => - Z.of_nat (length logits) <= t
                     < Z.of_nat (length logits)) history ->
    Generation.apply_repetition_penalty 1 history logits = Ok logits.
Proof.
  induction history as [| t rest IH]; intros logits H; [reflexivity |].
  inversion H as [| ? ? Ht Hrest]; subst. simpl.
  destruct (proj2 (index_ok_iff logits t) Ht) as (j & -> & Hj). simpl.
  rewrite Qmult_1_r_eq, Qdiv_1_r_eq.
  destruct (Generation.Qltb (nth j logits 0%Q) 0);
    rewrite update_nth_same; now apply IH.
Qed.

Lemma apply_repetition_penalty_one_changes_nothing_witness :
  Generation.apply_repetition_penalty 1 [1; 2; 1; -1] [1; -1; 3]%Q
  = Ok [1; -1; 3]%Q.
Proof.
  apply apply_repetition_penalty_one_changes_nothing.
  repeat constructor; simpl; lia.
Defined.

Lemma apply_repetition_penalty_spec_witness :
  exists out,
    Generation.apply_repetition_penalty 2 [1; 2] [1; -1; 3]%Q = Ok out
    /\ length out = 3%nat
    /\ nth_error out 1 = Some (-1 * 2)%Q
    /\ nth_error out 2 = Some (3 / 2)%Q.
Proof.
  assert (H1 : NoDup [1; 2]).
  { constructor; [intros [H | []]; discriminate |].
    constructor; [intros [] | constructor]. }
  assert (H2 : Forall (fun t => 0 <= t < Z.of_nat (length [1; -1; 3]%Q))
                      [1; 2]) by (repeat constructor; simpl; lia).
  destruct (@apply_repetition_penalty_spec 2 [1; 2] H1 [1; -1; 3]%Q H2)
    as (out & Hout & Hlen & Hnth).
  exists out. split; [exact Hout |]. split; [exact Hlen |].
  split; [exact (Hnth 1%nat (-1)%Q eq_refl) | exact (Hnth 2%nat 3%Q eq_refl)].
Defined.

Lemma typical_sampling_logits_keeps_min_tokens_witness :
  exists kept : list nat,
    NoDup kept
    /\ length kept = 2%nat
    /\ forall i, In i kept ->
                 nth_error [Generation.NegInf; Generation.Fin 3;
                            Generation.Fin 1; Generation.NegInf] i
                 = Some (Generation.Fin (nth i [0; 3; 1; 0]%Q 0%Q)).
Proof.
  exact (@TypicalFacts.typical_sampling_logits_keeps_min_tokens
           exp2 log2 [0; 3; 1; 0]%Q (1#10)%Q 2 Generation.NegInf
           [Generation.NegInf; Generation.Fin 3; Generation.Fin 1;
            Generation.NegInf]
           ltac:(lia) ltac:(vm_compute; reflexivity)).
Defined.

(* ===================================================================== *)
(** * A whole run of generate_tokens                                      *)
(* ===================================================================== *)

Module DecodingRunFacts.
Import Generation DecodingSpec.

Section Run.
Variable fexp : Q -> Q.
Variable fln : Q -> Q.
Variable Cache : Type.
Variable Rng : Type.
Variable multinomial : list Q -> Rng -> res nat * Rng.
Variable str_strip : string -> string.
Variable self : TextGenerator.
Variable model : Model Cache.
Variable steps : Z.
Variable temperature : Q.
Variable top_k : option Z.
Variable top_p : option Q.
Variable tau : option Q.
Variable repetition_penalty : Q.
Variable sampling_method : option string.

Let body :=
  loop_body fexp fln multinomial self model temperature top_k top_p tau
            repetition_penalty sampling_method.
Let run_loop :=
  loop fexp fln multinomial self model steps temperature top_k top_p tau
       repetition_penalty sampling_method.
Let greedy := method_is sampling_method "greedy".

(** What one iteration does to the cache, to the log-probabilities and
    to the random source. *)
Lemma loop_body_step (step : Z) (st : loop_state Cache)
      (w w' : world Cache Rng) (r : step_result Cache) :
  body step st w = (Ok r, w') ->
  exists logits c,
    model (x_cond st) (layer_past st) = Ok (logits, c)
    /\ calls w' = calls w ++ [(x_cond st, layer_past st)]
    /\ match r with
       | Continue st' =>
           layer_past st' = Some c
           /\ if greedy
              then logprobs st' = logprobs st /\ rng w' = rng w
              else length (logprobs st') = S (length (logprobs st))
       | Return _ (Pair _ _) => rng w' = rng w
       | Return _ (Triple _ _ lp) =>
           length lp = S (length (logprobs st))
       end.
Proof.
  unfold greedy, body, loop_body, bind, call_model, lift, sample, ret.
  intros H.
  destruct (model (x_cond st) (layer_past st)) as [[logits c] | e] eqn:Hm;
    [| simpl in H; discriminate].
  exists logits, c. split; [reflexivity |].
  repeat (simpl in H; try discriminate; break_match_hyp H);
    simpl in H; injection H as <- <-; simpl;
    repeat split; try reflexivity;
    rewrite ?length_app; simpl; lia.
Qed.

(** The greedy path never draws from the random source. *)
Lemma loop_body_greedy_rng (step : Z) (st : loop_state Cache)
      (w : world Cache Rng) :
  greedy = true -> rng (snd (body step st w)) = rng w.
Proof.
  unfold greedy, body, loop_body, bind, call_model, lift, sample, ret.
  intros ->.
  repeat (simpl; try reflexivity; break_match_goal).
Qed.

Lemma loop_greedy_rng (n : nat) :
  greedy = true ->
  forall (step : Z) (st : loop_state Cache) (w : world Cache Rng),
    rng (snd (run_loop n step st w)) = rng w.
Proof.
  intros Hg. induction n as [| n IH]; intros step st w; [reflexivity |].
  pose proof (loop_body_greedy_rng step st w Hg) as Hb.
  unfold run_loop, body in *. simpl loop. unfold bind at 1.
  destruct (loop_body fexp fln multinomial self model temperature top_k
                      top_p tau repetition_penalty sampling_method
                      step st w) as [[r | e] w1]; simpl in Hb.
  - destruct r as [st' | result]; [| exact Hb].
    now rewrite IH.
  - exact Hb.
Qed.

(** A run of [n] iterations from the loop index [step] that returns:
    the tokens it has appended, none of them the end-of-sequence token,
    the forward calls it has made, and what it returns. *)
Lemma loop_run (n : nat) :
  forall (step : Z) (st : loop_state Cache) (w w' : world Cache Rng)
         (r : tokens_result),
    run_loop n step st w = (Ok r, w') ->
    exists gen,
      Forall (fun t => t <> pad_token self) gen
      /\ calls w'
         = calls w
           ++ firstn n (incremental model (x_cond st) (layer_past st) gen)
      /\ match r with
         | Triple out s lp =>
             out = x st ++ gen
             /\ ((s = steps /\ length gen = n
                  /\ if greedy then lp = logprobs st
                     else length lp = (length (logprobs st) + n)%nat)
                 \/ (s = step + Z.of_nat (length gen)
                     /\ (length gen < n)%nat /\ greedy = false
                     /\ length lp
                        = (length (logprobs st) + S (length gen))%nat))
         | Pair out s =>
             out = x st ++ gen ++ [pad_token self]
             /\ s = step + Z.of_nat (length gen)
             /\ (length gen < n)%nat /\ greedy = true
         end.
Proof.
  induction n as [| n IH]; intros step st w w' r H.
  - simpl in H. unfold ret in H. injection H as <- <-.
    exists []. split; [constructor |]. simpl.
    rewrite !app_nil_r. split; [reflexivity |]. split; [reflexivity |].
    left. split; [reflexivity |]. split; [reflexivity |].
    destruct greedy; [reflexivity | lia].
  - unfold run_loop in *. simpl loop in H. unfold bind at 1 in H.
    destruct (loop_body fexp fln multinomial self model temperature top_k
                        top_p tau repetition_penalty sampling_method
                        step st w) as [[r1 | e] w1] eqn:Hb;
      [| discriminate].
    pose proof (@loop_body_inv fexp fln Cache Rng multinomial self model
                  temperature top_k top_p tau repetition_penalty
                  sampling_method step st w w1 r1 Hb) as Hinv.
    pose proof (loop_body_step step st w Hb) as (logits & c & Hm & Hc & Hst).
    destruct r1 as [st' | result].
    + destruct Hinv as (t & Hx & Ht & Hxc & _).
      destruct Hst as (Hlp & Hlog).
      apply IH in H. destruct H as (gen & Hgen & Hcalls & Hr).
      exists (t :: gen). split; [constructor; assumption |].
      split.
      * rewrite Hcalls, Hc, <- app_assoc, Hxc, Hlp. simpl.
        now rewrite Hm.
      * fold greedy in Hlog.
        destruct r as [out s | out s lp]; rewrite Hx, <- app_assoc in Hr;
          simpl in Hr |- *.
        -- destruct Hr as (-> & -> & Hlt & Hg).
           repeat split;
          first [assumption | reflexivity | simpl; lia].
        -- destruct Hr as (-> & Hr). split; [reflexivity |].
           destruct Hr as [(-> & Hlen & Hl) | (-> & Hlen & Hg & Hl)].
           ++ left. split; [reflexivity |]. split; [lia |].
              destruct greedy.
              ** destruct Hlog as (Hlog & _). congruence.
              ** lia.
           ++ right. rewrite Hg in Hlog.
              repeat split;
          first [assumption | reflexivity | simpl; lia].
    + unfold ret in H. injection H as -> <-.
      exists []. split; [constructor |]. split; [rewrite Hc; simpl; now rewrite firstn_nil |].
      destruct r as [out s | out s lp]; simpl.
      * destruct Hinv as (Hg & -> & ->).
        repeat split;
          first [assumption | reflexivity | simpl; lia].
      * destruct Hinv as (Hg & -> & ->).
        split; [now rewrite app_nil_r |]. right.
        repeat split;
          first [assumption | reflexivity | simpl; lia].
Qed.

Let spec_distribution :=
  distribution fexp fln temperature top_k top_p tau repetition_penalty
               sampling_method.
Let spec_sample_tokens :=
  sample_tokens fexp fln multinomial model (pad_token self) temperature
                top_k top_p tau repetition_penalty sampling_method.

(** One iteration on a sampling path: the token it draws, from which
    distribution, and what it does with it. *)
Lemma loop_body_sampling (step : Z) (st : loop_state Cache)
      (w w' : world Cache Rng) (r : step_result Cache) :
  greedy = false ->
  body step st w = (Ok r, w') ->
  exists logits c probs drawn p,
    model (x_cond st) (layer_past st) = Ok (logits, c)
    /\ spec_distribution logits (generated_tokens st) = Ok probs
    /\ multinomial probs (rng w) = (Ok drawn, rng w')
    /\ nth_error probs drawn = Some p
    /\ match r with
       | Continue st' =>
           Z.of_nat drawn <> pad_token self
           /\ x st' = x st ++ [Z.of_nat drawn]
           /\ x_cond st' = [Z.of_nat drawn]
           /\ layer_past st' = Some c
           /\ generated_tokens st'
              = (if mem (Z.of_nat drawn) (generated_tokens st)
                 then generated_tokens st
                 else generated_tokens st ++ [Z.of_nat drawn])
           /\ logprobs st' = logprobs st ++ [fln p]
       | Return _ (Pair _ _) => False
       | Return _ (Triple out s lp) =>
           Z.of_nat drawn = pad_token self
           /\ out = x st /\ s = step
           /\ lp = logprobs st ++ [fln p]
       end.
Proof.
  unfold greedy, body, loop_body, bind, call_model, lift, sample, ret.
  unfold spec_distribution, distribution.
  intros Hg H. rewrite Hg in H.
  destruct (model (x_cond st) (layer_past st)) as [[logits c] | e] eqn:Hm;
    [| simpl in H; discriminate].
  simpl in H.
  destruct (index logits (-1)) as [j | e] eqn:Hj;
    [| simpl in H; discriminate].
  simpl in H |- *.
  destruct (apply_repetition_penalty repetition_penalty
              (generated_tokens st)
              (map (fun l : Q => (l / temperature)%Q) (nth j logits [])))
    as [penalised | e] eqn:Hp; [| simpl in H; discriminate].
  simpl in H |- *.
  destruct (filter_logits fexp fln top_k top_p tau sampling_method
                          penalised) as [filtered | e] eqn:Hf;
    [| simpl in H; discriminate].
  simpl in H |- *.
  destruct (multinomial (softmax fexp filtered) (rng w))
    as [[drawn | e] g'] eqn:Hd; [| simpl in H; discriminate].
  simpl in H.
  destruct (nth_error (softmax fexp filtered) drawn) as [p |] eqn:Hn;
    [| simpl in H; discriminate].
  simpl in H.
  exists logits, c, (softmax fexp filtered), drawn, p.
  split; [reflexivity |].
  split; [rewrite Hj; simpl; rewrite Hp; simpl; now rewrite Hf |].
  destruct (Z.eqb_spec (Z.of_nat drawn) (pad_token self)) as [E | E];
    injection H as <- <-; simpl.
  - repeat split; assumption.
  - split; [exact Hd |]. split; [exact Hn |].
    repeat split; try assumption.
    destruct (mem (Z.of_nat drawn) (generated_tokens st)); reflexivity.
Qed.

(** The loop on a sampling path does what sampling is specified to do. *)
Lemma loop_sampling (n : nat) :
  greedy = false ->
  forall (step : Z) (st : loop_state Cache) (w w' : world Cache Rng)
         (r : tokens_result),
    run_loop n step st w = (Ok r, w') ->
    exists gen eos lps,
      spec_sample_tokens n (x_cond st) (layer_past st)
                         (generated_tokens st) (rng w)
      = Some (gen, eos, lps, rng w')
      /\ r = Triple (x st ++ gen)
                    (if eos then step + Z.of_nat (length gen) else steps)
                    (logprobs st ++ lps).
Proof.
  intros Hg. induction n as [| n IH]; intros step st w w' r H.
  - simpl in H. unfold ret in H. injection H as <- <-.
    exists [], false, []. simpl. now rewrite !app_nil_r.
  - unfold run_loop in *. simpl loop in H. unfold bind at 1 in H.
    destruct (loop_body fexp fln multinomial self model temperature top_k
                        top_p tau repetition_penalty sampling_method
                        step st w) as [[r1 | e] w1] eqn:Hb;
      [| discriminate].
    destruct (loop_body_sampling step st w Hg Hb)
      as (logits & c & probs & drawn & p & Hm & Hdist & Hdraw & Hp & Hr).
    unfold spec_sample_tokens, spec_distribution in *.
    simpl sample_tokens. rewrite Hm, Hdist, Hdraw, Hp.
    destruct r1 as [st' | result].
    + destruct Hr as (Hne & Hx & Hxc & Hlp & Hh & Hlog).
      apply Z.eqb_neq in Hne. rewrite Hne.
      apply IH in H. destruct H as (gen & eos & lps & Hspec & ->).
      rewrite Hxc, Hlp, Hh in Hspec. rewrite Hspec.
      exists (Z.of_nat drawn :: gen), eos, (fln p :: lps).
      split; [reflexivity |].
      rewrite Hx, Hlog, <- !app_assoc. simpl.
      destruct eos; [| reflexivity].
      f_equal. lia.
    + unfold ret in H. injection H as -> <-.
      destruct r as [out s | out s lp]; [contradiction |].
      destruct Hr as (He & -> & -> & ->).
      apply Z.eqb_eq in He. rewrite He.
      exists [], true, [fln p]. split; [reflexivity |].
      rewrite app_nil_r. simpl. f_equal. lia.
Qed.

End Run.

(** What sampling as specified returns: no end-of-sequence token among the
    tokens, all [n] tokens and their log-probabilities when that token was
    not drawn, fewer and one log-probability more when it was. *)
Lemma sample_tokens_shape
      (fexp fln : Q -> Q) (Cache Rng : Type)
      (multinomial : list Q -> Rng -> res nat * Rng)
      (model : Model Cache) (pad : Z) (temperature : Q)
      (top_k : option Z) (top_p tau : option Q) (repetition_penalty : Q)
      (sampling_method : option string) (n : nat) :
  forall (x_cond : list Z) (layer_past : option Cache) (history : list Z)
         (g g' : Rng) (gen : list Z) (eos : bool) (lps : list Q),
    sample_tokens fexp fln multinomial model pad temperature top_k top_p tau
                  repetition_penalty sampling_method n x_cond layer_past
                  history g
    = Some (gen, eos, lps, g') ->
    Forall (fun t => t <> pad) gen
    /\ if eos then (length gen < n)%nat /\ length lps = S (length gen)
       else length gen = n /\ length lps = n.
Proof.
  induction n as [| n IH];
    intros x_cond layer_past history g g' gen eos lps H.
  - simpl in H. injection H as <- <- <- <-. split; [constructor |].
    split; reflexivity.
  - simpl in H.
    destruct (model x_cond layer_past) as [[logits c] | e];
      [| discriminate].
    destruct (distribution fexp fln temperature top_k top_p tau
                           repetition_penalty sampling_method logits history)
      as [probs | e]; [| discriminate].
    destruct (multinomial probs g) as [[drawn | e] g1]; [| discriminate].
    destruct (nth_error probs drawn) as [p |]; [| discriminate].
    destruct (Z.eqb_spec (Z.of_nat drawn) pad) as [E | E].
    + injection H as <- <- <- <-. split; [constructor |].
      simpl. split; [lia | reflexivity].
    + match type of H with
      | context [sample_tokens ?a ?b ?c ?d ?e ?f ?g0 ?h ?i ?j ?k ?l ?m ?o
                               ?q ?r0] =>
          destruct (sample_tokens a b c d e f g0 h i j k l m o q r0)
            as [[[[ts eos1] lps1] g2] |] eqn:Hrec; [| discriminate]
      end.
      injection H as <- <- <- <-.
      apply IH in Hrec. destruct Hrec as (Hall & Hlen).
      split; [constructor; assumption |].
      destruct eos1; simpl; lia.
Qed.

End DecodingRunFacts.
Import DecodingRunFacts.

(** X13. On every path but the greedy one, a run of [generate_tokens]
    that returns, returns three values, and they are those of sampling as
    specified: the tokens of the prompt followed by the tokens drawn from
    the random source, each from the distribution of the logits the model
    returned for the token before, none of which is the end-of-sequence
    token; the number of these tokens as step count where the
    end-of-sequence token was drawn, and [steps] otherwise; and the
    log-probability of every draw. The random source is left as the draws
    leave it. Either every one of the [steps] iterations has appended its
    token, or the run has stopped early at a draw of the end-of-sequence
    token, whose log-probability is the one more than there are tokens. *)
Theorem generate_tokens_sampling_returns_prompt_then_samples
        (fexp fln : Q -> Q) (Cache Rng : Type)
        (multinomial : list Q -> Rng -> res nat * Rng)
        (str_strip : string -> string)
        (self : Generation.TextGenerator) (model : Generation.Model Cache)
        (steps : Z) (temperature : Q) (top_k : option Z)
        (top_p tau : option Q) (repetition_penalty : Q)
        (sampling_method : option string) (prompt : string)
        (w w' : Generation.world Cache Rng) (r : Generation.tokens_result) :
  Generation.method_is sampling_method "greedy" = false ->
  Generation.generate_tokens fexp fln multinomial str_strip self model steps
    temperature top_k top_p tau repetition_penalty sampling_method prompt w
  = (Ok r, w') ->
  exists gen eos lp,
    DecodingSpec.sample_tokens fexp fln multinomial model
      (Generation.pad_token self) temperature top_k top_p tau
      repetition_penalty sampling_method (Z.to_nat steps)
      (Generation.x_cond (Generation.initial_state Cache str_strip self
                                                   prompt))
      None [] (Generation.rng w)
    = Some (gen, eos, lp, Generation.rng w')
    /\ r = Generation.Triple
            (Generation.encode (Generation.tokenizer self) (str_strip prompt)
             ++ gen)
            (if eos then Z.of_nat (length gen) else steps) lp
    /\ Forall (fun t => t <> Generation.pad_token self) gen
    /\ if eos
       then Z.of_nat (length gen) < steps /\ length lp = S (length gen)
       else length gen = Z.to_nat steps /\ length lp = length gen.
Proof.
  intros Hg H. unfold Generation.generate_tokens in H.
  apply loop_sampling in H; [| exact Hg].
  destruct H as (gen & eos & lps & Hspec & ->).
  exists gen, eos, lps. split; [exact Hspec |].
  split; [simpl; now destruct eos |].
  apply sample_tokens_shape in Hspec. destruct Hspec as (Hall & Hlen).
  split; [exact Hall |].
  destruct eos; destruct Hlen as (Hl1 & Hl2); split; lia.
Qed.

Lemma generate_tokens_sampling_returns_prompt_then_samples_witness :
  exists gen eos lp,
    DecodingSpec.sample_tokens exp2 log2
      (fun (_ : list Q) (g : nat) => (Ok 3%nat, S g)) model0
      (Generation.pad_token generator0) 1%Q (Some 2) (Some (1#2)%Q)
      (Some (1#5)%Q) 1%Q None (Z.to_nat 2)
      (Generation.x_cond (Generation.initial_state nat (fun s => s)
                                                   generator0 "ab"%string))
      None [] 0%nat
    = Some (gen, eos, lp, 2%nat)
    /\ Generation.Triple [1; 2; 3; 3] 2 [(-2)%Q; (-2)%Q]
       = Generation.Triple
           (Generation.encode (Generation.tokenizer generator0) "ab"%string
            ++ gen)
           (if eos then Z.of_nat (length gen) else 2) lp
    /\ Forall (fun t => t <> Generation.pad_token generator0) gen
    /\ if eos
       then Z.of_nat (length gen) < 2 /\ length lp = S (length gen)
       else length gen = Z.to_nat 2 /\ length lp = length gen.
Proof.
  exact (@generate_tokens_sampling_returns_prompt_then_samples
           exp2 log2 nat nat (fun (_ : list Q) (g : nat) => (Ok 3%nat, S g))
           (fun s => s) generator0 model0
           2 1%Q (Some 2) (Some (1#2)%Q) (Some (1#5)%Q) 1%Q None
           "ab"%string
           {| Generation.calls := []; Generation.rng := 0%nat |}
           {| Generation.calls := [([1; 2], None); ([3], Some 2%nat)];
              Generation.rng := 2%nat |}
           (Generation.Triple [1; 2; 3; 3] 2 [(-2)%Q; (-2)%Q])
           eq_refl ltac:(vm_compute; reflexivity)).
Defined.

(** X14. On the greedy path, a run of [generate_tokens] that returns
    either stops at the end-of-sequence token and returns two values, the
    tokens of the prompt, the tokens selected before and the
    end-of-sequence token itself, with the number of tokens selected before
    as step count; or it has run all its iterations and returns three
    values, the tokens of the prompt and one token for each iteration, with
    no log-probability at all. *)
Theorem generate_tokens_greedy_returns_eos_or_no_logprobs
        (fexp fln : Q -> Q) (Cache Rng : Type)
        (multinomial : list Q -> Rng -> res nat * Rng)
        (str_strip : string -> string)
        (self : Generation.TextGenerator) (model : Generation.Model Cache)
        (steps : Z) (temperature : Q) (top_k : option Z)
        (top_p tau : option Q) (repetition_penalty : Q)
        (sampling_method : option string) (prompt : string)
        (w w' : Generation.world Cache Rng) (r : Generation.tokens_result) :
  Generation.method_is sampling_method "greedy" = true ->
  Generation.generate_tokens fexp fln multinomial str_strip self model steps
    temperature top_k top_p tau repetition_penalty sampling_method prompt w
  = (Ok r, w') ->
  exists gen,
    Forall (fun t => t <> Generation.pad_token self) gen
    /\ ((r = Generation.Pair
               (Generation.encode (Generation.tokenizer self)
                                  (str_strip prompt)
                ++ gen ++ [Generation.pad_token self])
               (Z.of_nat (length gen))
         /\ Z.of_nat (length gen) < steps)
        \/ (r = Generation.Triple
                  (Generation.encode (Generation.tokenizer self)
                                     (str_strip prompt) ++ gen)
                  steps []
            /\ length gen = Z.to_nat steps)).
Proof.
  intros Hg H. unfold Generation.generate_tokens in H.
  apply loop_run in H. destruct H as (gen & Hgen & _ & Hr).
  rewrite Hg in Hr. exists gen. split; [exact Hgen |].
  destruct r as [out s | out s lp]; simpl in Hr.
  - destruct Hr as (-> & -> & Hlen & _). left.
    split; [reflexivity | lia].
  - destruct Hr as (-> & [(-> & Hlen & ->) | (_ & _ & Hr & _)]);
      [| discriminate].
    right. split; [reflexivity | exact Hlen].
Qed.

Lemma generate_tokens_greedy_returns_eos_or_no_logprobs_witness :
  exists gen,
    Forall (fun t => t <> Generation.pad_token generator0) gen
    /\ ((Generation.Triple [1; 2; 1; 2; 1; 1; 1] 3 []
         = Generation.Pair
             (Generation.encode (Generation.tokenizer generator0)
                                "abab"%string
              ++ gen ++ [Generation.pad_token generator0])
             (Z.of_nat (length gen))
         /\ Z.of_nat (length gen) < 3)
        \/ (Generation.Triple [1; 2; 1; 2; 1; 1; 1] 3 []
            = Generation.Triple
                (Generation.encode (Generation.tokenizer generator0)
                                   "abab"%string ++ gen)
                3 []
            /\ length gen = Z.to_nat 3)).
Proof.
  exact (@generate_tokens_greedy_returns_eos_or_no_logprobs
           exp2 log2 nat unit multinomial0 (fun s => s) generator0 model0
           3 1%Q (Some 2) (Some (1#2)%Q) (Some (1#5)%Q) 1%Q
           (Some "greedy"%string) "abab"%string world0
           {| Generation.calls :=
                [([1; 2; 1; 2], None); ([1], Some 4%nat); ([1], Some 5%nat)];
              Generation.rng := tt |}
           (Generation.Triple [1; 2; 1; 2; 1; 1; 1] 3 [])
           eq_refl ltac:(vm_compute; reflexivity)).
Defined.

(** X15. On the greedy path [generate_tokens] never draws from the random
    source: whatever the run does, and also when it raises, the state of
    the source after it is the state before it. *)
Theorem generate_tokens_greedy_never_samples
        (fexp fln : Q -> Q) (Cache Rng : Type)
        (multinomial : list Q -> Rng -> res nat * Rng)
        (str_strip : string -> string)
        (self : Generation.TextGenerator) (model : Generation.Model Cache)
        (steps : Z) (temperature : Q) (top_k : option Z)
        (top_p tau : option Q) (repetition_penalty : Q)
        (sampling_method : option string) (prompt : string)
        (w : Generation.world Cache Rng) :
  Generation.method_is sampling_method "greedy" = true ->
  Generation.rng
    (snd (Generation.generate_tokens fexp fln multinomial str_strip self
            model steps temperature top_k top_p tau repetition_penalty
            sampling_method prompt w))
  = Generation.rng w.
Proof.
  intros Hg. unfold Generation.generate_tokens.
  now apply loop_greedy_rng.
Qed.

Lemma generate_tokens_greedy_never_samples_witness :
  Generation.rng
    (snd (Generation.generate_tokens exp2 log2
            (fun probs (g : nat) => (Generation.argmax probs, S g))
            (fun s => s) generator0 model0 3 1%Q (Some 2) (Some (1#2)%Q)
            (Some (1#5)%Q) 1%Q (Some "greedy"%string) "abab"%string
            {| Generation.calls := []; Generation.rng := 7%nat |}))
  = 7%nat.
Proof.
  exact (@generate_tokens_greedy_never_samples
           exp2 log2 nat nat
           (fun probs (g : nat) => (Generation.argmax probs, S g))
           (fun s => s) generator0 model0 3 1%Q (Some 2) (Some (1#2)%Q)
           (Some (1#5)%Q) 1%Q (Some "greedy"%string) "abab"%string
           {| Generation.calls := []; Generation.rng := 7%nat |} eq_refl).
Defined.

(** X16. Decoding is incremental. For a positive [seq_len], a run of
    [generate_tokens] that returns has made these forward calls and no
    other: a first call on the last [seq_len] tokens of the prompt (all of
    them when there are fewer) without a cache, then one call for each
    token it has appended, on that token alone and with the cache that the
    call before returned; the token appended by the last of [steps]
    iterations is not fed to the model. *)
Theorem generate_tokens_decodes_incrementally
        (fexp fln : Q -> Q) (Cache Rng : Type)
        (multinomial : list Q -> Rng -> res nat * Rng)
        (str_strip : string -> string)
        (self : Generation.TextGenerator) (model : Generation.Model Cache)
        (steps : Z) (temperature : Q) (top_k : option Z)
        (top_p tau : option Q) (repetition_penalty : Q)
        (sampling_method : option string) (prompt : string)
        (w w' : Generation.world Cache Rng) (r : Generation.tokens_result) :
  0 < Generation.seq_len self ->
  Generation.generate_tokens fexp fln multinomial str_strip self model steps
    temperature top_k top_p tau repetition_penalty sampling_method prompt w
  = (Ok r, w') ->
  let tokens :=
    Generation.encode (Generation.tokenizer self) (str_strip prompt) in
  exists gen,
    match r with
    | Generation.Triple out _ _ => out = tokens ++ gen
    | Generation.Pair out _ =>
        out = tokens ++ gen ++ [Generation.pad_token self]
    end
    /\ Generation.calls w'
       = Generation.calls w
         ++ firstn (Z.to_nat steps)
              (DecodingSpec.incremental model
                 (skipn (length tokens - Z.to_nat (Generation.seq_len self))
                        tokens)
                 None gen).
Proof.
  intros Hseq H tokens. unfold Generation.generate_tokens in H.
  apply loop_run in H. destruct H as (gen & _ & Hcalls & Hr).
  exists gen. split.
  - destruct r as [out s | out s lp]; simpl in Hr; now destruct Hr as (-> & _).
  - rewrite Hcalls. do 2 f_equal. simpl. fold tokens.
    f_equal. unfold slice_from.
    destruct (Z.ltb_spec (Generation.seq_len self)
                         (Z.of_nat (length tokens))) as [Hlt | Hge].
    + destruct (Z.ltb_spec (- Generation.seq_len self) 0); [| lia].
      f_equal. lia.
    + replace (length tokens - Z.to_nat (Generation.seq_len self))%nat
        with 0%nat by lia.
      reflexivity.
Qed.

Lemma generate_tokens_decodes_incrementally_witness :
  exists gen,
    [1; 2; 1; 2; 2] = [1; 2; 1; 2] ++ gen
    /\ [([1; 2], None); ([2], Some 2%nat)]
       = firstn 3 (DecodingSpec.incremental model0 [1; 2] None gen).
Proof.
  exact (@generate_tokens_decodes_incrementally
           exp2 log2 nat unit multinomial0 (fun s => s)
           (Generation.TextGenerator_init 2 tokenizer0) model0
           3 1%Q (Some 2) (Some (1#2)%Q) (Some (1#5)%Q) 1%Q None
           "abab"%string world0
           {| Generation.calls := [([1; 2], None); ([2], Some 2%nat)];
              Generation.rng := tt |}
           (Generation.Triple [1; 2; 1; 2; 2] 1 [(-1)%Q; (-1)%Q])
           ltac:(simpl; lia) ltac:(vm_compute; reflexivity)).
Defined.

(** X17. When [generate_tokens] returns three values with a step count
    of at least one, [generate_text_from_prompt] returns the decoding of
    exactly the tokens generated, those after the tokens of the prompt, as
    new text, the prompt as it was given followed by that text as full
    text, and the log-probabilities. *)
Theorem generate_text_from_prompt_decodes_generated_tokens
        (fexp fln : Q -> Q) (Cache Rng : Type)
        (multinomial : list Q -> Rng -> res nat * Rng)
        (text_standardize str_strip : string -> string)
        (self : Generation.TextGenerator) (model : Generation.Model Cache)
        (steps : Z) (temperature : Q) (top_k : option Z)
        (top_p tau : option Q) (repetition_penalty : Q)
        (sampling_method : option string) (prompt : string)
        (w w' : Generation.world Cache Rng)
        (out : list Z) (s : Z) (lp : list Q) :
  Generation.generate_tokens fexp fln multinomial str_strip self model steps
    temperature top_k top_p tau repetition_penalty sampling_method
    (text_standardize prompt) w
  = (Ok (Generation.Triple out s lp), w') ->
  1 <= s ->
  exists gen,
    out = Generation.encode (Generation.tokenizer self)
                            (str_strip (text_standardize prompt)) ++ gen
    /\ Z.of_nat (length gen) = s
    /\ Generation.generate_text_from_prompt fexp fln multinomial
         text_standardize str_strip self model prompt steps temperature
         top_k top_p tau repetition_penalty sampling_method w
       = (Ok ((prompt
               ++ Generation.decode (Generation.tokenizer self) gen)%string,
              Generation.decode (Generation.tokenizer self) gen, lp), w').
Proof.
  intros H Hs.
  unfold Generation.generate_text_from_prompt, Generation.bind.
  rewrite H.
  unfold Generation.generate_tokens in H.
  apply loop_run in H. destruct H as (gen & _ & _ & Hr).
  simpl in Hr. destruct Hr as (-> & Hr).
  assert (Hlen : Z.of_nat (length gen) = s).
  { destruct Hr as [(-> & Hlen & _) | (-> & _)]; lia. }
  exists gen. split; [reflexivity |]. split; [exact Hlen |].
  unfold Generation.token_to_text, Generation.ret.
  set (tokens := Generation.encode (Generation.tokenizer self)
                   (str_strip (text_standardize prompt))).
  assert (Hslice : slice_from (- s) (tokens ++ gen) = gen).
  { unfold slice_from. rewrite length_app.
    destruct (Z.ltb_spec (- s) 0); [| lia].
    replace (Z.to_nat (Z.max 0 (- s + Z.of_nat (length tokens + length gen))))
      with (length tokens + 0)%nat by lia.
    rewrite skipn_app, Nat.add_0_r, skipn_all.
    replace (length tokens - length tokens)%nat with 0%nat by lia.
    reflexivity. }
  rewrite Hslice. reflexivity.
Qed.

Lemma generate_text_from_prompt_decodes_generated_tokens_witness :
  exists gen,
    [1; 2; 1; 2; 1; 1; 1]
    = Generation.encode (Generation.tokenizer generator0) "abab"%string
      ++ gen
    /\ Z.of_nat (length gen) = 3
    /\ Generation.generate_text_from_prompt exp2 log2 multinomial0
         (fun s => s) (fun s => s) generator0 model0 "abab"%string 3 1%Q
         (Some 2) (Some (1#2)%Q) (Some (1#5)%Q) 1%Q None world0
       = (Ok (("abab"
               ++ Generation.decode (Generation.tokenizer generator0) gen)
                %string,
              Generation.decode (Generation.tokenizer generator0) gen,
              [(-1)%Q; (-1)%Q; (-1)%Q]),
          {| Generation.calls :=
               [([1; 2; 1; 2], None); ([1], Some 4%nat); ([1], Some 5%nat)];
             Generation.rng := tt |}).
Proof.
  exact (@generate_text_from_prompt_decodes_generated_tokens
           exp2 log2 nat unit multinomial0 (fun s => s) (fun s => s)
           generator0 model0 3 1%Q (Some 2) (Some (1#2)%Q) (Some (1#5)%Q)
           1%Q None "abab"%string world0
           {| Generation.calls :=
                [([1; 2; 1; 2], None); ([1], Some 4%nat); ([1], Some 5%nat)];
              Generation.rng := tt |}
           [1; 2; 1; 2; 1; 1; 1] 3 [(-1)%Q; (-1)%Q; (-1)%Q]
           ltac:(vm_compute; reflexivity) ltac:(lia)).
Defined.

(** X18. The benchmark end to end. On the batch it builds from a global
    batch of [GRAD_ACCUM_STEPS * m] examples, the training step of
    benchmark_pjit_dp.py returns the mean of the losses, and applies to the
    state the mean of the gradients, of the [GRAD_ACCUM_STEPS] blocks of
    [m] consecutive examples of the global batch, taken in their order. *)
Theorem benchmark_step_averages_blocks_of_global_batch
        (T : Type) (add : T -> T -> T) (zeros_like : T -> T)
        (div_int : T -> Z -> T) (exp : T -> T) (zero : T)
        (TrainState : Type) (state_params : TrainState -> pytree T)
        (apply_gradients : TrainState -> pytree T -> TrainState)
        (grad_fn : pytree T -> pytree (tensor Z) -> T * pytree T)
        (conforms_dp : pytree (tensor Z) -> bool) (state : TrainState)
        (x : tensor Z) (GRAD_ACCUM_STEPS : Z) (m ctx : nat) :
  well_formed x ->
  0 < GRAD_ACCUM_STEPS ->
  shape x = [(Z.to_nat GRAD_ACCUM_STEPS * m)%nat; ctx] ->
  let block := fun g =>
    Leaf {| shape := [m; ctx];
            data := slice (g * m * ctx) (m * ctx) (data x) |} in
  let lgs := map (fun g => grad_fn (state_params state) (block g))
                 (seq 0 (Z.to_nat GRAD_ACCUM_STEPS)) in
  (forall g, (g < Z.to_nat GRAD_ACCUM_STEPS)%nat ->
             conforms_dp (block g) = true) ->
  Forall (fun lg => treedef (snd lg) = treedef (state_params state)) lgs ->
  exists y r,
    BatchLayout.make_batch GRAD_ACCUM_STEPS x = Some y
    /\ accumulated_mean add zeros_like div_int zero (state_params state)
                        lgs r
    /\ BenchmarkPjitDp.train_step add zeros_like div_int exp zero
         state_params apply_gradients grad_fn conforms_dp state (Leaf y)
         GRAD_ACCUM_STEPS
       = Some (apply_gradients state (snd r),
               BenchmarkPjitDp.mkMetrics (fst r) (exp (fst r))).
Proof.
  intros Hwf Hga Hshape block lgs Hconf Hdef.
  set (ga := Z.to_nat GRAD_ACCUM_STEPS) in *.
  assert (Hga' : (0 < ga)%nat) by (unfold ga; lia).
  destruct (@make_batch_blocks x GRAD_ACCUM_STEPS m ctx 0%nat
              Hwf Hga Hshape Hga') as (y & Hy & _ & _ & _).
  assert (Hmb : forall g, (g < ga)%nat ->
                  BenchmarkPjitDp.get_minibatch (Leaf y) (Z.of_nat g)
                  = Some (block g)).
  { intros g Hg.
    destruct (@make_batch_blocks x GRAD_ACCUM_STEPS m ctx g
                Hwf Hga Hshape Hg) as (y' & Hy' & _ & _ & Hg').
    rewrite Hy in Hy'. injection Hy' as <-. exact Hg'. }
  assert (Hlen : length lgs = ga)
    by (unfold lgs; now rewrite length_map, length_seq).
  destruct (@accumulated_mean_of_loop T add zeros_like div_int zero
              (BenchmarkPjitDp.loss_and_grad state_params grad_fn
                                             conforms_dp state (Leaf y))
              (BenchmarkPjitDp.cumul_minibatch_step add state_params grad_fn
                                                    conforms_dp state (Leaf y))
              (state_params state) lgs) as (loss & grads & Hloop & Hmean).
  - intros i [cl cg].
    unfold BenchmarkPjitDp.cumul_minibatch_step, add_step.
    destruct (BenchmarkPjitDp.loss_and_grad state_params grad_fn
                                            conforms_dp state (Leaf y) i)
      as [[l g] |]; reflexivity.
  - intros i v Hi. apply nth_error_map_seq in Hi. destruct Hi as [Hi ->].
    unfold BenchmarkPjitDp.loss_and_grad.
    rewrite (Hmb i Hi).
    unfold BenchmarkPjitDp.with_sharding_constraint.
    now rewrite (Hconf i Hi).
  - exact Hdef.
  - rewrite Hlen in Hloop, Hmean.
    assert (Hz : Z.of_nat ga = GRAD_ACCUM_STEPS) by (unfold ga; lia).
    rewrite Hz in Hloop, Hmean.
    exists y. eexists. split; [exact Hy |]. split; [exact Hmean |].
    unfold BenchmarkPjitDp.train_step, BenchmarkPjitDp.accumulate.
    rewrite Hloop. reflexivity.
Qed.

Lemma benchmark_step_averages_blocks_of_global_batch_witness :
  exists y r,
    BatchLayout.make_batch 2 global_batch0 = Some y
    /\ accumulated_mean Qplus q_zeros_like q_div_int 0%Q params0
         (map (fun g =>
                 grad_fn0 params0
                   (Leaf {| shape := [2; 2]%nat;
                            data := slice (g * 2 * 2) (2 * 2)
                                          (data global_batch0) |}))
              (seq 0 2)) r
    /\ BenchmarkPjitDp.train_step Qplus q_zeros_like q_div_int (fun v => v)
         0%Q (fun s : pytree Q => s) (fun s g => tree_map Qopp g) grad_fn0
         (fun _ => true) params0 (Leaf y) 2
       = Some (tree_map Qopp (snd r),
               BenchmarkPjitDp.mkMetrics (fst r) (fst r)).
Proof.
  assert (H1 : well_formed global_batch0) by reflexivity.
  assert (H2 : Forall (fun lg => treedef (snd lg) = treedef params0)
                 (map (fun g =>
                         grad_fn0 params0
                           (Leaf {| shape := [2; 2]%nat;
                                    data := slice (g * 2 * 2) (2 * 2)
                                                  (data global_batch0) |}))
                      (seq 0 (Z.to_nat 2)))).
  { simpl. repeat constructor. }
  exact (@benchmark_step_averages_blocks_of_global_batch
           Q Qplus q_zeros_like q_div_int (fun v => v) 0%Q (pytree Q)
           (fun s => s) (fun s g => tree_map Qopp g) grad_fn0
           (fun _ => true) params0 global_batch0 2 2 2
           H1 ltac:(lia) eq_refl (fun g _ => eq_refl) H2).
Defined.

Lemma get_minibatch_raises_iff_no_accumulation_axis_witness :
  XmapTrain.get_minibatch
    (Node [batch0; Leaf {| shape := [3]%nat; data := [1; 2; 3] |}]) 0
  = None
  /\ XmapTrain.train_step Qplus q_zeros_like q_div_int (fun v => v) 0%Q
       (fun v => v) grad_fn0 params0
       (Node [batch0; Leaf {| shape := [3]%nat; data := [1; 2; 3] |}]) 2
     = None.
Proof.
  assert (Hidx : is_int32 0) by (unfold is_int32; lia).
  destruct (@get_minibatch_raises_iff_no_accumulation_axis
              (Node [batch0; Leaf {| shape := [3]%nat; data := [1; 2; 3] |}])
              0 Hidx) as (H1 & _ & H2).
  assert (E : Exists (fun x : tensor Z =>
                        match nth_error (shape x) 1 with
                        | None => True
                        | Some d => d = 0%nat
                        end)
                     (tree_leaves
                        (Node [batch0;
                               Leaf {| shape := [3]%nat;
                                       data := [1; 2; 3] |}]))).
  { simpl. apply Exists_cons_tl, Exists_cons_hd. exact I. }
  split.
  - apply H1. exact E.
  - apply (H2 E). lia.
Defined.

Lemma apply_repetition_penalty_raises_iff_token_out_of_vocabulary_witness :
  Generation.apply_repetition_penalty 2 [1; 3] [1; -1; 3]%Q
  = Raise IndexError.
Proof.
  destruct (@apply_repetition_penalty_raises_iff_token_out_of_vocabulary
              2 [1; 3] [1; -1; 3]%Q) as ((_ & H) & _).
  apply H. apply Exists_cons_tl, Exists_cons_hd. simpl. lia.
Defined.

Lemma loop_body_history_nodup_witness :
  NoDup (Generation.generated_tokens
           {| Generation.x := [1; 2; 2]; Generation.x_cond := [2];
              Generation.layer_past := Some 2%nat;
              Generation.generated_tokens := [2];
              Generation.logprobs := [(-1)%Q] |}).
Proof.
  exact (@loop_body_history_nodup
           exp2 log2 nat unit multinomial0 generator0 model0 1%Q
           (Some 2) (Some (1#2)%Q) (Some (1#5)%Q) 1%Q None 0
           (Generation.initial_state nat (fun s => s) generator0 "ab"%string)
           {| Generation.x := [1; 2; 2]; Generation.x_cond := [2];
              Generation.layer_past := Some 2%nat;
              Generation.generated_tokens := [2];
              Generation.logprobs := [(-1)%Q] |}
           world0
           {| Generation.calls := [([1; 2], None)]; Generation.rng := tt |}
           ltac:(vm_compute; reflexivity) (NoDup_nil Z)).
Defined.
